(** * A model of the content script (content.js)

    The content script annotates user names on a timeline with a flag glyph.
    It is a single-threaded, event-driven program: every piece of code runs
    to completion inside a task (a timer callback, a message handler, a
    mutation-observer callback) or inside a promise job that follows a task.

    The development embeds the script as functions over an explicit state:
    the script's global variables, the document, the persistent storage, and
    the event loop's pending timers and promise jobs.  The promise
    continuations of the script are defunctionalised into data ([Task],
    [Job], [Annotation]).

    Conventions of the embedding:
    - [Date.now()] is the [clock] of the state; it does not go back, and a
      task or a job reads one value of it.  A timer fires when the
      environment picks it, not before it is due.
    - An element is referred to by its identity ([nid]); reading or writing
      an element that is not in the document does nothing.
    - Three calls into the DOM may raise: [insertBefore] (its reference
      node is not a child of the parent), [document.head.appendChild] (the
      document has no [head]) and [querySelector] on the selector that is
      made from a handle (the text is no selector).
    - [requestId], in the script [Date.now() + Math.random()], is a number
      that no earlier request had.
    - The storage is read when the script starts.  A write is in the
      storage when it is issued and does not fail; the promise of the write
      is settled later, in a task of its own.
    - [trim] and [toLowerCase] work on the ASCII range. *)

From Stdlib Require Import ZArith String Ascii List Lia Bool.
From stdpp Require Import gmap strings list.

Set Warnings "-register-all".

Import ListNotations.
Open Scope string_scope.
Open Scope Z_scope.

(** ** Strings, as the script uses them *)

Module Str.

(** [s.startsWith(p)] *)
Definition startsWith (s p : string) : bool := String.prefix p s.

(** [s.includes(sub)] *)
Fixpoint includes (s sub : string) : bool :=
  String.prefix sub s ||
  match s with
  | EmptyString => false
  | String _ rest => includes rest sub
  end.

Definition eqb (a b : string) : bool := bool_decide (a = b).

(** [list.includes(s)] *)
Definition elem (s : string) (l : list string) : bool := existsb (eqb s) l.

Definition isSpace (c : ascii) : bool :=
  let n := nat_of_ascii c in
  ((9 <=? n) && (n <=? 13) || (n =? 32))%nat.

Fixpoint trimStart (s : string) : string :=
  match s with
  | String c rest => if isSpace c then trimStart rest else s
  | EmptyString => EmptyString
  end.

Fixpoint rev_onto (s acc : string) : string :=
  match s with
  | EmptyString => acc
  | String c rest => rev_onto rest (String c acc)
  end.

Definition rev (s : string) : string := rev_onto s EmptyString.

(** [s.trim()] *)
Definition trim (s : string) : string := rev (trimStart (rev (trimStart s))).

Definition lowerChar (c : ascii) : ascii :=
  let n := nat_of_ascii c in
  if ((65 <=? n) && (n <=? 90))%nat then ascii_of_nat (n + 32) else c.

(** [s.toLowerCase()], on the ASCII range *)
Fixpoint toLowerCase (s : string) : string :=
  match s with
  | EmptyString => EmptyString
  | String c rest => String (lowerChar c) (toLowerCase rest)
  end.

Definition isDigit (c : ascii) : bool :=
  let n := nat_of_ascii c in ((48 <=? n) && (n <=? 57))%nat.

Fixpoint allDigits (s : string) : bool :=
  match s with
  | EmptyString => true
  | String c rest => isDigit c && allDigits rest
  end.

(** [/^\d+$/] *)
Definition isNumeric (s : string) : bool :=
  match s with
  | EmptyString => false
  | _ => allDigits s
  end.

(** The longest prefix without ['/'] and ['?'] : the group [([^\/\?]+)]. *)
Fixpoint segment (s : string) : string :=
  match s with
  | EmptyString => EmptyString
  | String c rest =>
      if (Ascii.eqb c "/" || Ascii.eqb c "?")%char then EmptyString
      else String c (segment rest)
  end.

(** [href.match(/^\/([^\/\?]+)/)], giving [match[1]] when it is truthy. *)
Definition firstSegment (href : string) : option string :=
  match href with
  | String "/"%char rest =>
      match segment rest with
      | EmptyString => None
      | seg => Some seg
      end
  | _ => None
  end.

(** JavaScript truthiness of a string-or-null value: [x || null]. *)
Definition orNull (x : option string) : option string :=
  match x with
  | Some EmptyString => None
  | _ => x
  end.

End Str.

(** ** The document *)

Module Dom.

(** An element has an identity ([nid]), a tag, attributes and children. *)
Inductive Node :=
| Element (nid : nat) (tag : string) (attrs : list (string * string))
          (children : list Node)
| TextNode (data : string).

Definition nodeId (n : Node) : option nat :=
  match n with
  | Element i _ _ _ => Some i
  | TextNode _ => None
  end.

Definition hasId (i : nat) (n : Node) : bool :=
  match n with
  | Element j _ _ _ => Nat.eqb i j
  | TextNode _ => false
  end.

Definition childNodes (n : Node) : list Node :=
  match n with
  | Element _ _ _ ks => ks
  | TextNode _ => []
  end.

Fixpoint lookupAttr (name : string) (attrs : list (string * string))
  : option string :=
  match attrs with
  | [] => None
  | (k, v) :: rest => if Str.eqb k name then Some v else lookupAttr name rest
  end.

(** [n.getAttribute(name)] *)
Definition getAttribute (name : string) (n : Node) : option string :=
  match n with
  | Element _ _ attrs _ => lookupAttr name attrs
  | TextNode _ => None
  end.

Definition dropAttr (name : string) (attrs : list (string * string))
  : list (string * string) :=
  List.filter (fun kv => negb (Str.eqb (fst kv) name)) attrs.

(** The node and everything below it, in document order. *)
Fixpoint subtree (n : Node) : list Node :=
  match n with
  | Element _ _ _ ks => n :: flat_map subtree ks
  | TextNode _ => [n]
  end.

Definition descendants (n : Node) : list Node := flat_map subtree (childNodes n).

Definition allNodes (doc : list Node) : list Node := flat_map subtree doc.

(** [n.textContent] *)
Fixpoint textContent (n : Node) : string :=
  match n with
  | Element _ _ _ ks => List.fold_right (fun k acc => textContent k ++ acc)%string "" ks
  | TextNode d => d
  end.

(** The element a reference points to, as it is in the document now. *)
Definition getNode (i : nat) (doc : list Node) : option Node :=
  List.find (hasId i) (allNodes doc).

(** [n.parentNode], for a parent that is an element. *)
Definition parentNode (i : nat) (doc : list Node) : option nat :=
  match List.find (fun p => existsb (hasId i) (childNodes p)) (allNodes doc) with
  | Some p => nodeId p
  | None => None
  end.

(** Selectors are predicates on nodes; text nodes match none. *)
Definition tagIs (t : string) (n : Node) : bool :=
  match n with
  | Element _ t' _ _ => Str.eqb t' t
  | TextNode _ => false
  end.

Definition attrIs (name value : string) (n : Node) : bool :=
  match getAttribute name n with
  | Some v => Str.eqb v value
  | None => false
  end.

Definition hasAttr (name : string) (n : Node) : bool :=
  match getAttribute name n with
  | Some _ => true
  | None => false
  end.

(** [root.querySelectorAll(sel)] and [root.querySelector(sel)] *)
Definition querySelectorAll (sel : Node -> bool) (root : Node) : list Node :=
  List.filter sel (descendants root).

Definition querySelector (sel : Node -> bool) (root : Node) : option Node :=
  List.find sel (descendants root).

(** [document.querySelectorAll(sel)] *)
Definition documentQuery (sel : Node -> bool) (doc : list Node) : list Node :=
  List.filter sel (allNodes doc).

(** Apply [f] to the element(s) with identity [i]. *)
Fixpoint updateNode (i : nat) (f : Node -> Node) (n : Node) : Node :=
  match n with
  | Element j t a ks =>
      let n' := Element j t a (List.map (updateNode i f) ks) in
      if Nat.eqb i j then f n' else n'
  | TextNode _ => n
  end.

Definition update (i : nat) (f : Node -> Node) (doc : list Node) : list Node :=
  List.map (updateNode i f) doc.

(** Rewrite the attributes of every element: [h] gets the element's
    identity and its attributes. *)
Fixpoint mapAttrsNode (h : nat -> list (string * string) -> list (string * string))
    (n : Node) : Node :=
  match n with
  | Element j t a ks => Element j t (h j a) (List.map (mapAttrsNode h) ks)
  | TextNode _ => n
  end.

Definition mapAttrs (h : nat -> list (string * string) -> list (string * string))
    (doc : list Node) : list Node :=
  List.map (mapAttrsNode h) doc.

Definition onElement (i : nat) (g : list (string * string) -> list (string * string))
    (j : nat) (a : list (string * string)) : list (string * string) :=
  if Nat.eqb i j then g a else a.

(** [el.setAttribute(name, value)] *)
Definition setAttribute (i : nat) (name value : string) (doc : list Node)
  : list Node :=
  mapAttrs (onElement i (fun a => (name, value) :: dropAttr name a)) doc.

(** [el.removeAttribute(name)] *)
Definition removeAttribute (i : nat) (name : string) (doc : list Node)
  : list Node :=
  mapAttrs (onElement i (dropAttr name)) doc.

(** Take every node that satisfies [p] out of the tree. *)
Fixpoint pruneNode (p : Node -> bool) (n : Node) : Node :=
  match n with
  | Element j t a ks =>
      Element j t a (List.filter (fun k => negb (p k)) (List.map (pruneNode p) ks))
  | TextNode _ => n
  end.

Definition prune (p : Node -> bool) (doc : list Node) : list Node :=
  List.filter (fun k => negb (p k)) (List.map (pruneNode p) doc).

(** [el.remove()] : detach the element with identity [i]. *)
Definition remove (i : nat) (doc : list Node) : list Node := prune (hasId i) doc.

(** [parent.appendChild(new)] *)
Definition appendTo (new : Node) (n : Node) : Node :=
  match n with
  | Element j t a ks => Element j t a (ks ++ [new])
  | TextNode _ => n
  end.

Definition appendChild (parent : nat) (new : Node) (doc : list Node)
  : list Node := update parent (appendTo new) doc.

Fixpoint insertAt (new : Node) (ref : nat) (ks : list Node) : list Node :=
  match ks with
  | [] => []
  | k :: rest => if hasId ref k then new :: k :: rest else k :: insertAt new ref rest
  end.

Definition insertIn (new : Node) (ref : nat) (n : Node) : Node :=
  match n with
  | Element j t a ks => Element j t a (insertAt new ref ks)
  | TextNode _ => n
  end.

(** [parent.insertBefore(new, ref)].  The DOM raises NotFoundError when
    [ref] is not a child of [parent]: that is [None]. *)
Definition insertBefore (parent : nat) (new : Node) (ref : nat) (doc : list Node)
  : option (list Node) :=
  match getNode parent doc with
  | Some p =>
      if existsb (hasId ref) (childNodes p)
      then Some (update parent (insertIn new ref) doc)
      else None
  | None => None
  end.

(** The largest identity in use, for allocating fresh ones. *)
Definition maxId (doc : list Node) : nat :=
  List.fold_right (fun n acc => match nodeId n with Some i => Nat.max i acc | None => acc end)
    0%nat (allNodes doc).

End Dom.

Import Dom.

(** ** Data of the script *)

(** What a function call does: return a value, or raise. *)
Inductive Completion (A : Type) :=
| Normal (a : A)
| Throw.
Arguments Normal {A} a.
Arguments Throw {A}.

(** How a promise is settled. *)
Inductive Settlement :=
| Fulfilled (location : option string)
| Rejected.

(** An entry of the object stored under [CACHE_KEY]. *)
Record CacheEntry := {
  location : option string;
  expiry : Z;
  cachedAt : Z
}.

(** The variables an invocation of [addFlagToUsername] holds across its
    [await getUserLocation(screenName)]. *)
Record Annotation := {
  usernameElement : nat;
  screenName : string;
  userNameContainer : option nat;
  shimmerSpan : nat;
  shimmerInserted : bool
}.

(** An entry [{ screenName, resolve, reject }] of [requestQueue]; [resolve]
    and [reject] settle the promise the annotation awaits. *)
Record QueuedRequest := {
  q_screenName : string;
  q_waiter : Annotation
}.

(** A ['message'] handler registered by [makeLocationRequest], with the
    promise it resolves. *)
Record BridgeRequest := {
  requestId : nat;
  b_screenName : string;
  b_waiter : Annotation
}.

(** Timer callbacks. *)
Inductive Task :=
| T_processUsernames                 (* setTimeout(processUsernames, ..) *)
| T_processRequestQueue              (* setTimeout(processRequestQueue, ..) *)
| T_queueWake                        (* the await inside the dispatch loop *)
| T_bridgeTimeout (rid : nat)        (* the 10 s timer of makeLocationRequest *)
| T_waiting (el : nat)               (* the 500 ms await of a duplicate *)
| T_saveCacheTimeout                 (* the 5 s timer of saveCacheEntry *)
| T_saveCacheWritten                 (* the write that its callback awaits is done *)
| T_saveCacheInterval.               (* setInterval(saveCache, 30000) *)

#[global] Instance Task_eq_dec : EqDecision Task.
Proof. solve_decision. Defined.

(** Promise jobs (microtasks). *)
Inductive Job :=
| J_then (w : Annotation) (v : option string)  (* .then(location => resolve(location)) *)
| J_catch                                      (* .catch(..) passing a value through *)
| J_finally                                    (* .finally(() => { .. }) *)
| J_resume (w : Annotation) (r : Settlement)   (* addFlagToUsername after its await *)
| J_failed (container : nat).                  (* the .catch(..) of processUsernames *)

(** Messages posted by the page script to the window. *)
Inductive MessageData :=
| LocationResponse (name : string) (rid : nat) (loc : option string)
                   (isRateLimited : bool)
| RateLimitInfo (resetTime waitTime : Z)
| OtherMessage.

(** What the environment does. *)
Inductive Event :=
| Advance (dt : Z)                        (* time passes *)
| Fire (i : nat)                          (* the i-th pending timer fires *)
| RunJob                                  (* the next promise job runs *)
| WindowMessage (data : MessageData)      (* a 'message' event on window *)
| ExtensionToggle (enabled : bool)        (* the popup's runtime message *)
| Mutation (doc : list Node) (added urlChanged : bool)  (* the page re-renders *)
| ContextInvalidated.                     (* runtime.runtime.id becomes undefined *)

(** ** The state *)

Record State := {
  (* the script's variables *)
  locationCache : gmap string (option string);
  requestQueue : list QueuedRequest;
  isProcessingQueue : bool;
  lastRequestTime : Z;
  activeRequests : Z;
  rateLimitResetTime : Z;
  extensionEnabled : bool;
  processingUsernames : gset string;
  saveCacheTimeout : bool;               (* saveCache.timeout holds a timer id *)
  observing : bool;                      (* init installed observers and listener *)
  (* the page and the extension runtime *)
  document : list Node;
  nextNode : nat;                        (* identity of the next created element *)
  storage : option (gmap string CacheEntry);  (* the value under CACHE_KEY *)
  runtimeValid : bool;                   (* runtime.runtime?.id is truthy *)
  (* the event loop *)
  clock : Z;                             (* Date.now() *)
  timers : list (Z * Task);
  jobs : list Job;
  listeners : list BridgeRequest;
  nextRequest : nat;
  posted : list (Z * nat * string)       (* '__fetchLocation' messages, newest first *)
}.

(** How a call ends that the script does not await at once. *)
Inductive Exit := Returned | Raised.

Module Upd.

Definition with_locationCache (v : gmap string (option string)) (s : State) : State :=
  {| locationCache := v; requestQueue := requestQueue s;
     isProcessingQueue := isProcessingQueue s; lastRequestTime := lastRequestTime s;
     activeRequests := activeRequests s; rateLimitResetTime := rateLimitResetTime s;
     extensionEnabled := extensionEnabled s;
     processingUsernames := processingUsernames s;
     saveCacheTimeout := saveCacheTimeout s; observing := observing s;
     document := document s; nextNode := nextNode s; storage := storage s;
     runtimeValid := runtimeValid s; clock := clock s; timers := timers s;
     jobs := jobs s; listeners := listeners s; nextRequest := nextRequest s;
     posted := posted s |}.

Definition with_requestQueue (v : list QueuedRequest) (s : State) : State :=
  {| locationCache := locationCache s; requestQueue := v;
     isProcessingQueue := isProcessingQueue s; lastRequestTime := lastRequestTime s;
     activeRequests := activeRequests s; rateLimitResetTime := rateLimitResetTime s;
     extensionEnabled := extensionEnabled s;
     processingUsernames := processingUsernames s;
     saveCacheTimeout := saveCacheTimeout s; observing := observing s;
     document := document s; nextNode := nextNode s; storage := storage s;
     runtimeValid := runtimeValid s; clock := clock s; timers := timers s;
     jobs := jobs s; listeners := listeners s; nextRequest := nextRequest s;
     posted := posted s |}.

Definition with_isProcessingQueue (v : bool) (s : State) : State :=
  {| locationCache := locationCache s; requestQueue := requestQueue s;
     isProcessingQueue := v; lastRequestTime := lastRequestTime s;
     activeRequests := activeRequests s; rateLimitResetTime := rateLimitResetTime s;
     extensionEnabled := extensionEnabled s;
     processingUsernames := processingUsernames s;
     saveCacheTimeout := saveCacheTimeout s; observing := observing s;
     document := document s; nextNode := nextNode s; storage := storage s;
     runtimeValid := runtimeValid s; clock := clock s; timers := timers s;
     jobs := jobs s; listeners := listeners s; nextRequest := nextRequest s;
     posted := posted s |}.

Definition with_lastRequestTime (v : Z) (s : State) : State :=
  {| locationCache := locationCache s; requestQueue := requestQueue s;
     isProcessingQueue := isProcessingQueue s; lastRequestTime := v;
     activeRequests := activeRequests s; rateLimitResetTime := rateLimitResetTime s;
     extensionEnabled := extensionEnabled s;
     processingUsernames := processingUsernames s;
     saveCacheTimeout := saveCacheTimeout s; observing := observing s;
     document := document s; nextNode := nextNode s; storage := storage s;
     runtimeValid := runtimeValid s; clock := clock s; timers := timers s;
     jobs := jobs s; listeners := listeners s; nextRequest := nextRequest s;
     posted := posted s |}.

Definition with_activeRequests (v : Z) (s : State) : State :=
  {| locationCache := locationCache s; requestQueue := requestQueue s;
     isProcessingQueue := isProcessingQueue s; lastRequestTime := lastRequestTime s;
     activeRequests := v; rateLimitResetTime := rateLimitResetTime s;
     extensionEnabled := extensionEnabled s;
     processingUsernames := processingUsernames s;
     saveCacheTimeout := saveCacheTimeout s; observing := observing s;
     document := document s; nextNode := nextNode s; storage := storage s;
     runtimeValid := runtimeValid s; clock := clock s; timers := timers s;
     jobs := jobs s; listeners := listeners s; nextRequest := nextRequest s;
     posted := posted s |}.

Definition with_rateLimitResetTime (v : Z) (s : State) : State :=
  {| locationCache := locationCache s; requestQueue := requestQueue s;
     isProcessingQueue := isProcessingQueue s; lastRequestTime := lastRequestTime s;
     activeRequests := activeRequests s; rateLimitResetTime := v;
     extensionEnabled := extensionEnabled s;
     processingUsernames := processingUsernames s;
     saveCacheTimeout := saveCacheTimeout s; observing := observing s;
     document := document s; nextNode := nextNode s; storage := storage s;
     runtimeValid := runtimeValid s; clock := clock s; timers := timers s;
     jobs := jobs s; listeners := listeners s; nextRequest := nextRequest s;
     posted := posted s |}.

Definition with_extensionEnabled (v : bool) (s : State) : State :=
  {| locationCache := locationCache s; requestQueue := requestQueue s;
     isProcessingQueue := isProcessingQueue s; lastRequestTime := lastRequestTime s;
     activeRequests := activeRequests s; rateLimitResetTime := rateLimitResetTime s;
     extensionEnabled := v; processingUsernames := processingUsernames s;
     saveCacheTimeout := saveCacheTimeout s; observing := observing s;
     document := document s; nextNode := nextNode s; storage := storage s;
     runtimeValid := runtimeValid s; clock := clock s; timers := timers s;
     jobs := jobs s; listeners := listeners s; nextRequest := nextRequest s;
     posted := posted s |}.

Definition with_processingUsernames (v : gset string) (s : State) : State :=
  {| locationCache := locationCache s; requestQueue := requestQueue s;
     isProcessingQueue := isProcessingQueue s; lastRequestTime := lastRequestTime s;
     activeRequests := activeRequests s; rateLimitResetTime := rateLimitResetTime s;
     extensionEnabled := extensionEnabled s; processingUsernames := v;
     saveCacheTimeout := saveCacheTimeout s; observing := observing s;
     document := document s; nextNode := nextNode s; storage := storage s;
     runtimeValid := runtimeValid s; clock := clock s; timers := timers s;
     jobs := jobs s; listeners := listeners s; nextRequest := nextRequest s;
     posted := posted s |}.

Definition with_saveCacheTimeout (v : bool) (s : State) : State :=
  {| locationCache := locationCache s; requestQueue := requestQueue s;
     isProcessingQueue := isProcessingQueue s; lastRequestTime := lastRequestTime s;
     activeRequests := activeRequests s; rateLimitResetTime := rateLimitResetTime s;
     extensionEnabled := extensionEnabled s;
     processingUsernames := processingUsernames s; saveCacheTimeout := v;
     observing := observing s; document := document s; nextNode := nextNode s;
     storage := storage s; runtimeValid := runtimeValid s; clock := clock s;
     timers := timers s; jobs := jobs s; listeners := listeners s;
     nextRequest := nextRequest s; posted := posted s |}.

Definition with_observing (v : bool) (s : State) : State :=
  {| locationCache := locationCache s; requestQueue := requestQueue s;
     isProcessingQueue := isProcessingQueue s; lastRequestTime := lastRequestTime s;
     activeRequests := activeRequests s; rateLimitResetTime := rateLimitResetTime s;
     extensionEnabled := extensionEnabled s;
     processingUsernames := processingUsernames s;
     saveCacheTimeout := saveCacheTimeout s; observing := v; document := document s;
     nextNode := nextNode s; storage := storage s; runtimeValid := runtimeValid s;
     clock := clock s; timers := timers s; jobs := jobs s; listeners := listeners s;
     nextRequest := nextRequest s; posted := posted s |}.

Definition with_document (v : list Node) (s : State) : State :=
  {| locationCache := locationCache s; requestQueue := requestQueue s;
     isProcessingQueue := isProcessingQueue s; lastRequestTime := lastRequestTime s;
     activeRequests := activeRequests s; rateLimitResetTime := rateLimitResetTime s;
     extensionEnabled := extensionEnabled s;
     processingUsernames := processingUsernames s;
     saveCacheTimeout := saveCacheTimeout s; observing := observing s; document := v;
     nextNode := nextNode s; storage := storage s; runtimeValid := runtimeValid s;
     clock := clock s; timers := timers s; jobs := jobs s; listeners := listeners s;
     nextRequest := nextRequest s; posted := posted s |}.

Definition with_nextNode (v : nat) (s : State) : State :=
  {| locationCache := locationCache s; requestQueue := requestQueue s;
     isProcessingQueue := isProcessingQueue s; lastRequestTime := lastRequestTime s;
     activeRequests := activeRequests s; rateLimitResetTime := rateLimitResetTime s;
     extensionEnabled := extensionEnabled s;
     processingUsernames := processingUsernames s;
     saveCacheTimeout := saveCacheTimeout s; observing := observing s;
     document := document s; nextNode := v; storage := storage s;
     runtimeValid := runtimeValid s; clock := clock s; timers := timers s;
     jobs := jobs s; listeners := listeners s; nextRequest := nextRequest s;
     posted := posted s |}.

Definition with_storage (v : option (gmap string CacheEntry)) (s : State) : State :=
  {| locationCache := locationCache s; requestQueue := requestQueue s;
     isProcessingQueue := isProcessingQueue s; lastRequestTime := lastRequestTime s;
     activeRequests := activeRequests s; rateLimitResetTime := rateLimitResetTime s;
     extensionEnabled := extensionEnabled s;
     processingUsernames := processingUsernames s;
     saveCacheTimeout := saveCacheTimeout s; observing := observing s;
     document := document s; nextNode := nextNode s; storage := v;
     runtimeValid := runtimeValid s; clock := clock s; timers := timers s;
     jobs := jobs s; listeners := listeners s; nextRequest := nextRequest s;
     posted := posted s |}.

Definition with_runtimeValid (v : bool) (s : State) : State :=
  {| locationCache := locationCache s; requestQueue := requestQueue s;
     isProcessingQueue := isProcessingQueue s; lastRequestTime := lastRequestTime s;
     activeRequests := activeRequests s; rateLimitResetTime := rateLimitResetTime s;
     extensionEnabled := extensionEnabled s;
     processingUsernames := processingUsernames s;
     saveCacheTimeout := saveCacheTimeout s; observing := observing s;
     document := document s; nextNode := nextNode s; storage := storage s;
     runtimeValid := v; clock := clock s; timers := timers s; jobs := jobs s;
     listeners := listeners s; nextRequest := nextRequest s; posted := posted s |}.

Definition with_clock (v : Z) (s : State) : State :=
  {| locationCache := locationCache s; requestQueue := requestQueue s;
     isProcessingQueue := isProcessingQueue s; lastRequestTime := lastRequestTime s;
     activeRequests := activeRequests s; rateLimitResetTime := rateLimitResetTime s;
     extensionEnabled := extensionEnabled s;
     processingUsernames := processingUsernames s;
     saveCacheTimeout := saveCacheTimeout s; observing := observing s;
     document := document s; nextNode := nextNode s; storage := storage s;
     runtimeValid := runtimeValid s; clock := v; timers := timers s; jobs := jobs s;
     listeners := listeners s; nextRequest := nextRequest s; posted := posted s |}.

Definition with_timers (v : list (Z * Task)) (s : State) : State :=
  {| locationCache := locationCache s; requestQueue := requestQueue s;
     isProcessingQueue := isProcessingQueue s; lastRequestTime := lastRequestTime s;
     activeRequests := activeRequests s; rateLimitResetTime := rateLimitResetTime s;
     extensionEnabled := extensionEnabled s;
     processingUsernames := processingUsernames s;
     saveCacheTimeout := saveCacheTimeout s; observing := observing s;
     document := document s; nextNode := nextNode s; storage := storage s;
     runtimeValid := runtimeValid s; clock := clock s; timers := v; jobs := jobs s;
     listeners := listeners s; nextRequest := nextRequest s; posted := posted s |}.

Definition with_jobs (v : list Job) (s : State) : State :=
  {| locationCache := locationCache s; requestQueue := requestQueue s;
     isProcessingQueue := isProcessingQueue s; lastRequestTime := lastRequestTime s;
     activeRequests := activeRequests s; rateLimitResetTime := rateLimitResetTime s;
     extensionEnabled := extensionEnabled s;
     processingUsernames := processingUsernames s;
     saveCacheTimeout := saveCacheTimeout s; observing := observing s;
     document := document s; nextNode := nextNode s; storage := storage s;
     runtimeValid := runtimeValid s; clock := clock s; timers := timers s; jobs := v;
     listeners := listeners s; nextRequest := nextRequest s; posted := posted s |}.

Definition with_listeners (v : list BridgeRequest) (s : State) : State :=
  {| locationCache := locationCache s; requestQueue := requestQueue s;
     isProcessingQueue := isProcessingQueue s; lastRequestTime := lastRequestTime s;
     activeRequests := activeRequests s; rateLimitResetTime := rateLimitResetTime s;
     extensionEnabled := extensionEnabled s;
     processingUsernames := processingUsernames s;
     saveCacheTimeout := saveCacheTimeout s; observing := observing s;
     document := document s; nextNode := nextNode s; storage := storage s;
     runtimeValid := runtimeValid s; clock := clock s; timers := timers s;
     jobs := jobs s; listeners := v; nextRequest := nextRequest s;
     posted := posted s |}.

Definition with_nextRequest (v : nat) (s : State) : State :=
  {| locationCache := locationCache s; requestQueue := requestQueue s;
     isProcessingQueue := isProcessingQueue s; lastRequestTime := lastRequestTime s;
     activeRequests := activeRequests s; rateLimitResetTime := rateLimitResetTime s;
     extensionEnabled := extensionEnabled s;
     processingUsernames := processingUsernames s;
     saveCacheTimeout := saveCacheTimeout s; observing := observing s;
     document := document s; nextNode := nextNode s; storage := storage s;
     runtimeValid := runtimeValid s; clock := clock s; timers := timers s;
     jobs := jobs s; listeners := listeners s; nextRequest := v;
     posted := posted s |}.

Definition with_posted (v : list (Z * nat * string)) (s : State) : State :=
  {| locationCache := locationCache s; requestQueue := requestQueue s;
     isProcessingQueue := isProcessingQueue s; lastRequestTime := lastRequestTime s;
     activeRequests := activeRequests s; rateLimitResetTime := rateLimitResetTime s;
     extensionEnabled := extensionEnabled s;
     processingUsernames := processingUsernames s;
     saveCacheTimeout := saveCacheTimeout s; observing := observing s;
     document := document s; nextNode := nextNode s; storage := storage s;
     runtimeValid := runtimeValid s; clock := clock s; timers := timers s;
     jobs := jobs s; listeners := listeners s; nextRequest := nextRequest s;
     posted := v |}.

End Upd.
Import Upd.

(** ** The script *)

Definition CACHE_EXPIRY_DAYS : Z := 30.
Definition MIN_REQUEST_INTERVAL : Z := 2000.
Definition MAX_CONCURRENT_REQUESTS : Z := 2.
Definition DEFAULT_ENABLED : bool := true.

Definition FLAG_ADDED : string := "data-flag-added".
Definition FLAG : string := "data-twitter-flag".
Definition SHIMMER : string := "data-twitter-flag-shimmer".

(** [setTimeout(callback, delay)] *)
Definition setTimeout (t : Task) (delay : Z) (s : State) : State :=
  with_timers (timers s ++ [(clock s + Z.max 0 delay, t)]) s.

Definition enqueueJob (j : Job) (s : State) : State :=
  with_jobs (jobs s ++ [j]) s.

Definition elementIds (l : list Node) : list nat :=
  flat_map (fun n => match nodeId n with Some i => [i] | None => [] end) l.

(** *** The cache *)

Definition loadable (now : Z) (data : CacheEntry) : option (option string) :=
  if negb (expiry data =? 0) && (now <? expiry data) then
    match location data with
    | Some l => Some (Some l)
    | None => None
    end
  else None.

Definition loadCache (s : State) : State :=
  if negb (runtimeValid s) then s
  else match storage s with
       | Some cached =>
           with_locationCache (omap (loadable (clock s)) cached ∪ locationCache s) s
       | None => s
       end.

(** [cacheObj] is a plain object, [{}]: the assignment
    [cacheObj['__proto__'] = ..] sets its prototype and adds no key, so the
    handle [__proto__] has no entry in what is written. *)
Definition saveCache (s : State) : State :=
  if negb (runtimeValid s) then s
  else
    let now := clock s in
    let expiry := now + CACHE_EXPIRY_DAYS * 24 * 60 * 60 * 1000 in
    let cacheObj :=
      (fun location => {| location := location; expiry := expiry; cachedAt := now |})
        <$> delete "__proto__" (locationCache s) in
    with_storage (Some cacheObj) s.

(** The promise of a call into the browser is settled in a task that the
    browser queues, at any time from now on. *)
Definition settleLater (t : Task) (s : State) : State :=
  with_timers (timers s ++ [(clock s, t)]) s.

(** The callback of the 5 s timer, [async () => { await saveCache();
    saveCache.timeout = null; }], up to its [await].  With the context gone
    [saveCache] has returned, and the callback goes on in a job of the same
    task, with nothing in between. *)
Definition saveCacheCallback (s : State) : State :=
  if negb (runtimeValid s) then with_saveCacheTimeout false s
  else settleLater T_saveCacheWritten (saveCache s).

Definition saveCacheEntry (username : string) (location : option string)
    (s : State) : State :=
  if negb (runtimeValid s) then s
  else
    let s := with_locationCache (<[username := location]> (locationCache s)) s in
    if saveCacheTimeout s then s
    else with_saveCacheTimeout true (setTimeout T_saveCacheTimeout 5000 s).

(** *** The page bridge *)

Definition makeLocationRequest (screenName : string) (w : Annotation)
    (s : State) : State :=
  let rid := nextRequest s in
  let s := with_nextRequest (S rid) s in
  let s := with_listeners
             (listeners s ++
              [{| requestId := rid; b_screenName := screenName; b_waiter := w |}]) s in
  let s := with_posted ((clock s, rid, screenName) :: posted s) s in
  setTimeout (T_bridgeTimeout rid) 10000 s.

(** [window.removeEventListener('message', handler)] *)
Definition removeListener (rid : nat) (s : State) : State :=
  with_listeners (List.filter (fun r => negb (Nat.eqb (requestId r) rid)) (listeners s)) s.

(** The ['message'] handler of one request. *)
Definition handler (r : BridgeRequest) (data : MessageData) (s : State) : State :=
  match data with
  | LocationResponse name rid loc isRateLimited =>
      if Str.eqb name (b_screenName r) && Nat.eqb rid (requestId r) then
        let s := removeListener (requestId r) s in
        let s := if negb isRateLimited
                 then saveCacheEntry (b_screenName r) (Str.orNull loc) s
                 else s in
        enqueueJob (J_then (b_waiter r) (Str.orNull loc)) s
      else s
  | _ => s
  end.

(** The 10 s timer of one request; resolving a settled promise does nothing. *)
Definition bridgeTimeout (rid : nat) (s : State) : State :=
  match List.find (fun r => Nat.eqb (requestId r) rid) (listeners s) with
  | Some r => enqueueJob (J_then (b_waiter r) None) (removeListener rid s)
  | None => s
  end.

(** The listener installed by [injectPageScript]. *)
Definition rateLimitListener (data : MessageData) (s : State) : State :=
  match data with
  | RateLimitInfo resetTime _ => with_rateLimitResetTime resetTime s
  | _ => s
  end.

(** *** The request queue *)

Definition dispatch (r : QueuedRequest) (s : State) : State :=
  let s := with_activeRequests (activeRequests s + 1) s in
  let s := with_lastRequestTime (clock s) s in
  makeLocationRequest (q_screenName r) (q_waiter r) s.

(** The [while] loop of [processRequestQueue]; [q] is [requestQueue]. *)
Fixpoint dispatchLoop (q : list QueuedRequest) (s : State) : State :=
  match q with
  | [] => with_isProcessingQueue false s
  | r :: q' =>
      if activeRequests s <? MAX_CONCURRENT_REQUESTS then
        let timeSinceLastRequest := clock s - lastRequestTime s in
        if timeSinceLastRequest <? MIN_REQUEST_INTERVAL then
          setTimeout T_queueWake (MIN_REQUEST_INTERVAL - timeSinceLastRequest) s
        else dispatchLoop q' (dispatch r (with_requestQueue q' s))
      else with_isProcessingQueue false s
  end.

(** The loop after its [await]: [requestQueue.shift()] and on. *)
Definition queueWake (s : State) : State :=
  match requestQueue s with
  | r :: q' => dispatchLoop q' (dispatch r (with_requestQueue q' s))
  | [] => s
  end.

Definition processRequestQueue (s : State) : State :=
  if isProcessingQueue s || bool_decide (requestQueue s = []) then s
  else
    let now := clock s / 1000 in
    if (0 <? rateLimitResetTime s) && (now <? rateLimitResetTime s) then
      let waitTime := (rateLimitResetTime s - now) * 1000 in
      setTimeout T_processRequestQueue (Z.min waitTime 60000) s
    else
      let s := if 0 <? rateLimitResetTime s then with_rateLimitResetTime 0 s else s in
      let s := with_isProcessingQueue true s in
      dispatchLoop (requestQueue s) s.

Inductive Lookup :=
| Cached (location : string)
| Queued.

Definition getUserLocation (name : string) (w : Annotation) (s : State)
    : Lookup * State :=
  let enqueue s :=
    (Queued,
     processRequestQueue
       (with_requestQueue
          (requestQueue s ++ [{| q_screenName := name; q_waiter := w |}]) s)) in
  match locationCache s !! name with
  | Some (Some cached) => (Cached cached, s)
  | Some None => enqueue (with_locationCache (delete name (locationCache s)) s)
  | None => enqueue s
  end.

(** *** Finding user names in the page *)

Definition selUserName (n : Node) : bool :=
  attrIs "data-testid" "UserName" n || attrIs "data-testid" "User-Name" n.

(** [a[href^="/"]] *)
Definition selRelativeLink (n : Node) : bool :=
  tagIs "a" n &&
  match getAttribute "href" n with
  | Some href => Str.startsWith href "/"
  | None => false
  end.

(** A character that stands for itself between the double quotes of a
    selector: not the quote, the backslash, a line break (LF, FF, CR) or
    NUL. *)
Definition plainChar (c : ascii) : bool :=
  let n := nat_of_ascii c in
  negb ((n =? 34) || (n =? 92) || (n =? 10) || (n =? 12) || (n =? 13) || (n =? 0))%nat.

Fixpoint quotable (name : string) : bool :=
  match name with
  | EmptyString => true
  | String c rest => plainChar c && quotable rest
  end.

(** [div.querySelector(`a[href="/${screenName}"]`)], the selector first.
    For a handle of plain characters the text is the attribute selector for
    the value [/screenName].  With a double quote or a line break in the
    handle the text is no selector, and [querySelector] raises SyntaxError.
    A backslash starts an escape and NUL is replaced; the model has neither
    and takes the selector as refused there too, as it does for a handle
    that is made to close the quote and go on as a selector. *)
Definition selProfileLink (name : string) : Completion (Node -> bool) :=
  if quotable name
  then Normal (fun n => tagIs "a" n && attrIs "href" ("/" ++ name) n)
  else Throw.

Definition selContainer (n : Node) : bool :=
  (tagIs "article" n && attrIs "data-testid" "tweet" n)
  || attrIs "data-testid" "UserCell" n
  || attrIs "data-testid" "User-Names" n
  || attrIs "data-testid" "User-Name" n.

Definition excludedRoutes : list string :=
  ["home"; "explore"; "notifications"; "messages"; "i"; "compose"; "search";
   "settings"; "bookmarks"; "lists"; "communities"].

Definition excludedRoutesFallback : list string := excludedRoutes ++ ["hashtag"].

(** The first loop of [extractUsername], over the links of the user-name
    element. *)
Fixpoint primaryLoop (links : list Node) : option string :=
  match links with
  | [] => None
  | link :: rest =>
      match getAttribute "href" link ≫= Str.firstSegment with
      | Some username =>
          if negb (Str.elem username excludedRoutes)
             && negb (Str.startsWith username "hashtag")
             && negb (Str.startsWith username "search")
             && (0 <? String.length username)%nat
             && (String.length username <? 20)%nat
          then Some username
          else primaryLoop rest
      | None => primaryLoop rest
      end
  end.

(** The fallback loop, with its set of names already seen. *)
Fixpoint fallbackLoop (seenUsernames : list string) (links : list Node)
    : option string :=
  match links with
  | [] => None
  | link :: rest =>
      match getAttribute "href" link ≫= Str.firstSegment with
      | Some potentialUsername =>
          if Str.elem potentialUsername seenUsernames
          then fallbackLoop seenUsernames rest
          else
            let seen := potentialUsername :: seenUsernames in
            if existsb (fun route => Str.eqb potentialUsername route
                                     || Str.startsWith potentialUsername route)
                 excludedRoutesFallback
            then fallbackLoop seen rest
            else if Str.includes potentialUsername "status"
                    || Str.isNumeric potentialUsername
            then fallbackLoop seen rest
            else
              let text := Str.trim (textContent link) in
              if Str.startsWith text "@"
                 || Str.eqb (Str.toLowerCase text)
                            ("@" ++ Str.toLowerCase potentialUsername)
              then Some potentialUsername
              else fallbackLoop seen rest
      | None => fallbackLoop seenUsernames rest
      end
  end.

Definition extractUsername (element : Node) : option string :=
  let primary :=
    match querySelector selUserName element with
    | Some usernameElement =>
        primaryLoop (querySelectorAll selRelativeLink usernameElement)
    | None => None
    end in
  match primary with
  | Some username => Some username
  | None => fallbackLoop [] (querySelectorAll selRelativeLink element)
  end.

Definition isHandleSection (sel : Node -> bool) (name : string) (div : Node) : bool :=
  match querySelector sel div with
  | Some link => Str.eqb (Str.trim (textContent link)) ("@" ++ name)
  | None => false
  end.

(** The callback of [find] runs for the first [div], if there is one, and
    raises there when the selector is refused. *)
Definition findHandleSection (container : Node) (name : string)
    : Completion (option Node) :=
  match querySelectorAll (tagIs "div") container with
  | [] => Normal None
  | divs =>
      match selProfileLink name with
      | Normal sel => Normal (List.find (isHandleSection sel name) divs)
      | Throw => Throw
      end
  end.

(** [el.querySelector('[data-testid="UserName"], [data-testid="User-Name"]')] *)
Definition userNameContainerOf (el : nat) (doc : list Node) : option nat :=
  match getNode el doc with
  | Some e =>
      match querySelector selUserName e with
      | Some c => nodeId c
      | None => None
      end
  | None => None
  end.

(** [findHandleSection] on the element a reference points to. *)
Definition handleSectionOf (container : nat) (name : string) (doc : list Node)
    : Completion (option nat) :=
  match getNode container doc with
  | Some c =>
      match findHandleSection c name with
      | Normal (Some div) => Normal (nodeId div)
      | Normal None => Normal None
      | Throw => Throw
      end
  | None => Normal None
  end.

(** *** Decorating a user name *)

Definition flagAdded (el : nat) (s : State) : option string :=
  getNode el (document s) ≫= getAttribute FLAG_ADDED.

Definition flagAddedIs (el : nat) (v : string) (s : State) : bool :=
  match flagAdded el s with
  | Some v' => Str.eqb v' v
  | None => false
  end.

(** The element is in the document: its [parentNode] is not null. *)
Definition attached (i : nat) (doc : list Node) : bool :=
  match getNode i doc with
  | Some _ => true
  | None => false
  end.

(** [el.dataset.flagAdded = v] *)
Definition setFlagAdded (el : nat) (v : string) (s : State) : State :=
  with_document (setAttribute el FLAG_ADDED v (document s)) s.

Definition shimmerStyle : string :=
  "display: inline-block; width: 20px; height: 16px; margin: 0 4px; vertical-align: middle; border-radius: 2px; background: linear-gradient(90deg, rgba(113, 118, 123, 0.2) 25%, rgba(113, 118, 123, 0.4) 50%, rgba(113, 118, 123, 0.2) 75%); background-size: 200% 100%; animation: shimmer 1.5s infinite;".

Definition shimmerKeyframes : string :=
  "@keyframes shimmer { 0% { background-position: -200% 0; } 100% { background-position: 200% 0; } }".

Definition flagStyle : string :=
  "margin: 0 4px; display: inline; color: inherit; vertical-align: middle;".

Definition shimmerNode (i : nat) : Node :=
  Element i "span" [(SHIMMER, "true"); ("style", shimmerStyle)] [].

Definition flagNode (i : nat) (flag : string) : Node :=
  Element i "span" [(FLAG, "true"); ("style", flagStyle)] [TextNode (" " ++ flag)].

(** [document.documentElement]: the element among the children of the
    document. *)
Definition documentElement (doc : list Node) : option Node :=
  List.find (fun n => match nodeId n with Some _ => true | None => false end) doc.

(** [document.head]: the first [head] among the children of the document
    element, when that is an [html] element; [null] otherwise. *)
Definition documentHead (doc : list Node) : option nat :=
  match documentElement doc with
  | Some html =>
      if tagIs "html" html
      then List.find (tagIs "head") (childNodes html) ≫= nodeId
      else None
  | None => None
  end.

(** Creates the shimmer (returned by its identity) and, once, the style
    sheet of its animation in [document.head]; [document.head.appendChild]
    raises TypeError when the document has no [head]. *)
Definition createLoadingShimmer (s : State) : Completion nat * State :=
  let shimmer := nextNode s in
  let s := with_nextNode (S shimmer) s in
  if existsb (attrIs "id" "twitter-flag-shimmer-style") (allNodes (document s))
  then (Normal shimmer, s)
  else
    let style := Element (nextNode s) "style" [("id", "twitter-flag-shimmer-style")]
                   [TextNode shimmerKeyframes] in
    let s := with_nextNode (S (nextNode s)) s in
    match documentHead (document s) with
    | Some head => (Normal shimmer, with_document (appendChild head style (document s)) s)
    | None => (Throw, s)
    end.

(** Lines 320-334: where the shimmer goes.  The [try] is around
    [insertBefore] only: a raise of [findHandleSection] goes out. *)
Definition insertShimmer (container : nat) (name : string) (shimmer : nat)
    (s : State) : Completion State :=
  let doc := document s in
  let append := appendChild container (shimmerNode shimmer) doc in
  match handleSectionOf container name doc with
  | Normal (Some hs) =>
      match parentNode hs doc with
      | Some parent =>
          match insertBefore parent (shimmerNode shimmer) hs doc with
          | Some doc' => Normal (with_document doc' s)
          | None => Normal (with_document append s)
          end
      | None => Normal (with_document append s)
      end
  | Normal None => Normal (with_document append s)
  | Throw => Throw
  end.

(** [addFlagToUsername] up to its [await]: the 500 ms wait of a duplicate,
    or the lookup of the location.  Lines 313-334 are before the [try]: when
    [createLoadingShimmer] or [findHandleSection] raises there, the call
    ends ([Raised]: its promise is rejected) with the element in state
    'processing' and the handle in [processingUsernames]. *)
Definition addFlagToUsername (el : nat) (name : string) (s : State)
    : Exit * State :=
  if flagAddedIs el "true" s then (Returned, s)
  else if bool_decide (name ∈ processingUsernames s)
  then (Returned, setTimeout (T_waiting el) 500 s)
  else
    let s := setFlagAdded el "processing" s in
    let s := with_processingUsernames (({[name]} : gset string) ∪ processingUsernames s) s in
    let container := userNameContainerOf el (document s) in
    match createLoadingShimmer s with
    | (Throw, s) => (Raised, s)
    | (Normal shimmer, s) =>
        let inserted := match container with
                        | Some c => insertShimmer c name shimmer s
                        | None => Normal s
                        end in
        match inserted with
        | Throw => (Raised, s)
        | Normal s =>
            let w := {| usernameElement := el; screenName := name;
                        userNameContainer := container; shimmerSpan := shimmer;
                        shimmerInserted :=
                          match container with Some _ => true | None => false end |} in
            match getUserLocation name w s with
            | (Cached location, s) =>
                (Returned, enqueueJob (J_resume w (Fulfilled (Some location))) s)
            | (Queued, s) => (Returned, s)
            end
        end
    end.

(** The duplicate's branch after its 500 ms. *)
Definition waitingWake (el : nat) (s : State) : State :=
  if flagAddedIs el "true" s then s else setFlagAdded el "waiting" s.

(** [if (shimmerInserted && shimmerSpan.parentNode) shimmerSpan.remove()] *)
Definition removeShimmer (w : Annotation) (s : State) : State :=
  if shimmerInserted w && attached (shimmerSpan w) (document s)
  then with_document (remove (shimmerSpan w) (document s)) s
  else s.

(** Lines 368-380: where the flag goes; [None] when a DOM call raises. *)
Definition insertFlag (container : nat) (name : string) (flagSpan : Node)
    (doc : list Node) : option (list Node) :=
  match handleSectionOf container name doc with
  | Normal (Some hs) =>
      match parentNode hs doc with
      | Some parent =>
          if Nat.eqb parent container then insertBefore container flagSpan hs doc
          else match parentNode parent doc with
               | Some grandparent => insertBefore grandparent flagSpan parent doc
               | None => None
               end
      | None => Some (appendChild container flagSpan doc)
      end
  | Normal None => Some (appendChild container flagSpan doc)
  | Throw => None
  end.

(** Lines 384-389: the containers left waiting are driven again; the
    [.catch(() => {})] drops a rejection. *)
Definition redriveWaiting (name : string) (s : State) : State :=
  let waitingContainers :=
    elementIds (documentQuery (attrIs FLAG_ADDED "waiting") (document s)) in
  fold_left
    (fun s c =>
       match getNode c (document s) with
       | Some container =>
           if bool_decide (extractUsername container = Some name)
           then snd (addFlagToUsername c name s)
           else s
       | None => s
       end)
    waitingContainers s.

Section Annotator.

(** [getCountryFlag] is defined in another file of the extension: it maps
    a location to a flag glyph, or to nothing. *)
Variable getCountryFlag : string -> Completion (option string).

(** The [try] block after [await getUserLocation(screenName)]. *)
Definition tryBlock (w : Annotation) (location : option string) (s : State)
    : Exit * State :=
  let el := usernameElement w in
  let s := removeShimmer w s in
  match Str.orNull location with
  | None => (Returned, setFlagAdded el "failed" s)
  | Some location =>
      match getCountryFlag location with
      | Throw => (Raised, s)
      | Normal flag =>
          match Str.orNull flag with
          | None => (Returned, setFlagAdded el "failed" s)
          | Some flag =>
              match getNode el (document s) ≫= querySelector (hasAttr FLAG) with
              | Some _ => (Returned, setFlagAdded el "true" s)
              | None =>
                  let flagSpan := flagNode (nextNode s) flag in
                  let s := with_nextNode (S (nextNode s)) s in
                  let containerForFlag :=
                    match userNameContainer w with
                    | Some c => Some c
                    | None => userNameContainerOf el (document s)
                    end in
                  match containerForFlag with
                  | None => (Returned, setFlagAdded el "failed" s)
                  | Some c =>
                      match insertFlag c (screenName w) flagSpan (document s) with
                      | Some doc' =>
                          let s := with_document doc' s in
                          let s := setFlagAdded el "true" s in
                          (Returned, redriveWaiting (screenName w) s)
                      | None => (Raised, s)
                      end
                  end
              end
          end
      end
  end.

Definition catchBlock (w : Annotation) (s : State) : State :=
  setFlagAdded (usernameElement w) "failed" (removeShimmer w s).

Definition finallyBlock (w : Annotation) (s : State) : State :=
  with_processingUsernames (processingUsernames s ∖ ({[screenName w]} : gset string)) s.

(** [addFlagToUsername] from its [await] on. *)
Definition resume (w : Annotation) (r : Settlement) (s : State) : State :=
  let s :=
    match r with
    | Fulfilled location =>
        match tryBlock w location s with
        | (Returned, s) => s
        | (Raised, s) => catchBlock w s
        end
    | Rejected => catchBlock w s
    end in
  finallyBlock w s.

(** *** Scanning and clearing *)

(** [addFlagToUsername(container, screenName).catch(err => { .. })]: the
    handler is a job when the call raised. *)
Definition startAnnotation (c : nat) (name : string) (s : State) : State :=
  match addFlagToUsername c name s with
  | (Returned, s) => s
  | (Raised, s) => enqueueJob (J_failed c) s
  end.

Definition scanContainer (s : State) (c : nat) : State :=
  match getNode c (document s) with
  | Some container =>
      match extractUsername container with
      | Some name =>
          match Str.orNull (getAttribute FLAG_ADDED container) with
          | None => startAnnotation c name s
          | Some status =>
              if Str.eqb status "failed" then startAnnotation c name s else s
          end
      | None => s
      end
  | None => s
  end.

Definition processUsernames (s : State) : State :=
  if negb (extensionEnabled s) then s
  else fold_left scanContainer
         (elementIds (documentQuery selContainer (document s))) s.

Definition removeMatching (sel : Node -> bool) (doc : list Node) : list Node :=
  fold_left (fun d i => remove i d) (elementIds (documentQuery sel doc)) doc.

Definition removeAllFlags (s : State) : State :=
  let doc := removeMatching (hasAttr FLAG) (document s) in
  let doc := removeMatching (hasAttr SHIMMER) doc in
  let doc := fold_left (fun d i => removeAttribute i FLAG_ADDED d)
               (elementIds (documentQuery (hasAttr FLAG_ADDED) doc)) doc in
  with_document doc s.

(** *** The event loop *)

Definition runTask (t : Task) (s : State) : State :=
  match t with
  | T_processUsernames => processUsernames s
  | T_processRequestQueue => processRequestQueue s
  | T_queueWake => queueWake s
  | T_bridgeTimeout rid => bridgeTimeout rid s
  | T_waiting el => waitingWake el s
  | T_saveCacheTimeout => saveCacheCallback s
  | T_saveCacheWritten => with_saveCacheTimeout false s
  | T_saveCacheInterval =>
      saveCache (with_timers (timers s ++ [(clock s + 30000, T_saveCacheInterval)]) s)
  end.

Definition runJob (j : Job) (s : State) : State :=
  match j with
  | J_then w v => enqueueJob J_catch (enqueueJob (J_resume w (Fulfilled v)) s)
  | J_catch => enqueueJob J_finally s
  | J_finally =>
      setTimeout T_processRequestQueue 200
        (with_activeRequests (activeRequests s - 1) s)
  | J_resume w r => resume w r s
  | J_failed c => setFlagAdded c "failed" s
  end.

Definition onWindowMessage (data : MessageData) (s : State) : State :=
  let s := if observing s then rateLimitListener data s else s in
  fold_left (fun s r => handler r data s) (listeners s) s.

Definition onExtensionToggle (enabled : bool) (s : State) : State :=
  let s := with_extensionEnabled enabled s in
  if enabled then setTimeout T_processUsernames 500 s else removeAllFlags s.

Definition onMutation (doc : list Node) (added urlChanged : bool) (s : State)
    : State :=
  let s := with_document doc s in
  let s := with_nextNode (Nat.max (nextNode s) (S (maxId doc))) s in
  if observing s then
    let s := if extensionEnabled s && added
             then setTimeout T_processUsernames 500 s else s in
    if urlChanged then setTimeout T_processUsernames 2000 s else s
  else s.

Definition idle (s : State) : bool := bool_decide (jobs s = []).

Definition step (s : State) (e : Event) : State :=
  match e with
  | Advance dt => if dt <? 0 then s else with_clock (clock s + dt) s
  | RunJob =>
      match jobs s with
      | j :: rest => runJob j (with_jobs rest s)
      | [] => s
      end
  | Fire i =>
      if idle s then
        match timers s !! i with
        | Some (due, t) =>
            if due <=? clock s then runTask t (with_timers (delete i (timers s)) s)
            else s
        | None => s
        end
      else s
  | WindowMessage data => if idle s then onWindowMessage data s else s
  | ExtensionToggle enabled => if idle s then onExtensionToggle enabled s else s
  | Mutation doc added urlChanged =>
      if idle s then onMutation doc added urlChanged s else s
  | ContextInvalidated => if idle s then with_runtimeValid false s else s
  end.

Definition run (s : State) (trace : list Event) : State := fold_left step trace s.

(** [init]: the state when the script has loaded the toggle and the cache. *)
Definition init (doc : list Node) (now : Z) (toggle : option bool)
    (stored : option (gmap string CacheEntry)) (valid : bool) : State :=
  let enabled := match toggle with Some b => b | None => DEFAULT_ENABLED end in
  let s := loadCache
    {| locationCache := ∅; requestQueue := []; isProcessingQueue := false;
       lastRequestTime := 0; activeRequests := 0; rateLimitResetTime := 0;
       extensionEnabled := enabled; processingUsernames := ∅;
       saveCacheTimeout := false; observing := false;
       document := doc; nextNode := S (maxId doc); storage := stored;
       runtimeValid := valid; clock := now; timers := []; jobs := [];
       listeners := []; nextRequest := 0; posted := [] |} in
  if negb (extensionEnabled s) then s
  else
    let s := with_observing true s in
    let s := setTimeout T_processUsernames 2000 s in
    with_timers (timers s ++ [(clock s + 30000, T_saveCacheInterval)]) s.

End Annotator.

(** ** A page and a flag table to run the script on *)

Module Scenario.

(** Modelled from the spec: [getCountryFlag] belongs to a file of the
    extension that is not among the sources.  The scenario of the spec's
    section 8 maps the location 'Paris, France' to the France flag glyph;
    this table knows that location only. *)
Definition exampleFlags (location : string) : Completion (option string) :=
  if Str.eqb location "Paris, France" then Normal (Some "🇫🇷") else Normal None.

(** A user cell as the timeline renders it: the display name, then the
    handle, both linking to the profile. *)
Definition userCell (base : nat) (name display : string) : Node :=
  Element base "div" [("data-testid", "UserCell")]
    [Element (base + 1) "div" [("data-testid", "User-Name")]
       [Element (base + 2) "div" []
          [Element (base + 3) "a" [("href", "/" ++ name)] [TextNode display]];
        Element (base + 4) "div" []
          [Element (base + 5) "div" []
             [Element (base + 6) "a" [("href", "/" ++ name)]
                [TextNode ("@" ++ name)]]]]].

Definition pageOf (cells : list Node) : list Node :=
  [Element 1 "html" [] [Element 2 "head" [] []; Element 3 "body" [] cells]].

(** One cell of alice. *)
Definition page1 : list Node := pageOf [userCell 10 "alice" "Alice"].

(** Two cells of alice, as when she has two posts on the timeline. *)
Definition page2 : list Node :=
  pageOf [userCell 10 "alice" "Alice"; userCell 20 "alice" "Alice"].

Definition t0 : Z := 1700000000000.

(** Time passes. *)
Definition wait (dt : Z) (s : State) : State := step exampleFlags s (Advance dt).

(** The pending timer of task [t] fires. *)
Definition fire (t : Task) (s : State) : State :=
  match list_find (fun x => snd x = t) (timers s) with
  | Some (i, _) => step exampleFlags s (Fire i)
  | None => s
  end.

(** The mutation observers are called for nodes that were added. *)
Definition observe (s : State) : State :=
  step exampleFlags s (Mutation (document s) true false).

(** A message of the page script arrives, and the promise jobs run. *)
Definition receive (data : MessageData) (s : State) : State :=
  run exampleFlags s [WindowMessage data; RunJob; RunJob; RunJob; RunJob].

(** The script starts on an empty cache and scans after its 2 s; the
    observer sees the shimmer and asks for another scan. *)
Definition scanned (page : list Node) : State :=
  observe (fire T_processUsernames (wait 2000 (init page t0 None None true))).

(** 500 ms later a second cell of alice, if there is one, is through its
    wait, and the scan the observer asked for runs.  After 300 ms more, the
    page script answers request 0. *)
Definition answered (page : list Node) (loc : option string) (limited : bool)
    : State :=
  receive (LocationResponse "alice" 0 loc limited)
    (wait 300 (fire T_processUsernames (fire (T_waiting 20) (wait 500 (scanned page))))).

(** Alice has no location: the answer carries null. *)
Definition noLocation : State := answered page1 None false.

(** Nothing else happens until the 5 s timer of [saveCacheEntry] fires. *)
Definition savedNull : State := fire T_saveCacheTimeout (wait 5000 noLocation).

(** Or: 3 s later the page adds nodes, and the scan that follows 500 ms
    after finds the cell in state 'failed'. *)
Definition rescanned : State :=
  fire T_processUsernames (wait 500 (observe (wait 3000 noLocation))).

(** Two cells of alice.  The answer carries a location; the observer sees
    the flag; 500 ms later the second cell, driven again by the first, is
    through its wait, and the scan the observer asked for runs. *)
Definition duplicate : State :=
  fire T_processUsernames
    (fire (T_waiting 20)
       (wait 500 (observe (answered page2 (Some "Paris, France") false)))).

(** The page adds nodes 3 s later and is scanned once more. *)
Definition duplicateRescanned : State :=
  fire T_processUsernames (wait 500 (observe (wait 3000 duplicate))).

(** A cell of the handle [__proto__].  The page script answers its request
    with a location 800 ms later, and the promise jobs run. *)
Definition protoPage : list Node := pageOf [userCell 10 "__proto__" "Proto"].

Definition protoCached : State :=
  receive (LocationResponse "__proto__" 0 (Some "Paris, France") false)
    (wait 800 (scanned protoPage)).

(** Nothing else happens until the 5 s timer of [saveCacheEntry] fires. *)
Definition protoSaved : State := fire T_saveCacheTimeout (wait 5000 protoCached).

(** The handle a, double quote, b: its profile link is the path of these
    three characters. *)
Definition quoted : string := String "a" (String "034" "b").

(** A cell of that handle.  The script starts, scans after its 2 s, and the
    job that the scan left runs. *)
Definition quotedPage : list Node := pageOf [userCell 10 quoted "Ab"].

Definition quotedScanned : State :=
  run exampleFlags (init quotedPage t0 None None true) [Advance 2000; Fire 0; RunJob].

(** A cell of alice in a document that has lost its [head]. *)
Definition headlessPage : list Node :=
  [Element 1 "html" [] [Element 3 "body" [] [userCell 10 "alice" "Alice"]]].

Definition headlessScanned : State :=
  run exampleFlags (init headlessPage t0 None None true) [Advance 2000; Fire 0; RunJob].

(** The page adds nodes 3 s later; the scan that follows finds the cell in
    state 'failed', and its 500 ms wait ends. *)
Definition scannedAgain (s : State) : State :=
  fire (T_waiting 10) (wait 500 (fire T_processUsernames (wait 500 (observe (wait 3000 s))))).

(** The flags inside an element. *)
Definition flagsIn (el : nat) (s : State) : list Node :=
  match getNode el (document s) with
  | Some n => querySelectorAll (hasAttr FLAG) n
  | None => []
  end.

(** A session that starts with alice in the stored cache. *)
Definition warm : State :=
  init page1 t0 None
    (Some {[ "alice" := {| location := Some "Paris, France";
                           expiry := t0 + 1000; cachedAt := t0 - 5 |} ]})
    true.

Definition someWaiter : Annotation :=
  {| usernameElement := 10; screenName := "alice"; userNameContainer := Some 11%nat;
     shimmerSpan := 17; shimmerInserted := true |}.

End Scenario.

(** ** Properties of states *)

(** The decorations of the script: flags and shimmers. *)
Definition marker (n : Node) : bool := hasAttr FLAG n || hasAttr SHIMMER n.

(** The document without its decorations and without the state attribute. *)
Definition stripped (doc : list Node) : list Node :=
  mapAttrs (fun _ a => dropAttr FLAG_ADDED a) (prune marker doc).

(** Elements have distinct identities. *)
Definition distinctIds (doc : list Node) : Prop :=
  NoDup (elementIds (allNodes doc)).

Definition THIRTY_DAYS : Z := 2592000000.

(** A request as the queue or the bridge holds it. *)
Definition requested (name : string) (w : Annotation) (s : State) : Prop :=
  In {| q_screenName := name; q_waiter := w |} (requestQueue s)
  \/ exists rid, In {| requestId := rid; b_screenName := name; b_waiter := w |}
                    (listeners s).

(** A predicate that looks at the element only, not below it. *)
Definition shallow (p : Node -> bool) : Prop :=
  forall i t a ks ks', p (Element i t a ks) = p (Element i t a ks').

(** *** The request queue *)

Definition isWake (x : Z * Task) : bool :=
  match snd x with
  | T_queueWake => true
  | _ => false
  end.

(** The pending [await]s of the dispatch loop. *)
Definition wakes (s : State) : list (Z * Task) := List.filter isWake (timers s).

Definition isCompletion (j : Job) : bool :=
  match j with
  | J_then _ _ | J_catch | J_finally => true
  | J_resume _ _ | J_failed _ => false
  end.

(** Requests whose promise is settled and whose [finally] has not run. *)
Definition completing (s : State) : nat :=
  length (List.filter isCompletion (jobs s)).

(** Consecutive '__fetchLocation' messages (newest first) are at least
    [MIN_REQUEST_INTERVAL] apart. *)
Fixpoint spaced (l : list (Z * nat * string)) : Prop :=
  match l with
  | [] => True
  | (t2, _, _) :: rest =>
      match rest with
      | [] => True
      | (t1, _, _) :: _ => t1 + MIN_REQUEST_INTERVAL <= t2
      end /\ spaced rest
  end.

Record QueueInv (s : State) : Prop := {
  q_count : activeRequests s = Z.of_nat (length (listeners s) + completing s);
  q_bound : activeRequests s <= MAX_CONCURRENT_REQUESTS;
  q_wake :
    match wakes s with
    | [] => isProcessingQueue s = false
    | [(due, _)] =>
        isProcessingQueue s = true
        /\ activeRequests s < MAX_CONCURRENT_REQUESTS
        /\ requestQueue s <> []
        /\ lastRequestTime s + MIN_REQUEST_INTERVAL <= due
    | _ => False
    end;
  q_spaced : spaced (posted s);
  q_last :
    match posted s with
    | [] => True
    | (t, _, _) :: _ => t = lastRequestTime s /\ t <= clock s
    end
}.

(** *** The bridge *)

Record BridgeInv (s : State) : Prop := {
  b_distinct : NoDup (List.map requestId (listeners s));
  b_fresh : forall r, In r (listeners s) -> (requestId r < nextRequest s)%nat;
  b_timer : forall r, In r (listeners s) ->
    exists t, In (t + 10000, T_bridgeTimeout (requestId r)) (timers s)
              /\ In (t, requestId r, b_screenName r) (posted s)
}.

(** *** Annotations awaiting their location *)

Definition jobWaiters (j : Job) : list Annotation :=
  match j with
  | J_then w _ => [w]
  | J_resume w _ => [w]
  | _ => []
  end.

Definition waiters (s : State) : list Annotation :=
  List.map q_waiter (requestQueue s)
  ++ List.map b_waiter (listeners s)
  ++ flat_map jobWaiters (jobs s).

(** The handles of the annotations that wait. *)
Definition inFlight (s : State) : list string := List.map screenName (waiters s).

(** The handles that wait are in the in-flight set, each once; [extra]
    are the handles of annotations that are running. *)
Record AnnotInv (extra : list string) (s : State) : Prop := {
  a_distinct : NoDup (extra ++ inFlight s);
  a_set : forall h, h ∈ (extra ++ inFlight s)%list -> h ∈ processingUsernames s
}.

(** The handle is in the in-flight set and no annotation of it waits. *)
Definition leaked (h : string) (s : State) : Prop :=
  h ∈ processingUsernames s /\ ~ In h (inFlight s).

Definition Inv (extra : list string) (s : State) : Prop :=
  QueueInv s /\ BridgeInv s /\ AnnotInv extra s.

(** Only the page differs. *)
Definition pageOnly (s s' : State) : Prop :=
  exists doc n, s' = with_nextNode n (with_document doc s).

(** An element is in state 'processing' for a handle: it carries the state
    and an annotation of it for that handle waits. *)
Definition processingFor (s : State) (h : string) (el : nat) : Prop :=
  flagAdded el s = Some "processing"
  /\ exists w, In w (waiters s) /\ usernameElement w = el /\ screenName w = h.

(** Nothing the queue, the bridge or the in-flight set depend on differs,
    but for timers that were added. *)
Record quiet (s s' : State) : Prop := {
  qt_queue : requestQueue s' = requestQueue s;
  qt_processing : isProcessingQueue s' = isProcessingQueue s;
  qt_last : lastRequestTime s' = lastRequestTime s;
  qt_active : activeRequests s' = activeRequests s;
  qt_names : processingUsernames s' = processingUsernames s;
  qt_clock : clock s' = clock s;
  qt_jobs : jobs s' = jobs s;
  qt_listeners : listeners s' = listeners s;
  qt_next : nextRequest s' = nextRequest s;
  qt_posted : posted s' = posted s;
  qt_wakes : wakes s' = wakes s;
  qt_timers : forall x, In x (timers s) -> In x (timers s')
}.

(** *** Settling a request *)

(** The listeners but the one of request [rid]. *)
Definition others (rid : nat) (ls : list BridgeRequest) : list BridgeRequest :=
  List.filter (fun r => negb (Nat.eqb (requestId r) rid)) ls.

(** The promise of request [r] is resolved with [v]. *)
Definition settled (r : BridgeRequest) (v : option string) (s : State) : State :=
  enqueueJob (J_then (b_waiter r) v) (removeListener (requestId r) s).

(** The message is the answer to request [r]. *)
Definition matches (data : MessageData) (r : BridgeRequest) : bool :=
  match data with
  | LocationResponse name rid _ _ =>
      Str.eqb name (b_screenName r) && Nat.eqb rid (requestId r)
  | _ => false
  end.


(** ** More properties, of the parts no claim is about *)

(** A name without a slash and without a question mark. *)
Definition plain (s : string) : Prop :=
  Str.includes s "/" = false /\ Str.includes s "?" = false.

(** More pages to run the script on. *)
Module Cases.

(** The user-name element of a cell; the scan takes it as a container of
    its own. *)
Definition userNameOf (cell : Node) : Node :=
  match querySelector selUserName cell with
  | Some u => u
  | None => cell
  end.

Definition aliceName : Node := userNameOf (Scenario.userCell 10 "alice" "Alice").

(** A user-name element with the link of the handle only. *)
Definition handleLink (base : nat) (name : string) : Node :=
  Element base "div" [("data-testid", "User-Name")]
    [Element (base + 1) "a" [("href", "/" ++ name)] [TextNode ("@" ++ name)]].

Definition handleOnly : Node := handleLink 30 "alice".

End Cases.

(** *** The timer of [saveCacheEntry] *)

Definition isSave (x : Z * Task) : bool :=
  match snd x with
  | T_saveCacheTimeout | T_saveCacheWritten => true
  | _ => false
  end.

(** The pending 5 s timers of [saveCacheEntry], and the writes that their
    callbacks await. *)
Definition saves (s : State) : list (Z * Task) := List.filter isSave (timers s).

(** [saveCache.timeout] is set exactly while one of these is pending, the
    timer due within 5 s. *)
Definition SaveInv (s : State) : Prop :=
  match saves s with
  | [] => saveCacheTimeout s = false
  | [(due, _)] => saveCacheTimeout s = true /\ due <= clock s + 5000
  | _ => False
  end.

(** *** What a piece of the script leaves alone *)

(** The cache holds nothing that it did not hold before. *)
Definition noNewEntry (s s' : State) : Prop :=
  forall name loc,
    locationCache s' !! name = Some loc -> locationCache s !! name = Some loc.

(** A listener is one of before or belongs to a request made since. *)
Definition noOldListener (s s' : State) : Prop :=
  forall r, In r (listeners s') ->
            In r (listeners s) \/ (nextRequest s <= requestId r)%nat.

(** The code that neither saves nor handles a message: it leaves the
    storage, the save timer, the clock and the switches alone, adds no
    entry to the cache, and removes no listener. *)
Record steady (s s' : State) : Prop := {
  st_observing : observing s' = observing s;
  st_enabled : extensionEnabled s' = extensionEnabled s;
  st_valid : runtimeValid s' = runtimeValid s;
  st_storage : storage s' = storage s;
  st_clock : clock s' = clock s;
  st_flag : saveCacheTimeout s' = saveCacheTimeout s;
  st_saves : saves s' = saves s;
  st_cache : noNewEntry s s';
  st_next : (nextRequest s <= nextRequest s')%nat;
  st_listeners : noOldListener s s'
}.

(** What every step keeps: whether the page is observed, and the order of
    the request identifiers. *)
Record evolves (s s' : State) : Prop := {
  ev_observing : observing s' = observing s;
  ev_next : (nextRequest s <= nextRequest s')%nat;
  ev_listeners : noOldListener s s'
}.

(** Nothing is written: not to the storage, and no entry to the cache. *)
Record frozen (s s' : State) : Prop := {
  fr_valid : runtimeValid s' = runtimeValid s;
  fr_storage : storage s' = storage s;
  fr_cache : noNewEntry s s'
}.

(** *** The tree of the document *)

(** Two nodes of [l] with a child of the same identity are one node. *)
Definition oneParent (l : list Node) : Prop :=
  forall p q k1 k2 i,
    In p l -> In q l -> In k1 (childNodes p) -> In k2 (childNodes q) ->
    nodeId k1 = Some i -> nodeId k2 = Some i -> p = q.

(** What [appendChild] and [insertBefore] do to the element they are
    called on: it keeps its identity and its children, and gets [new]. *)
Definition keepsId (f : Node -> Node) : Prop :=
  forall n, nodeId (f n) = nodeId n.

Definition keepsChildren (f : Node -> Node) : Prop :=
  forall n k, In k (childNodes n) -> In k (childNodes (f n)).

Definition addsOnly (new : Node) (f : Node -> Node) : Prop :=
  forall n k, In k (childNodes (f n)) -> In k (childNodes n) \/ k = new.

(** *** What drives the request queue *)

Definition isDrive (x : Z * Task) : bool :=
  match snd x with
  | T_queueWake => true
  | T_processRequestQueue => true
  | _ => false
  end.

(** The queue is empty, or a timer is pending that runs the dispatch loop,
    or a request is active: its [finally] sets such a timer. *)
Definition driven (s : State) : Prop :=
  requestQueue s = []
  \/ (exists x, In x (timers s) /\ isDrive x = true)
  \/ 0 < activeRequests s.

(** The cool-down the page script asked for lasts, and the dispatch loop
    does not wait inside its [await]. *)
Definition cool (s : State) : Prop :=
  isProcessingQueue s = false
  /\ 0 < rateLimitResetTime s
  /\ clock s / 1000 < rateLimitResetTime s.

(** No message is posted and the cool-down is as it was. *)
Record held (s s' : State) : Prop := {
  h_posted : posted s' = posted s;
  h_processing : isProcessingQueue s' = isProcessingQueue s;
  h_reset : rateLimitResetTime s' = rateLimitResetTime s;
  h_clock : clock s' = clock s
}.

Module Runs.

(** Alice and bob, a cell each. *)
Definition page3 : list Node :=
  Scenario.pageOf [Scenario.userCell 10 "alice" "Alice"; Scenario.userCell 20 "bob" "Bob"].

(** The first scan, 2 s after the start. *)
Definition firstScan : list Event := [Advance 2000; Fire 0].

(** Request 0 gets no answer: 10 s later its timer fires, and the jobs that
    follow run. *)
Definition timedOut : State :=
  run Scenario.exampleFlags
    (Scenario.fire (T_bridgeTimeout 0) (Scenario.wait 10000 (Scenario.scanned Scenario.page1)))
    [RunJob; RunJob; RunJob; RunJob].

(** The answer that comes too late. *)
Definition lateAnswer : Event :=
  WindowMessage (LocationResponse "alice" 0 (Some "Paris, France") false).

(** The page script reports a rate limit that lasts for 15 minutes; then
    the script's first scan is due. *)
Definition limited : list Event :=
  [WindowMessage (RateLimitInfo 1700000900 900000); Advance 2000].

(** The answer to request 0 came with a location, and the job that
    resolves the promise ran: the annotation of alice is next. *)
Definition answeredAlice : State :=
  run Scenario.exampleFlags (Scenario.wait 800 (Scenario.scanned Scenario.page1))
    [WindowMessage (LocationResponse "alice" 0 (Some "Paris, France") false); RunJob].

(** The extension is reloaded while request 0 waits. *)
Definition orphaned : State :=
  step Scenario.exampleFlags (Scenario.scanned Scenario.page1) ContextInvalidated.

(** The answer to request 0 comes, the jobs run, and 30 s later the
    interval fires. *)
Definition afterwards : list Event :=
  [Advance 800; WindowMessage (LocationResponse "alice" 0 (Some "Paris, France") false);
   RunJob; RunJob; RunJob; RunJob; Advance 30000; Fire 0].

(** Alice and bob.  Both requests are posted, 2 s apart; the answer for
    alice comes and is cached; 5 s later the timer of [saveCacheEntry]
    fires and its callback awaits the write.  Then the answer for bob
    comes, and after it the write is done. *)
Definition bothPosted : State :=
  Scenario.fire T_queueWake
    (Scenario.wait 2000
       (run Scenario.exampleFlags (init page3 Scenario.t0 None None true) firstScan)).

Definition aliceCached : State :=
  Scenario.receive (LocationResponse "alice" 0 (Some "Paris, France") false) bothPosted.

Definition writing : State :=
  Scenario.fire T_saveCacheTimeout (Scenario.wait 5000 aliceCached).

Definition bobCached : State :=
  Scenario.receive (LocationResponse "bob" 1 (Some "Paris, France") false) writing.

Definition written : State := Scenario.fire T_saveCacheWritten bobCached.

End Runs.

(** *** Requests and their handles *)

(** A request is for the handle of the annotation that waits for it. *)
Definition named (s : State) : Prop :=
  Forall (fun q => q_screenName q = screenName (q_waiter q)) (requestQueue s)
  /\ Forall (fun r => b_screenName r = screenName (b_waiter r)) (listeners s).

(** The handles of the requests in the queue and of those that wait for
    their answer. *)
Definition pendingHandles (s : State) : list string :=
  (List.map q_screenName (requestQueue s) ++ List.map b_screenName (listeners s))%list.

(** * A model of the popup (popup.js)

    The popup shows a switch and a status line.  It reads the flag stored
    under [TOGGLE_KEY] when it opens; a click reads the flag, stores its
    negation, shows it, and tells the content script of the active tab.
    Every step of this waits for a callback of the browser.

    Conventions: the browser answers the calls in the order they were made,
    and a call to the storage takes effect when it is answered; the flag,
    when stored, is a boolean. *)

Module Popup.

(** What the popup shows: the class 'enabled' of the switch, and the text
    and the colour of the status line. *)
Record View := {
  enabledClass : bool;
  statusText : string;
  statusColor : string
}.

(** The calls that wait for their callback. *)
Inductive Call :=
| GetAtOpen                     (* line 9: storage.local.get([TOGGLE_KEY], ..) *)
| GetAtClick                    (* line 15: the same, in the click handler *)
| SetState (newState : bool)    (* line 19: storage.local.set({..: newState}, ..) *)
| QueryTabs (newState : bool).  (* line 22: tabs.query({active, currentWindow}, ..) *)

#[global] Instance Call_eq_dec : EqDecision Call.
Proof. solve_decision. Defined.

Record State := {
  extension_enabled : option bool;  (* the value stored under TOGGLE_KEY *)
  view : View;
  calls : list Call;                (* the calls not yet answered, oldest first *)
  sent : list (nat * bool)          (* 'extensionToggle' messages: tab, enabled *)
}.

(** [result[TOGGLE_KEY] !== undefined ? result[TOGGLE_KEY] : DEFAULT_ENABLED] *)
Definition orDefault (result : option bool) : bool :=
  match result with
  | Some b => b
  | None => DEFAULT_ENABLED
  end.

Definition updateToggle (isEnabled : bool) (v : View) : View :=
  if isEnabled
  then {| enabledClass := true; statusText := "Extension is enabled";
          statusColor := "#1d9bf0" |}
  else {| enabledClass := false; statusText := "Extension is disabled";
          statusColor := "#536471" |}.

Definition call (c : Call) (p : State) : State :=
  {| extension_enabled := extension_enabled p; view := view p;
     calls := calls p ++ [c]; sent := sent p |}.

(** The callback of a call; [activeTab] is [tabs[0]] of the query. *)
Definition callback (activeTab : option nat) (c : Call) (p : State) : State :=
  match c with
  | GetAtOpen =>
      let isEnabled := orDefault (extension_enabled p) in
      {| extension_enabled := extension_enabled p;
         view := updateToggle isEnabled (view p);
         calls := calls p; sent := sent p |}
  | GetAtClick =>
      let currentState := orDefault (extension_enabled p) in
      let newState := negb currentState in
      call (SetState newState) p
  | SetState newState =>
      call (QueryTabs newState)
        {| extension_enabled := Some newState;
           view := updateToggle newState (view p);
           calls := calls p; sent := sent p |}
  | QueryTabs newState =>
      match activeTab with
      | Some tab =>
          {| extension_enabled := extension_enabled p; view := view p;
             calls := calls p; sent := sent p ++ [(tab, newState)] |}
      | None => p
      end
  end.

Inductive Event :=
| Click                          (* the switch is clicked *)
| Answer (activeTab : option nat).  (* the browser answers the oldest call *)

Definition step (p : State) (e : Event) : State :=
  match e with
  | Click => call GetAtClick p
  | Answer activeTab =>
      match calls p with
      | c :: rest =>
          callback activeTab c
            {| extension_enabled := extension_enabled p; view := view p;
               calls := rest; sent := sent p |}
      | [] => p
      end
  end.

Definition run (p : State) (trace : list Event) : State := fold_left step trace p.

(** The popup when its script has run: the page as it is in the HTML, and
    the first read on its way. *)
Definition opened (html : View) (stored : option bool) : State :=
  {| extension_enabled := stored; view := html; calls := [GetAtOpen]; sent := [] |}.

(** The popup shows the flag that is stored. *)
Definition shows (p : State) : Prop :=
  view p = updateToggle (orDefault (extension_enabled p)) (view p).

(** The read made at the opening is the oldest call, or it was answered
    and the popup shows the flag that is stored. *)
Definition settled (p : State) : Prop :=
  (exists rest, calls p = GetAtOpen :: rest /\ ~ In GetAtOpen rest)
  \/ (~ In GetAtOpen (calls p) /\ shows p).

(** One click and its three answers. *)
Definition clickAnswered (tab : option nat) : list Event :=
  [Click; Answer tab; Answer tab; Answer tab].

End Popup.

(** [loadEnabledState] of the content script, on what the read of the
    storage gives: the stored flag, nothing, or an error. *)
Definition loadEnabledState (result : Completion (option bool)) : bool :=
  match result with
  | Normal (Some b) => b
  | Normal None => DEFAULT_ENABLED
  | Throw => DEFAULT_ENABLED
  end.

(** * Proofs *)

(** ** The document *)

Section DomFacts.

(** Induction on a node with the hypothesis for all its children. *)
Lemma Node_forall_ind (P : Node -> Prop) :
  (forall i t a ks, Forall P ks -> P (Element i t a ks)) ->
  (forall d, P (TextNode d)) ->
  forall n, P n.
Proof.
  intros HE HT. fix IH 1. intros [i t a ks|d]; [|apply HT].
  apply HE. induction ks as [|k ks IHks]; constructor; [apply IH|exact IHks].
Qed.

Lemma shallow_hasId i : shallow (hasId i).
Proof. intros j t a ks ks'. reflexivity. Qed.

Lemma shallow_hasAttr k : shallow (hasAttr k).
Proof. intros j t a ks ks'. reflexivity. Qed.

Lemma shallow_orb p q : shallow p -> shallow q -> shallow (fun n => p n || q n).
Proof. intros Hp Hq j t a ks ks'. now rewrite (Hp j t a ks ks'), (Hq j t a ks ks'). Qed.

Lemma shallow_existsb (l : list nat) : shallow (fun n => existsb (fun i => hasId i n) l).
Proof. intros j t a ks ks'. reflexivity. Qed.

Lemma shallow_pruneNode p q n : shallow p -> p (pruneNode q n) = p n.
Proof. intros Hp. destruct n as [i t a ks|d]; [apply Hp|reflexivity]. Qed.

Lemma shallow_mapAttrsNode_id h i n : hasId i (mapAttrsNode h n) = hasId i n.
Proof. now destruct n. Qed.

Lemma filter_ext_in' {A} (f g : A -> bool) (l : list A) :
  (forall x, In x l -> f x = g x) -> List.filter f l = List.filter g l.
Proof.
  induction l as [|x l IH]; intros H; simpl; [reflexivity|].
  rewrite (H x (or_introl eq_refl)), IH; [reflexivity|].
  intros y Hy. apply H. now right.
Qed.

Lemma in_subtree_self n : In n (subtree n).
Proof. destruct n; simpl; now left. Qed.

Lemma in_allNodes_top doc n : In n doc -> In n (allNodes doc).
Proof. intros H. apply in_flat_map. exists n. split; [exact H|apply in_subtree_self]. Qed.

Lemma in_allNodes_child doc i t a ks k :
  In (Element i t a ks) (allNodes doc) -> In k (allNodes ks) -> In k (allNodes doc).
Proof.
  unfold allNodes. intros H Hk.
  apply in_flat_map in H as (r & Hr & H). apply in_flat_map. exists r. split; [exact Hr|].
  clear Hr doc. revert H. induction r as [j u b rs IH|d] using Node_forall_ind; simpl.
  - intros [H|H].
    + injection H as -> -> -> ->. right. exact Hk.
    + right. apply in_flat_map in H as (c & Hc & H). apply in_flat_map. exists c.
      split; [exact Hc|]. rewrite List.Forall_forall in IH. now apply (IH c Hc).
  - intros [H|[]]. discriminate.
Qed.

(** *** Pruning *)

Lemma pruneNode_ext_in p q n :
  shallow p -> shallow q ->
  (forall m, In m (subtree n) -> p m = q m) -> pruneNode p n = pruneNode q n.
Proof.
  intros Hp Hq. induction n as [i t a ks IH|d] using Node_forall_ind; intros H; [|reflexivity].
  simpl. f_equal.
  assert (Hm : List.map (pruneNode p) ks = List.map (pruneNode q) ks).
  { apply map_ext_in. intros k Hk. rewrite List.Forall_forall in IH. apply (IH k Hk).
    intros m Hm. apply H. simpl. right. apply in_flat_map. now exists k. }
  rewrite Hm. apply filter_ext_in'. intros k' Hk'.
  apply in_map_iff in Hk' as (k & <- & Hk).
  rewrite !shallow_pruneNode by assumption. f_equal. apply H.
  simpl. right. apply in_flat_map. exists k. split; [exact Hk|apply in_subtree_self].
Qed.

Lemma prune_ext_in p q doc :
  shallow p -> shallow q ->
  (forall m, In m (allNodes doc) -> p m = q m) -> prune p doc = prune q doc.
Proof.
  intros Hp Hq H. unfold prune.
  assert (Hm : List.map (pruneNode p) doc = List.map (pruneNode q) doc).
  { apply map_ext_in. intros k Hk. apply pruneNode_ext_in; [assumption..|].
    intros m Hm. apply H. apply in_flat_map. now exists k. }
  rewrite Hm. apply filter_ext_in'. intros k' Hk'.
  apply in_map_iff in Hk' as (k & <- & Hk).
  rewrite !shallow_pruneNode by assumption. f_equal. apply H. now apply in_allNodes_top.
Qed.

Lemma filter_all {A} (l : list A) : List.filter (fun _ => negb false) l = l.
Proof. induction l as [|x l IH]; simpl; [reflexivity|now f_equal]. Qed.

Lemma pruneNode_none n : pruneNode (fun _ => false) n = n.
Proof.
  induction n as [i t a ks IH|d] using Node_forall_ind; [|reflexivity].
  simpl. f_equal. rewrite filter_all.
  rewrite <- (List.map_id ks) at 2. apply List.map_ext_in.
  rewrite List.Forall_forall in IH. exact IH.
Qed.

Lemma prune_none doc : prune (fun _ => false) doc = doc.
Proof.
  unfold prune. rewrite filter_all.
  rewrite <- (List.map_id doc) at 2. apply List.map_ext_in.
  intros k _. apply pruneNode_none.
Qed.

Lemma filter_map_prune p q (f : Node -> Node) ks :
  shallow p -> shallow q ->
  (forall k, In k ks -> pruneNode q (pruneNode p k) = f k) ->
  List.filter (fun k => negb (q k))
    (List.map (pruneNode q) (List.filter (fun k => negb (p k)) (List.map (pruneNode p) ks)))
  = List.filter (fun k => negb (p k || q k)) (List.map f ks).
Proof.
  intros Hp Hq. induction ks as [|k ks IH]; intros H; [reflexivity|].
  assert (IH' := IH (fun k' Hk' => H k' (or_intror Hk'))). clear IH.
  assert (Hf := H k (or_introl eq_refl)).
  assert (Hpk : p (pruneNode p k) = p k) by now apply shallow_pruneNode.
  assert (Hfp : p (f k) = p k) by (rewrite <- Hf; now rewrite !shallow_pruneNode).
  assert (Hfq : q (f k) = q k) by (rewrite <- Hf; now rewrite !shallow_pruneNode).
  cbn [List.map List.filter]. rewrite Hpk, Hfp, Hfq.
  destruct (p k); cbn [negb orb List.map List.filter]; [exact IH'|].
  rewrite Hf, Hfq. destruct (q k); cbn [negb]; [exact IH'|now f_equal].
Qed.

Lemma pruneNode_pruneNode p q n :
  shallow p -> shallow q ->
  pruneNode q (pruneNode p n) = pruneNode (fun m => p m || q m) n.
Proof.
  intros Hp Hq. induction n as [i t a ks IH|d] using Node_forall_ind; [|reflexivity].
  simpl. f_equal. rewrite List.Forall_forall in IH.
  apply filter_map_prune; assumption.
Qed.

Lemma prune_prune p q doc :
  shallow p -> shallow q ->
  prune q (prune p doc) = prune (fun m => p m || q m) doc.
Proof.
  intros Hp Hq. unfold prune. apply filter_map_prune; [assumption..|].
  intros k _. now apply pruneNode_pruneNode.
Qed.

Lemma fold_remove l : forall doc,
  fold_left (fun d i => remove i d) l doc
  = prune (fun n => existsb (fun i => hasId i n) l) doc.
Proof.
  induction l as [|i l IH]; intros doc; simpl.
  - symmetry. apply prune_none.
  - rewrite IH. unfold remove.
    rewrite prune_prune by (apply shallow_hasId || apply shallow_existsb).
    reflexivity.
Qed.

(** *** Identities *)

Lemma elementIds_app l1 l2 : elementIds (l1 ++ l2) = (elementIds l1 ++ elementIds l2)%list.
Proof. apply flat_map_app. Qed.

Lemma in_elementIds i l : In i (elementIds l) <-> exists n, In n l /\ nodeId n = Some i.
Proof.
  unfold elementIds. rewrite in_flat_map. split; intros (n & Hn & H); exists n.
  - split; [exact Hn|]. destruct (nodeId n); [|destruct H].
    destruct H as [->|[]]. reflexivity.
  - split; [exact Hn|]. rewrite H. now left.
Qed.

Lemma ids_forest_prune p ks :
  Forall (fun k => elementIds (subtree (pruneNode p k)) `sublist_of` elementIds (subtree k)) ks ->
  elementIds (flat_map subtree (List.filter (fun k => negb (p k)) (List.map (pruneNode p) ks)))
    `sublist_of` elementIds (flat_map subtree ks).
Proof.
  induction 1 as [|k ks Hk _ IH]; simpl; [constructor|].
  rewrite elementIds_app. destruct (negb _); simpl.
  - rewrite elementIds_app. now apply sublist_app.
  - now apply sublist_inserts_l.
Qed.

Lemma ids_pruneNode p n :
  elementIds (subtree (pruneNode p n)) `sublist_of` elementIds (subtree n).
Proof.
  induction n as [i t a ks IH|d] using Node_forall_ind; [|reflexivity].
  simpl. apply sublist_skip. now apply ids_forest_prune.
Qed.

Lemma NoDup_prune p doc :
  NoDup (elementIds (allNodes doc)) -> NoDup (elementIds (allNodes (prune p doc))).
Proof.
  intros H. apply (sublist_NoDup _ _ H). apply ids_forest_prune.
  apply List.Forall_forall. intros k _. apply ids_pruneNode.
Qed.

(** Two elements of a document with the same identity are the same. *)
Lemma same_identity l j t a ks t' a' ks' :
  NoDup (elementIds l) ->
  In (Element j t a ks) l -> In (Element j t' a' ks') l ->
  Element j t a ks = Element j t' a' ks'.
Proof.
  induction l as [|x l IH]; intros Hn H1 H2; [destruct H1|].
  change (x :: l) with ([x] ++ l)%list in Hn. rewrite elementIds_app in Hn.
  apply NoDup_app in Hn as (_ & Hx & Hn).
  assert (Hfresh : forall u b cs, x = Element j u b cs -> forall v c ds,
            In (Element j v c ds) l -> False).
  { intros u b cs -> v c ds Hin. apply (Hx j).
    - apply list_elem_of_In. simpl. now left.
    - apply list_elem_of_In, in_elementIds.
      eexists. split; [eassumption|reflexivity]. }
  destruct H1 as [H1|H1], H2 as [H2|H2].
  - congruence.
  - exfalso. eapply Hfresh; eassumption.
  - exfalso. eapply Hfresh; eassumption.
  - now apply IH.
Qed.

Lemma existsb_hasId_text l d : existsb (fun i => hasId i (TextNode d)) l = false.
Proof. induction l; simpl; [reflexivity|assumption]. Qed.

(** The identities of the elements that match [p] single out those
    elements. *)
Lemma matched_by_identity p doc m :
  shallow p -> (forall d, p (TextNode d) = false) ->
  NoDup (elementIds (allNodes doc)) ->
  In m (allNodes doc) ->
  existsb (fun i => hasId i m) (elementIds (documentQuery p doc)) = p m.
Proof.
  intros Hp Ht Hn Hm. destruct m as [j t a ks|d].
  2:{ now rewrite existsb_hasId_text, Ht. }
  destruct (p (Element j t a ks)) eqn:E.
  - apply existsb_exists. exists j. split; [|apply Nat.eqb_refl].
    apply in_elementIds. exists (Element j t a ks). split; [|reflexivity].
    apply filter_In. now split.
  - apply not_true_is_false. intros H.
    apply existsb_exists in H as (i & Hi & Heq).
    simpl in Heq. apply Nat.eqb_eq in Heq. subst i.
    apply in_elementIds in Hi as (m' & Hm' & Hid).
    apply filter_In in Hm' as [Hm' Hp'].
    destruct m' as [j' t' a' ks'|d']; [|discriminate].
    injection Hid as ->.
    rewrite (same_identity _ _ _ _ _ _ _ _ Hn Hm' Hm) in Hp'. congruence.
Qed.

Lemma removeMatching_prune p doc :
  shallow p -> (forall d, p (TextNode d) = false) ->
  NoDup (elementIds (allNodes doc)) ->
  removeMatching p doc = prune p doc.
Proof.
  intros Hp Ht Hn. unfold removeMatching. rewrite fold_remove.
  apply prune_ext_in; [apply shallow_existsb|exact Hp|].
  intros m Hm. now apply matched_by_identity.
Qed.

Lemma in_forest_prune p ks n :
  shallow p ->
  Forall (fun k => forall n, In n (subtree (pruneNode p k)) ->
                     n = pruneNode p k
                     \/ (p n = false /\ exists m, In m (subtree k) /\ n = pruneNode p m)) ks ->
  In n (flat_map subtree (List.filter (fun k => negb (p k)) (List.map (pruneNode p) ks))) ->
  p n = false /\ exists m, In m (flat_map subtree ks) /\ n = pruneNode p m.
Proof.
  intros Hp IH Hn. rewrite List.Forall_forall in IH.
  apply in_flat_map in Hn as (k' & Hk' & Hn).
  apply filter_In in Hk' as [Hk' Hpk]. apply negb_true_iff in Hpk.
  apply in_map_iff in Hk' as (k & <- & Hk).
  destruct (IH k Hk n Hn) as [->|(Hpn & m & Hm & ->)].
  - split; [exact Hpk|]. exists k. split; [|reflexivity].
    apply in_flat_map. exists k. split; [exact Hk|apply in_subtree_self].
  - split; [exact Hpn|]. exists m. split; [|reflexivity].
    apply in_flat_map. now exists k.
Qed.

Lemma in_subtree_pruneNode p k :
  shallow p ->
  forall n, In n (subtree (pruneNode p k)) ->
    n = pruneNode p k
    \/ (p n = false /\ exists m, In m (subtree k) /\ n = pruneNode p m).
Proof.
  intros Hp. induction k as [i t a ks IH|d] using Node_forall_ind; intros n Hn.
  - simpl in Hn. destruct Hn as [<-|Hn]; [now left|]. right.
    destruct (in_forest_prune p ks n Hp IH Hn) as (Hpn & m & Hm & ->).
    split; [exact Hpn|]. exists m. split; [|reflexivity]. simpl. now right.
  - destruct Hn as [<-|[]]. now left.
Qed.

(** What is left after pruning does not satisfy [p], and was there before. *)
Lemma in_allNodes_prune p doc n :
  shallow p ->
  In n (allNodes (prune p doc)) ->
  p n = false /\ exists m, In m (allNodes doc) /\ n = pruneNode p m.
Proof.
  intros Hp. apply in_forest_prune; [exact Hp|].
  apply List.Forall_forall. intros k _. now apply in_subtree_pruneNode.
Qed.

(** *** Attributes *)

Lemma subtree_mapAttrsNode h n :
  subtree (mapAttrsNode h n) = List.map (mapAttrsNode h) (subtree n).
Proof.
  induction n as [i t a ks IH|d] using Node_forall_ind; [|reflexivity].
  simpl. f_equal. induction IH as [|k ks Hk _ IHks]; simpl; [reflexivity|].
  now rewrite List.map_app, Hk, IHks.
Qed.

Lemma allNodes_mapAttrs h doc :
  allNodes (mapAttrs h doc) = List.map (mapAttrsNode h) (allNodes doc).
Proof.
  unfold allNodes, mapAttrs. induction doc as [|k ks IH]; simpl; [reflexivity|].
  now rewrite List.map_app, subtree_mapAttrsNode, IH.
Qed.

Lemma mapAttrsNode_ext_in h h' n :
  (forall j t a ks, In (Element j t a ks) (subtree n) -> h j a = h' j a) ->
  mapAttrsNode h n = mapAttrsNode h' n.
Proof.
  induction n as [i t a ks IH|d] using Node_forall_ind; intros H; [|reflexivity].
  simpl. f_equal.
  - apply (H i t a ks). simpl. now left.
  - apply List.map_ext_in. intros k Hk. rewrite List.Forall_forall in IH.
    apply (IH k Hk). intros j u b cs Hin. apply (H j u b cs).
    simpl. right. apply in_flat_map. now exists k.
Qed.

Lemma mapAttrs_ext_in h h' doc :
  (forall j t a ks, In (Element j t a ks) (allNodes doc) -> h j a = h' j a) ->
  mapAttrs h doc = mapAttrs h' doc.
Proof.
  intros H. apply List.map_ext_in. intros k Hk. apply mapAttrsNode_ext_in.
  intros j t a ks Hin. apply (H j t a ks). apply in_flat_map. now exists k.
Qed.

Lemma mapAttrsNode_compose h1 h2 n :
  mapAttrsNode h2 (mapAttrsNode h1 n) = mapAttrsNode (fun j a => h2 j (h1 j a)) n.
Proof.
  induction n as [i t a ks IH|d] using Node_forall_ind; [|reflexivity].
  simpl. f_equal. rewrite List.map_map. apply List.map_ext_in.
  rewrite List.Forall_forall in IH. exact IH.
Qed.

Lemma mapAttrs_compose h1 h2 doc :
  mapAttrs h2 (mapAttrs h1 doc) = mapAttrs (fun j a => h2 j (h1 j a)) doc.
Proof.
  unfold mapAttrs. rewrite List.map_map. apply List.map_ext.
  intros k. apply mapAttrsNode_compose.
Qed.

Lemma mapAttrsNode_id n : mapAttrsNode (fun _ a => a) n = n.
Proof.
  induction n as [i t a ks IH|d] using Node_forall_ind; [|reflexivity].
  simpl. f_equal. rewrite <- (List.map_id ks) at 2. apply List.map_ext_in.
  rewrite List.Forall_forall in IH. exact IH.
Qed.

Lemma mapAttrs_id doc : mapAttrs (fun _ a => a) doc = doc.
Proof.
  unfold mapAttrs. rewrite <- (List.map_id doc) at 2. apply List.map_ext.
  intros k. apply mapAttrsNode_id.
Qed.

Lemma dropAttr_dropAttr k a : dropAttr k (dropAttr k a) = dropAttr k a.
Proof.
  unfold dropAttr. induction a as [|[x v] a IH]; simpl; [reflexivity|].
  destruct (negb (Str.eqb x k)) eqn:E; simpl; [rewrite E; now f_equal|exact IH].
Qed.

Lemma lookupAttr_dropAttr k a : lookupAttr k (dropAttr k a) = None.
Proof.
  unfold dropAttr. induction a as [|[x v] a IH]; simpl; [reflexivity|].
  destruct (Str.eqb x k) eqn:E; simpl; [exact IH|now rewrite E].
Qed.

Lemma lookupAttr_dropAttr_ne k k' a :
  k <> k' -> lookupAttr k' (dropAttr k a) = lookupAttr k' a.
Proof.
  intros Hne. unfold dropAttr. induction a as [|[x v] a IH]; simpl; [reflexivity|].
  destruct (Str.eqb x k) eqn:E; simpl.
  - unfold Str.eqb in E. apply bool_decide_eq_true in E. subst x.
    assert (Hx : Str.eqb k k' = false)
      by (unfold Str.eqb; now apply bool_decide_eq_false_2).
    now rewrite Hx.
  - now rewrite IH.
Qed.

Lemma dropAttr_absent k a : lookupAttr k a = None -> dropAttr k a = a.
Proof.
  unfold dropAttr. induction a as [|[x v] a IH]; simpl; [reflexivity|].
  destruct (Str.eqb x k); simpl; [discriminate|]. intros H. now rewrite IH.
Qed.

Lemma fold_removeAttribute k l : forall doc,
  fold_left (fun d i => removeAttribute i k d) l doc
  = mapAttrs (fun j a => if existsb (Nat.eqb j) l then dropAttr k a else a) doc.
Proof.
  induction l as [|i l IH]; intros doc; simpl.
  - symmetry. apply mapAttrs_id.
  - rewrite IH. unfold removeAttribute. rewrite mapAttrs_compose.
    apply mapAttrs_ext_in. intros j t a ks _. unfold onElement.
    rewrite (Nat.eqb_sym j i).
    destruct (Nat.eqb i j); simpl; [|reflexivity].
    destruct (existsb _ l); [apply dropAttr_dropAttr|reflexivity].
Qed.

(** Clearing an attribute wherever the query finds it clears it
    everywhere. *)
Lemma clear_attribute k doc :
  fold_left (fun d i => removeAttribute i k d)
    (elementIds (documentQuery (hasAttr k) doc)) doc
  = mapAttrs (fun _ a => dropAttr k a) doc.
Proof.
  rewrite fold_removeAttribute. apply mapAttrs_ext_in. intros j t a ks Hin.
  destruct (existsb _ _) eqn:E; [reflexivity|].
  symmetry. apply dropAttr_absent.
  destruct (lookupAttr k a) eqn:L; [|reflexivity]. exfalso.
  apply not_true_iff_false in E. apply E. apply existsb_exists.
  exists j. split; [|apply Nat.eqb_refl].
  apply in_elementIds. exists (Element j t a ks). split; [|reflexivity].
  apply filter_In. split; [exact Hin|]. unfold hasAttr. simpl. now rewrite L.
Qed.

End DomFacts.

(** ** The cache *)

Section CacheFacts.

Lemma dispatch_cache r s : locationCache (dispatch r s) = locationCache s.
Proof. reflexivity. Qed.

Lemma dispatchLoop_cache q : forall s,
  locationCache (dispatchLoop q s) = locationCache s.
Proof.
  induction q as [|r q IH]; intros s; simpl; [reflexivity|].
  destruct (activeRequests s <? _); [|reflexivity].
  destruct (_ <? MIN_REQUEST_INTERVAL); [reflexivity|].
  now rewrite IH.
Qed.

Lemma processRequestQueue_cache s :
  locationCache (processRequestQueue s) = locationCache s.
Proof.
  unfold processRequestQueue.
  destruct (_ || _); [reflexivity|].
  destruct (_ && _); [reflexivity|].
  rewrite dispatchLoop_cache. now destruct (0 <? _).
Qed.

(** Whatever is in the queue when the loop runs stays there or goes to the
    bridge. *)
Lemma dispatchLoop_requested q : forall s name w,
  requestQueue s = q ->
  requested name w s -> requested name w (dispatchLoop q s).
Proof.
  induction q as [|r q IH]; intros s name w Hq Hr; simpl.
  - destruct Hr as [Hr|Hr]; [left|right]; exact Hr.
  - destruct (activeRequests s <? _).
    2:{ destruct Hr as [Hr|Hr]; [left|right]; exact Hr. }
    destruct (_ <? MIN_REQUEST_INTERVAL).
    { destruct Hr as [Hr|Hr]; [left|right]; exact Hr. }
    apply IH; [reflexivity|].
    destruct Hr as [Hr|[rid Hr]].
    + rewrite Hq in Hr. destruct Hr as [->|Hr].
      * right. exists (nextRequest s). simpl. apply in_or_app. right. now left.
      * left. exact Hr.
    + right. exists rid. simpl. apply in_or_app. now left.
Qed.

Lemma processRequestQueue_requested s name w :
  requested name w s -> requested name w (processRequestQueue s).
Proof.
  intros Hr. unfold processRequestQueue.
  destruct (_ || _); [exact Hr|].
  destruct (_ && _).
  { destruct Hr as [Hr|Hr]; [left|right]; exact Hr. }
  apply dispatchLoop_requested.
  - now destruct (0 <? _).
  - destruct (0 <? _); destruct Hr as [Hr|Hr]; [left|right|left|right]; exact Hr.
Qed.

End CacheFacts.

(** C5.  A lookup that finds a location in the cache returns it and leaves
    the whole state as it was: nothing joins the request queue and nothing
    is posted to the page script. *)
Theorem cached_location_is_returned (name : string) (w : Annotation) (s : State)
    (cached : string) :
  locationCache s !! name = Some (Some cached) ->
  getUserLocation name w s = (Cached cached, s).
Proof. intros H. unfold getUserLocation. now rewrite H. Qed.

Lemma cached_location_is_returned_witness :
  locationCache Scenario.warm !! "alice" = Some (Some "Paris, France")
  /\ getUserLocation "alice" Scenario.someWaiter Scenario.warm
     = (Cached "Paris, France", Scenario.warm).
Proof.
  split; [vm_compute; reflexivity|].
  apply (cached_location_is_returned "alice" Scenario.someWaiter Scenario.warm).
  vm_compute; reflexivity.
Defined.

(** C4, as the code has it.  A lookup that finds null in the cache deletes
    the entry and asks again: the request joins the queue, from where the
    dispatch loop may already have sent it to the page script. *)
Theorem cached_null_is_deleted_and_refetched (name : string) (w : Annotation)
    (s : State) :
  locationCache s !! name = Some None ->
  fst (getUserLocation name w s) = Queued
  /\ locationCache (snd (getUserLocation name w s)) !! name = None
  /\ requested name w (snd (getUserLocation name w s)).
Proof.
  intros H. unfold getUserLocation. rewrite H. simpl.
  split; [reflexivity|]. split.
  - rewrite processRequestQueue_cache. simpl. apply lookup_delete_eq.
  - apply processRequestQueue_requested. left. simpl.
    apply in_or_app. right. now left.
Qed.

Lemma cached_null_is_deleted_and_refetched_witness :
  locationCache Scenario.noLocation !! "alice" = Some None
  /\ fst (getUserLocation "alice" Scenario.someWaiter Scenario.noLocation) = Queued
  /\ locationCache (snd (getUserLocation "alice" Scenario.someWaiter Scenario.noLocation))
       !! "alice" = None
  /\ requested "alice" Scenario.someWaiter
       (snd (getUserLocation "alice" Scenario.someWaiter Scenario.noLocation)).
Proof.
  split; [vm_compute; reflexivity|].
  apply (cached_null_is_deleted_and_refetched "alice" Scenario.someWaiter
           Scenario.noLocation).
  vm_compute; reflexivity.
Defined.

(** C4, as the claim states it, fails: the answer for alice carried null and
    null is in the cache, yet the next scan sends a second '__fetchLocation'
    message for alice. *)
Lemma cached_null_suppresses_refetch_counterexample :
  locationCache Scenario.noLocation !! "alice" = Some None
  /\ posted Scenario.noLocation = [(1700000002000, 0%nat, "alice")]
  /\ posted Scenario.rescanned
     = [(1700000006300, 1%nat, "alice"); (1700000002000, 0%nat, "alice")].
Proof. vm_compute. repeat split; reflexivity. Qed.

(** ** What is saved and what is loaded *)

Lemma init_cache doc now toggle stored valid :
  locationCache (init doc now toggle stored valid)
  = if valid
    then match stored with
         | Some cached => omap (loadable now) cached
         | None => ∅
         end
    else ∅.
Proof.
  unfold init, loadCache; simpl.
  destruct valid; simpl.
  - destruct stored as [cached|]; simpl.
    + rewrite (right_id_L ∅ (∪)).
      now destruct (negb match toggle with Some b => b | None => DEFAULT_ENABLED end).
    + now destruct (negb match toggle with Some b => b | None => DEFAULT_ENABLED end).
  - now destruct (negb match toggle with Some b => b | None => DEFAULT_ENABLED end).
Qed.

Lemma saveCache_storage s :
  runtimeValid s = true ->
  storage (saveCache s)
  = Some ((fun loc => {| location := loc; expiry := clock s + THIRTY_DAYS;
                         cachedAt := clock s |})
            <$> delete "__proto__" (locationCache s)).
Proof. intros H. unfold saveCache. rewrite H. reflexivity. Qed.

Lemma saved_entry s name :
  name <> "__proto__" ->
  ((fun loc => {| location := loc; expiry := clock s + THIRTY_DAYS;
                  cachedAt := clock s |})
     <$> delete "__proto__" (locationCache s)) !! name
  = (fun loc => {| location := loc; expiry := clock s + THIRTY_DAYS;
                   cachedAt := clock s |}) <$> locationCache s !! name.
Proof. intros Hn. rewrite lookup_fmap, lookup_delete_ne; [reflexivity|congruence]. Qed.

(** C3, as the code has it.  A null location is saved like any other entry
    (of a handle other than [__proto__]); it is [loadCache] that leaves it
    out: a session started on the saved snapshot has no entry for the
    handle. *)
Theorem null_entries_are_saved_and_dropped_on_load (s : State) (name : string) :
  runtimeValid s = true ->
  locationCache s !! name = Some None ->
  (name <> "__proto__" ->
   exists snapshot,
      storage (saveCache s) = Some snapshot
      /\ snapshot !! name
         = Some {| location := None; expiry := clock s + THIRTY_DAYS;
                   cachedAt := clock s |})
  /\ (forall doc now toggle valid,
        locationCache (init doc now toggle (storage (saveCache s)) valid) !! name
        = None).
Proof.
  intros Hv Hc. rewrite (saveCache_storage s Hv). split.
  - intros Hn. eexists; split; [reflexivity|].
    rewrite (saved_entry s name Hn), Hc. reflexivity.
  - intros doc now toggle valid. rewrite init_cache.
    destruct valid; [|apply lookup_empty].
    rewrite lookup_omap, lookup_fmap.
    destruct (decide (name = "__proto__")) as [->|Hn].
    + now rewrite lookup_delete_eq.
    + rewrite lookup_delete_ne, Hc by congruence. simpl.
      unfold loadable; simpl. now destruct (_ && _).
Qed.

Lemma null_entries_are_saved_and_dropped_on_load_witness :
  runtimeValid Scenario.noLocation = true
  /\ locationCache Scenario.noLocation !! "alice" = Some None
  /\ (exists snapshot,
        storage (saveCache Scenario.noLocation) = Some snapshot
        /\ snapshot !! "alice"
           = Some {| location := None;
                     expiry := clock Scenario.noLocation + THIRTY_DAYS;
                     cachedAt := clock Scenario.noLocation |})
  /\ (forall doc now toggle valid,
        locationCache
          (init doc now toggle (storage (saveCache Scenario.noLocation)) valid)
          !! "alice" = None).
Proof.
  assert (Hv : runtimeValid Scenario.noLocation = true) by (vm_compute; reflexivity).
  assert (Hc : locationCache Scenario.noLocation !! "alice" = Some None)
    by (vm_compute; reflexivity).
  split; [exact Hv|]. split; [exact Hc|].
  destruct (null_entries_are_saved_and_dropped_on_load Scenario.noLocation "alice" Hv Hc)
    as [H1 H2].
  split; [apply H1; discriminate|exact H2].
Defined.

(** C3, as the claim states it, fails: null is in the cache for alice when
    the 5 s timer fires, and the object written under the cache key has an
    entry for alice. *)
Lemma null_location_not_persisted_counterexample :
  locationCache Scenario.noLocation !! "alice" = Some None
  /\ storage Scenario.noLocation = None
  /\ storage Scenario.savedNull ≫= (fun snapshot => snapshot !! "alice")
     = Some {| location := None; expiry := 1702592007800;
               cachedAt := 1700000007800 |}.
Proof. vm_compute. repeat split; reflexivity. Qed.

(** C10.  The claim fails for one handle.  A cell of the handle [__proto__]
    gets its location, which is cached; the save of the 5 s timer writes an
    object with no entry at all, and so does a save of the 30 s interval; a
    session that starts on what was written has no location for the
    handle. *)
Theorem proto_handle_is_never_saved :
  locationCache Scenario.protoCached !! "__proto__" = Some (Some "Paris, France")
  /\ runtimeValid Scenario.protoCached = true
  /\ storage Scenario.protoSaved = Some ∅
  /\ storage (runTask T_saveCacheInterval Scenario.protoCached) = Some ∅
  /\ locationCache
       (init Scenario.protoPage (Scenario.t0 + 60000) None
          (storage Scenario.protoSaved) true) !! "__proto__" = None.
Proof. vm_compute. repeat split; reflexivity. Qed.

(** ** Switching the extension off *)

Lemma removeAllFlags_document doc :
  distinctIds doc ->
  fold_left (fun d i => removeAttribute i FLAG_ADDED d)
    (elementIds (documentQuery (hasAttr FLAG_ADDED)
                   (removeMatching (hasAttr SHIMMER) (removeMatching (hasAttr FLAG) doc))))
    (removeMatching (hasAttr SHIMMER) (removeMatching (hasAttr FLAG) doc))
  = stripped doc.
Proof.
  intros Hn. rewrite clear_attribute. unfold stripped. f_equal.
  rewrite (removeMatching_prune (hasAttr FLAG) doc)
    by (apply shallow_hasAttr || reflexivity || exact Hn).
  rewrite removeMatching_prune
    by (apply shallow_hasAttr || reflexivity || now apply NoDup_prune).
  apply prune_prune; apply shallow_hasAttr.
Qed.

Lemma stripped_clean doc n :
  In n (allNodes (stripped doc)) ->
  hasAttr FLAG n = false /\ hasAttr SHIMMER n = false /\ hasAttr FLAG_ADDED n = false.
Proof.
  unfold stripped. rewrite allNodes_mapAttrs. intros H.
  apply in_map_iff in H as (m & <- & Hm).
  apply in_allNodes_prune in Hm as (Hp & _).
  2:{ apply shallow_orb; apply shallow_hasAttr. }
  apply orb_false_iff in Hp as [Hf Hs].
  destruct m as [j t a ks|d]; [|repeat split; reflexivity].
  unfold hasAttr in *. simpl in *.
  rewrite !lookupAttr_dropAttr_ne by discriminate.
  rewrite lookupAttr_dropAttr. now rewrite Hf, Hs.
Qed.

(** C9.  The handler of a toggle-off message leaves a document without
    flags, shimmers and state attributes, which is the old document less
    exactly these; of the script's variables only [extensionEnabled]
    changes: the cache, the in-flight set and the request queue stay as
    they were, and so do the timers, the bridge listeners and the storage. *)
Theorem toggle_off_strips_decorations (s : State) :
  distinctIds (document s) ->
  (forall n, In n (allNodes (document (onExtensionToggle false s))) ->
     hasAttr FLAG n = false /\ hasAttr SHIMMER n = false
     /\ hasAttr FLAG_ADDED n = false)
  /\ onExtensionToggle false s
     = with_document (stripped (document s)) (with_extensionEnabled false s)
  /\ locationCache (onExtensionToggle false s) = locationCache s
  /\ processingUsernames (onExtensionToggle false s) = processingUsernames s
  /\ requestQueue (onExtensionToggle false s) = requestQueue s
  /\ (forall getCountryFlag, idle s = true ->
        step getCountryFlag s (ExtensionToggle false) = onExtensionToggle false s).
Proof.
  intros Hn.
  assert (E : onExtensionToggle false s
              = with_document (stripped (document s)) (with_extensionEnabled false s)).
  { unfold onExtensionToggle, removeAllFlags. simpl.
    now rewrite removeAllFlags_document. }
  rewrite E. simpl. repeat split; try reflexivity.
  - now apply (stripped_clean (document s)).
  - now apply (stripped_clean (document s)).
  - now apply (stripped_clean (document s)).
  - intros flags Hi. simpl. now rewrite Hi.
Qed.

Lemma toggle_off_strips_decorations_witness :
  distinctIds (document (Scenario.scanned Scenario.page2))
  /\ onExtensionToggle false (Scenario.scanned Scenario.page2)
     = with_document (stripped (document (Scenario.scanned Scenario.page2)))
         (with_extensionEnabled false (Scenario.scanned Scenario.page2)).
Proof.
  assert (H : distinctIds (document (Scenario.scanned Scenario.page2))).
  { unfold distinctIds. apply (bool_decide_unpack _). vm_compute. exact I. }
  split; [exact H|].
  exact (proj1 (proj2 (toggle_off_strips_decorations _ H))).
Defined.

(** ** The state between events *)

Section Frames.

Lemma pageOnly_refl s : pageOnly s s.
Proof. exists (document s), (nextNode s). now destruct s. Qed.

Lemma pageOnly_trans s1 s2 s3 : pageOnly s1 s2 -> pageOnly s2 s3 -> pageOnly s1 s3.
Proof. intros (d & n & ->) (d' & n' & ->). now exists d', n'. Qed.

Lemma pageOnly_document d s : pageOnly s (with_document d s).
Proof. exists d, (nextNode s). reflexivity. Qed.

Lemma pageOnly_nextNode n s : pageOnly s (with_nextNode n s).
Proof. exists (document s), n. now destruct s. Qed.

Lemma setFlagAdded_page el v s : pageOnly s (setFlagAdded el v s).
Proof. apply pageOnly_document. Qed.

Lemma waitingWake_page el s : pageOnly s (waitingWake el s).
Proof.
  unfold waitingWake. destruct (flagAddedIs _ _ _);
    [apply pageOnly_refl|apply setFlagAdded_page].
Qed.

Lemma removeShimmer_page w s : pageOnly s (removeShimmer w s).
Proof.
  unfold removeShimmer. destruct (_ && _);
    [apply pageOnly_document|apply pageOnly_refl].
Qed.

Lemma createLoadingShimmer_page s : pageOnly s (snd (createLoadingShimmer s)).
Proof.
  unfold createLoadingShimmer. simpl. destruct (existsb _ _); simpl.
  - apply pageOnly_nextNode.
  - destruct (documentHead _); simpl.
    + eexists _, _. reflexivity.
    + eexists _, _. now destruct s.
Qed.

Lemma insertShimmer_page c name sh s s' :
  insertShimmer c name sh s = Normal s' -> pageOnly s s'.
Proof.
  unfold insertShimmer.
  destruct (handleSectionOf _ _ _) as [[hs|]|]; [| |discriminate].
  - destruct (parentNode _ _); [destruct (insertBefore _ _ _ _)|];
      intros [= <-]; apply pageOnly_document.
  - intros [= <-]. apply pageOnly_document.
Qed.

(** The shimmer is made and put in, or one of the two calls raises. *)
Lemma shimmer_page name s :
  match createLoadingShimmer s with
  | (Normal sh, s1) =>
      pageOnly s s1
      /\ forall c s2, insertShimmer c name sh s1 = Normal s2 -> pageOnly s s2
  | (Throw, s1) => pageOnly s s1
  end.
Proof.
  pose proof (createLoadingShimmer_page s) as Hp.
  destruct (createLoadingShimmer s) as [[sh|] s1]; simpl in Hp; [|exact Hp].
  split; [exact Hp|]. intros c s2 H2.
  exact (pageOnly_trans _ _ _ Hp (insertShimmer_page _ _ _ _ _ H2)).
Qed.

Lemma removeAllFlags_page s : pageOnly s (removeAllFlags s).
Proof. apply pageOnly_document. Qed.

Lemma catchBlock_page w s : pageOnly s (catchBlock w s).
Proof.
  unfold catchBlock. eapply pageOnly_trans;
    [apply removeShimmer_page|apply setFlagAdded_page].
Qed.

End Frames.

Section Quiet.

Lemma quiet_refl s : quiet s s.
Proof. constructor; auto. Qed.

Lemma quiet_trans s1 s2 s3 : quiet s1 s2 -> quiet s2 s3 -> quiet s1 s3.
Proof.
  intros [] []. constructor; try congruence. auto.
Qed.

Lemma pageOnly_quiet s s' : pageOnly s s' -> quiet s s'.
Proof. intros (d & n & ->). constructor; auto. Qed.

Lemma wakes_setTimeout t d s :
  wakes (setTimeout t d s)
  = (wakes s ++ List.filter isWake [(clock s + Z.max 0 d, t)])%list.
Proof. unfold wakes, setTimeout. simpl. apply List.filter_app. Qed.

Lemma setTimeout_quiet t d s : isWake (0, t) = false -> quiet s (setTimeout t d s).
Proof.
  intros Ht. constructor; try reflexivity.
  - rewrite wakes_setTimeout. simpl. unfold isWake in *. simpl in *.
    rewrite Ht. apply app_nil_r.
  - intros x Hx. simpl. apply in_or_app. now left.
Qed.

Lemma saveCache_quiet s : quiet s (saveCache s).
Proof. unfold saveCache. destruct (negb _); constructor; auto. Qed.

Lemma settleLater_quiet t s : isWake (0, t) = false -> quiet s (settleLater t s).
Proof.
  intros Ht. constructor; try reflexivity.
  - unfold wakes, settleLater. simpl. rewrite List.filter_app. simpl.
    unfold isWake in *. simpl in *. rewrite Ht. apply app_nil_r.
  - intros x Hx. simpl. apply in_or_app. now left.
Qed.

Lemma saveCacheCallback_quiet s : quiet s (saveCacheCallback s).
Proof.
  unfold saveCacheCallback. destruct (negb _); [constructor; auto|].
  eapply quiet_trans; [apply saveCache_quiet|now apply settleLater_quiet].
Qed.

Lemma saveCacheEntry_quiet u l s : quiet s (saveCacheEntry u l s).
Proof.
  unfold saveCacheEntry. destruct (negb _); [apply quiet_refl|].
  simpl. destruct (saveCacheTimeout s).
  - constructor; auto.
  - eapply quiet_trans; [|eapply quiet_trans].
    2:{ apply (setTimeout_quiet T_saveCacheTimeout 5000). reflexivity. }
    + constructor; auto.
    + constructor; auto.
Qed.

Lemma enqueue_resume_quiet_queue w r s :
  completing (enqueueJob (J_resume w r) s) = completing s.
Proof.
  unfold completing, enqueueJob. simpl. rewrite List.filter_app. simpl.
  now rewrite app_nil_r.
Qed.

End Quiet.

Section Transfer.

Lemma QueueInv_ext s s' :
  requestQueue s' = requestQueue s -> isProcessingQueue s' = isProcessingQueue s ->
  lastRequestTime s' = lastRequestTime s -> activeRequests s' = activeRequests s ->
  clock s' = clock s -> wakes s' = wakes s -> completing s' = completing s ->
  listeners s' = listeners s -> posted s' = posted s ->
  QueueInv s -> QueueInv s'.
Proof.
  intros E1 E2 E3 E4 E5 E6 E7 E8 E9 [H1 H2 H3 H4 H5].
  constructor; rewrite ?E1, ?E2, ?E3, ?E4, ?E5, ?E6, ?E7, ?E8, ?E9; assumption.
Qed.

Lemma BridgeInv_grow s s' :
  listeners s' = listeners s -> nextRequest s' = nextRequest s ->
  posted s' = posted s -> (forall x, In x (timers s) -> In x (timers s')) ->
  BridgeInv s -> BridgeInv s'.
Proof.
  intros E1 E2 E3 Ht [H1 H2 H3].
  constructor; rewrite ?E1, ?E2, ?E3; try assumption.
  intros r Hr. destruct (H3 r Hr) as (t & Ht1 & Ht2). exists t. split; auto.
Qed.

Lemma AnnotInv_perm e e' s s' :
  processingUsernames s' = processingUsernames s ->
  (e' ++ inFlight s')%list ≡ₚ (e ++ inFlight s)%list ->
  AnnotInv e s -> AnnotInv e' s'.
Proof.
  intros E P [H1 H2]. constructor.
  - now rewrite P.
  - intros h. rewrite E, P. apply H2.
Qed.

Lemma Inv_quiet e s s' : quiet s s' -> Inv e s -> Inv e s'.
Proof.
  intros [E1 E2 E3 E4 E5 E6 E7 E8 E9 E10 E11 Ht] (HQ & HB & HA). split; [|split].
  - apply (QueueInv_ext s); try assumption.
    unfold completing. now rewrite E7.
  - now apply (BridgeInv_grow s).
  - apply (AnnotInv_perm e e s); [assumption| |assumption].
    unfold inFlight, waiters. now rewrite E1, E8, E7.
Qed.

Lemma Inv_page e s s' : pageOnly s s' -> Inv e s -> Inv e s'.
Proof. intros H. apply Inv_quiet. now apply pageOnly_quiet. Qed.

(** An annotation that ended before its [finally] is counted no more; its
    handle stays in the set. *)
Lemma Inv_drop name e s : Inv (name :: e) s -> Inv e s.
Proof.
  intros (HQ & HB & [H1 H2]). split; [exact HQ|]. split; [exact HB|].
  change (NoDup (name :: (e ++ inFlight s))) in H1.
  apply NoDup_cons in H1 as [_ H1]. constructor; [exact H1|].
  intros h Hh. apply H2. simpl. apply elem_of_cons. now right.
Qed.

(** The handler of [.catch] waits among the jobs. *)
Lemma enqueue_failed_inv e c s : Inv e s -> Inv e (enqueueJob (J_failed c) s).
Proof.
  intros (HQ & HB & HA). split; [|split].
  - apply (QueueInv_ext s); try reflexivity; [|exact HQ].
    unfold completing, enqueueJob. simpl. rewrite List.filter_app. simpl.
    now rewrite app_nil_r.
  - now apply (BridgeInv_grow s).
  - apply (AnnotInv_perm e e s); [reflexivity| |exact HA].
    unfold inFlight, waiters. simpl. rewrite flat_map_app. simpl.
    now rewrite app_nil_r.
Qed.

End Transfer.

Section QueueSteps.

Lemma wakes_dispatch r s : wakes (dispatch r s) = wakes s.
Proof.
  unfold dispatch, makeLocationRequest. rewrite wakes_setTimeout. simpl.
  apply app_nil_r.
Qed.

Lemma spaced_cons t rid name l :
  match l with
  | [] => True
  | (t1, _, _) :: _ => t1 + MIN_REQUEST_INTERVAL <= t
  end ->
  spaced l -> spaced ((t, rid, name) :: l).
Proof. intros H1 H2. simpl. split; assumption. Qed.

(** The loop of [processRequestQueue], entered with no [await] pending. *)
Lemma dispatchLoop_queue q : forall s,
  requestQueue s = q -> isProcessingQueue s = true -> wakes s = [] ->
  activeRequests s = Z.of_nat (length (listeners s) + completing s) ->
  activeRequests s <= MAX_CONCURRENT_REQUESTS ->
  spaced (posted s) ->
  match posted s with
  | [] => True
  | (t, _, _) :: _ => t = lastRequestTime s /\ t <= clock s
  end ->
  QueueInv (dispatchLoop q s).
Proof.
  induction q as [|r q IH]; intros s Hq Hp Hw Hc Hb Hs Hl.
  - constructor; try assumption.
    change (wakes (dispatchLoop [] s)) with (wakes s). now rewrite Hw.
  - simpl. destruct (activeRequests s <? MAX_CONCURRENT_REQUESTS) eqn:Ha.
    2:{ constructor; try assumption.
        change (wakes (with_isProcessingQueue false s)) with (wakes s).
        now rewrite Hw. }
    apply Z.ltb_lt in Ha.
    destruct (clock s - lastRequestTime s <? MIN_REQUEST_INTERVAL) eqn:Hd.
    + apply Z.ltb_lt in Hd. constructor; try assumption.
      rewrite wakes_setTimeout, Hw. simpl.
      repeat split; try assumption.
      * rewrite Hq. discriminate.
      * unfold MIN_REQUEST_INTERVAL in *. lia.
    + apply Z.ltb_ge in Hd. apply IH.
      * reflexivity.
      * exact Hp.
      * now rewrite wakes_dispatch.
      * simpl. rewrite Hc, length_app. simpl. unfold completing. simpl. lia.
      * simpl. unfold MAX_CONCURRENT_REQUESTS in *. lia.
      * simpl. split; [|exact Hs].
        destruct (posted s) as [|[[t rid] name] rest]; [exact I|].
        destruct Hl as [-> _]. lia.
      * simpl. split; [reflexivity|lia].
Qed.

Lemma dispatch_bridge r s : BridgeInv s -> BridgeInv (dispatch r s).
Proof.
  intros [H1 H2 H3]. constructor; simpl.
  - rewrite List.map_app. simpl. apply NoDup_app. split; [exact H1|]. split.
    + intros rid Hin [<-|[]]%list_elem_of_In.
      apply list_elem_of_In, in_map_iff in Hin as (r' & Heq & Hr').
      specialize (H2 r' Hr'). lia.
    + apply NoDup_singleton.
  - intros r' [Hr'|[<-|[]]]%in_app_or; simpl; [|lia].
    specialize (H2 r' Hr'). lia.
  - intros r' [Hr'|[<-|[]]]%in_app_or; simpl.
    + destruct (H3 r' Hr') as (t & Ht1 & Ht2). exists t. split.
      * apply in_or_app. now left.
      * now right.
    + exists (clock s). split.
      * apply in_or_app. right. now left.
      * now left.
Qed.

Lemma dispatchLoop_bridge q : forall s, BridgeInv s -> BridgeInv (dispatchLoop q s).
Proof.
  induction q as [|r q IH]; intros s H; simpl.
  - now apply (BridgeInv_grow s).
  - destruct (_ <? MAX_CONCURRENT_REQUESTS); [|now apply (BridgeInv_grow s)].
    destruct (_ <? MIN_REQUEST_INTERVAL).
    + apply (BridgeInv_grow s); try reflexivity; [|exact H].
      intros x Hx. simpl. apply in_or_app. now left.
    + apply IH. apply dispatch_bridge. now apply (BridgeInv_grow s).
Qed.

Lemma perm_move {A} (x : A) (l1 l2 l3 : list A) :
  (l1 ++ l2 ++ x :: l3)%list ≡ₚ (x :: l1 ++ l2 ++ l3)%list.
Proof.
  rewrite (app_assoc l1 l2 (x :: l3)), (app_assoc l1 l2 l3).
  symmetry. apply Permutation_middle.
Qed.

Lemma dispatch_names r s : processingUsernames (dispatch r s) = processingUsernames s.
Proof. reflexivity. Qed.

Lemma dispatchLoop_names q : forall s,
  processingUsernames (dispatchLoop q s) = processingUsernames s.
Proof.
  induction q as [|r q IH]; intros s; simpl; [reflexivity|].
  destruct (_ <? MAX_CONCURRENT_REQUESTS); [|reflexivity].
  destruct (_ <? MIN_REQUEST_INTERVAL); [reflexivity|].
  now rewrite IH.
Qed.

Lemma dispatchLoop_inFlight q : forall s,
  requestQueue s = q -> inFlight (dispatchLoop q s) ≡ₚ inFlight s.
Proof.
  induction q as [|r q IH]; intros s Hq; simpl; [reflexivity|].
  destruct (_ <? MAX_CONCURRENT_REQUESTS); [|reflexivity].
  destruct (_ <? MIN_REQUEST_INTERVAL); [reflexivity|].
  rewrite IH by reflexivity. unfold inFlight, waiters. simpl. rewrite Hq. simpl.
  rewrite ?List.map_app. simpl. rewrite ?List.map_app. simpl.
  rewrite <- (app_assoc (List.map screenName (List.map b_waiter (listeners s)))).
  apply perm_move.
Qed.

Lemma processRequestQueue_inv e s : Inv e s -> Inv e (processRequestQueue s).
Proof.
  intros Hinv. pose proof Hinv as (HQ & HB & HA). unfold processRequestQueue.
  destruct (isProcessingQueue s) eqn:Hp; simpl; [exact Hinv|].
  case_bool_decide as Hq; [exact Hinv|].
  destruct (_ && _).
  { apply (Inv_quiet e s); [|exact Hinv].
    now apply setTimeout_quiet. }
  set (s1 := if 0 <? rateLimitResetTime s then with_rateLimitResetTime 0 s else s).
  assert (Hs1 : quiet s s1) by (subst s1; destruct (0 <? _); constructor; auto).
  assert (Hw : wakes s = []).
  { destruct HQ as [_ _ Hw _ _]. destruct (wakes s) as [|[due t] [|]];
      [reflexivity|destruct Hw; congruence|destruct Hw]. }
  destruct Hs1 as [E1 E2 E3 E4 E5 E6 E7 E8 E9 E10 E11 Ht].
  destruct HQ as [Hc Hb _ Hs Hl]. split; [|split].
  - apply dispatchLoop_queue.
    + reflexivity.
    + reflexivity.
    + change (wakes s1 = []). congruence.
    + change (activeRequests s1 = Z.of_nat (length (listeners s1) + completing s1)).
      unfold completing. rewrite E4, E8, E7. exact Hc.
    + change (activeRequests s1 <= MAX_CONCURRENT_REQUESTS). now rewrite E4.
    + change (spaced (posted s1)). now rewrite E10.
    + change (match posted s1 with
              | [] => True
              | (t, _, _) :: _ => t = lastRequestTime s1 /\ t <= clock s1
              end).
      now rewrite E10, E3, E6.
  - apply dispatchLoop_bridge. apply (BridgeInv_grow s); simpl; auto.
  - apply (AnnotInv_perm e e s); [| |exact HA].
    + rewrite dispatchLoop_names. simpl. exact E5.
    + apply Permutation_app_head.
      transitivity (inFlight (with_isProcessingQueue true s1)).
      * exact (dispatchLoop_inFlight _ (with_isProcessingQueue true s1) eq_refl).
      * unfold inFlight, waiters. simpl. now rewrite E1, E8, E7.
Qed.

End QueueSteps.

Section AnnotatorSteps.

Lemma fold_left_inv {A B} (P : A -> Prop) (f : A -> B -> A) (l : list B) :
  (forall a b, P a -> P (f a b)) -> forall a, P a -> P (fold_left f l a).
Proof. intros Hf. induction l as [|b l IH]; intros a Ha; simpl; auto. Qed.

(** A request joins the queue for an annotation that just started. *)
Lemma push_inv e name n w s :
  screenName w = name ->
  Inv (name :: e) s ->
  Inv e (with_requestQueue
           (requestQueue s ++ [{| q_screenName := n; q_waiter := w |}]) s).
Proof.
  intros Hw ([Hc Hb Hwk Hs Hl] & HB & HA). split; [|split].
  - constructor; try assumption.
    change (wakes (with_requestQueue _ s)) with (wakes s).
    destruct (wakes s) as [|[due t] [|]]; try assumption.
    destruct Hwk as (H1 & H2 & H3 & H4). repeat split; try assumption.
    simpl. now destruct (requestQueue s).
  - now apply (BridgeInv_grow s).
  - apply (AnnotInv_perm (name :: e) e s); [reflexivity| |exact HA].
    unfold inFlight, waiters. simpl.
    rewrite !List.map_app. simpl. rewrite Hw. solve_Permutation.
Qed.

Lemma enqueue_resume_inv e name w r s :
  screenName w = name ->
  Inv (name :: e) s -> Inv e (enqueueJob (J_resume w r) s).
Proof.
  intros Hw (HQ & HB & HA). split; [|split].
  - apply (QueueInv_ext s); try reflexivity; [|exact HQ].
    apply enqueue_resume_quiet_queue.
  - now apply (BridgeInv_grow s).
  - apply (AnnotInv_perm (name :: e) e s); [reflexivity| |exact HA].
    unfold inFlight, waiters. simpl.
    rewrite flat_map_app. simpl. rewrite !List.map_app. simpl. rewrite Hw.
    solve_Permutation.
Qed.

Lemma getUserLocation_inv e name w s :
  screenName w = name ->
  Inv (name :: e) s ->
  match getUserLocation name w s with
  | (Cached _, s') => s' = s
  | (Queued, s') => Inv e s'
  end.
Proof.
  intros Hw H. unfold getUserLocation.
  destruct (locationCache s !! name) as [[cached|]|]; [reflexivity| |].
  - apply processRequestQueue_inv.
    apply (push_inv e name name w (with_locationCache _ s) Hw).
    apply (Inv_quiet _ s); [constructor; auto|exact H].
  - apply processRequestQueue_inv. exact (push_inv e name name w s Hw H).
Qed.

(** An annotation starts: its handle enters the in-flight set. *)
Lemma start_inv e name s :
  name ∉ processingUsernames s ->
  Inv e s ->
  Inv (name :: e)
    (with_processingUsernames (({[name]} : gset string) ∪ processingUsernames s) s).
Proof.
  intros Hn (HQ & HB & [H1 H2]). split; [|split].
  - now apply (QueueInv_ext s).
  - now apply (BridgeInv_grow s).
  - constructor.
    + change (NoDup (name :: (e ++ inFlight s))). apply NoDup_cons. split; [|exact H1].
      intros Hin. apply Hn. now apply H2.
    + intros h. simpl. rewrite elem_of_union, elem_of_singleton, elem_of_cons.
      change (inFlight (with_processingUsernames _ s)) with (inFlight s).
      intros [->|Hin]; [now left|right; now apply H2].
Qed.

(** What [addFlagToUsername] passes through, written over the states its
    steps go through: [P] holds of the result when it holds where the call
    returns at once, where it ends by a raise of the code before the [try]
    (the page differs from the state [s2] in which the handle has entered
    the set), and where the lookup is made. *)
Lemma addFlagToUsername_cases (P : State -> Prop) el name s :
  (flagAddedIs el "true" s = true -> P s) ->
  (name ∈ processingUsernames s -> P (setTimeout (T_waiting el) 500 s)) ->
  (forall s2 s4,
      name ∉ processingUsernames s ->
      s2 = with_processingUsernames
             (({[name]} : gset string) ∪ processingUsernames s)
             (setFlagAdded el "processing" s) ->
      pageOnly s2 s4 ->
      P s4
      /\ forall w,
           screenName w = name -> usernameElement w = el ->
           match getUserLocation name w s4 with
           | (Cached location, s5) =>
               P (enqueueJob (J_resume w (Fulfilled (Some location))) s5)
           | (Queued, s5) => P s5
           end) ->
  P (snd (addFlagToUsername el name s)).
Proof.
  intros Hdone Hdup Hnew. unfold addFlagToUsername.
  destruct (flagAddedIs el "true" s) eqn:Ef; [now apply Hdone|].
  case_bool_decide as Hn; [now apply Hdup|].
  set (s2 := with_processingUsernames _ _).
  pose proof (shimmer_page name s2) as Hp.
  destruct (createLoadingShimmer s2) as [[sh|] s3].
  2:{ simpl. exact (proj1 (Hnew s2 s3 Hn eq_refl Hp)). }
  destruct Hp as [Hp Hins].
  destruct (userNameContainerOf el (document s2)) as [c|].
  - destruct (insertShimmer c name sh s3) as [s4|] eqn:E4.
    + pose proof (proj2 (Hnew s2 s4 Hn eq_refl (Hins c s4 E4))
                    {| usernameElement := el; screenName := name;
                       userNameContainer := Some c; shimmerSpan := sh;
                       shimmerInserted := true |} eq_refl eq_refl) as HG.
      now destruct (getUserLocation _ _ s4) as [[loc|] s5].
    + simpl. exact (proj1 (Hnew s2 s3 Hn eq_refl Hp)).
  - pose proof (proj2 (Hnew s2 s3 Hn eq_refl Hp)
                  {| usernameElement := el; screenName := name;
                     userNameContainer := None; shimmerSpan := sh;
                     shimmerInserted := false |} eq_refl eq_refl) as HG.
    now destruct (getUserLocation _ _ s3) as [[loc|] s5].
Qed.

(** The handler of [.catch] is a job when the call raised, and only then. *)
Lemma startAnnotation_cases (P : State -> Prop) c name s :
  P (snd (addFlagToUsername c name s)) ->
  (forall s', P s' -> P (enqueueJob (J_failed c) s')) ->
  P (startAnnotation c name s).
Proof.
  intros H Hj. unfold startAnnotation.
  destruct (addFlagToUsername c name s) as [[|] s']; simpl in H; [exact H|].
  now apply Hj.
Qed.

Lemma addFlagToUsername_inv e el name s :
  Inv e s -> Inv e (snd (addFlagToUsername el name s)).
Proof.
  intros H. apply addFlagToUsername_cases.
  - intros _. exact H.
  - intros _. apply (Inv_quiet e s); [|exact H]. now apply setTimeout_quiet.
  - intros s2 s4 Hn -> Hp.
    assert (H4 : Inv (name :: e) s4).
    { apply (Inv_page _ _ _ Hp).
      apply (start_inv e name (setFlagAdded el "processing" s) Hn).
      apply (Inv_page e s); [apply setFlagAdded_page|exact H]. }
    split; [exact (Inv_drop _ _ _ H4)|].
    intros w Hw _.
    pose proof (getUserLocation_inv e name w s4 Hw H4) as HG.
    destruct (getUserLocation name w s4) as [[loc|] s5].
    + subst s5. now apply (enqueue_resume_inv e name).
    + exact HG.
Qed.

Lemma redriveWaiting_inv e name s : Inv e s -> Inv e (redriveWaiting name s).
Proof.
  unfold redriveWaiting. apply fold_left_inv. intros a c Ha.
  destruct (getNode c (document a)); [|exact Ha].
  case_bool_decide; [now apply addFlagToUsername_inv|exact Ha].
Qed.

Lemma startAnnotation_inv e c name s : Inv e s -> Inv e (startAnnotation c name s).
Proof.
  intros H. apply startAnnotation_cases.
  - now apply addFlagToUsername_inv.
  - intros s'. apply enqueue_failed_inv.
Qed.

Lemma scanContainer_inv e s c : Inv e s -> Inv e (scanContainer s c).
Proof.
  intros H. unfold scanContainer.
  destruct (getNode c (document s)) as [container|]; [|exact H].
  destruct (extractUsername container) as [name|]; [|exact H].
  destruct (Str.orNull _) as [status|]; [|now apply startAnnotation_inv].
  destruct (Str.eqb status "failed"); [now apply startAnnotation_inv|exact H].
Qed.

Lemma processUsernames_inv e s : Inv e s -> Inv e (processUsernames s).
Proof.
  intros H. unfold processUsernames. destruct (negb _); [exact H|].
  revert H. apply fold_left_inv. intros a c. apply scanContainer_inv.
Qed.

Variable getCountryFlag : string -> Completion (option string).

Lemma tryBlock_inv e w loc s :
  Inv e s -> Inv e (snd (tryBlock getCountryFlag w loc s)).
Proof.
  intros H. unfold tryBlock.
  assert (H1 : Inv e (removeShimmer w s))
    by (apply (Inv_page e s); [apply removeShimmer_page|exact H]).
  destruct (Str.orNull loc) as [l|]; simpl.
  2:{ apply (Inv_page e (removeShimmer w s)); [apply setFlagAdded_page|exact H1]. }
  destruct (getCountryFlag l) as [flag|]; [|exact H1].
  destruct (Str.orNull flag) as [f|]; simpl.
  2:{ apply (Inv_page e (removeShimmer w s)); [apply setFlagAdded_page|exact H1]. }
  destruct (getNode _ _ ≫= _); simpl.
  { apply (Inv_page e (removeShimmer w s)); [apply setFlagAdded_page|exact H1]. }
  destruct (match userNameContainer w with Some c => Some c | None => _ end); simpl.
  2:{ apply (Inv_page e (removeShimmer w s)); [|exact H1].
      eapply pageOnly_trans; [apply pageOnly_nextNode|apply setFlagAdded_page]. }
  destruct (insertFlag _ _ _ _); simpl.
  - apply redriveWaiting_inv. apply (Inv_page e (removeShimmer w s)); [|exact H1].
    eapply pageOnly_trans; [apply pageOnly_nextNode|].
    eapply pageOnly_trans; [apply pageOnly_document|apply setFlagAdded_page].
  - apply (Inv_page e (removeShimmer w s)); [apply pageOnly_nextNode|exact H1].
Qed.

Lemma finallyBlock_inv e w s :
  Inv (screenName w :: e) s -> Inv e (finallyBlock w s).
Proof.
  intros (HQ & HB & [H1 H2]). split; [|split].
  - now apply (QueueInv_ext s).
  - now apply (BridgeInv_grow s).
  - change (NoDup (screenName w :: (e ++ inFlight s))) in H1.
    apply NoDup_cons in H1 as [Hn H1]. constructor; [exact H1|].
    intros h Hin. simpl. rewrite elem_of_difference, elem_of_singleton.
    change (inFlight (finallyBlock w s)) with (inFlight s) in Hin.
    split; [apply H2; simpl; apply elem_of_cons; now right|].
    intros ->. contradiction.
Qed.

Lemma resume_inv e w r s :
  Inv (screenName w :: e) s -> Inv e (resume getCountryFlag w r s).
Proof.
  intros H. unfold resume. apply finallyBlock_inv.
  destruct r as [loc|].
  - pose proof (tryBlock_inv _ w loc s H) as HT.
    destruct (tryBlock getCountryFlag w loc s) as [[|] s']; simpl in HT; [exact HT|].
    apply (Inv_page _ s'); [apply catchBlock_page|exact HT].
  - apply (Inv_page _ s); [apply catchBlock_page|exact H].
Qed.

End AnnotatorSteps.

Section BridgeSteps.

Lemma others_fresh rid ls :
  ~ In rid (List.map requestId ls) -> others rid ls = ls.
Proof.
  induction ls as [|r ls IH]; simpl; intros H; [reflexivity|].
  destruct (Nat.eqb_spec (requestId r) rid) as [E|E]; simpl.
  - exfalso. apply H. now left.
  - f_equal. apply IH. intros Hin. apply H. now right.
Qed.

(** Removing the listener of a request removes that request only. *)
Lemma others_split r ls :
  NoDup (List.map requestId ls) -> In r ls ->
  ls ≡ₚ r :: others (requestId r) ls.
Proof.
  induction ls as [|x ls IH]; simpl; intros Hn Hin; [destruct Hin|].
  apply NoDup_cons in Hn as [Hx Hn].
  destruct Hin as [->|Hin].
  - rewrite Nat.eqb_refl. simpl. rewrite others_fresh; [reflexivity|].
    intros H. apply Hx. now apply list_elem_of_In.
  - destruct (Nat.eqb_spec (requestId x) (requestId r)) as [E|E]; simpl.
    + exfalso. apply Hx. rewrite E. apply list_elem_of_In, in_map. exact Hin.
    + rewrite (IH Hn Hin) at 1. apply Permutation_swap.
Qed.

Lemma in_others r rid ls : In r (others rid ls) <-> In r ls /\ requestId r <> rid.
Proof.
  unfold others. rewrite filter_In, negb_true_iff, Nat.eqb_neq. reflexivity.
Qed.

Lemma NoDup_others rid ls :
  NoDup (List.map requestId ls) -> NoDup (List.map requestId (others rid ls)).
Proof.
  induction ls as [|x ls IH]; simpl; intros Hn; [constructor|].
  apply NoDup_cons in Hn as [Hx Hn].
  destruct (negb _); simpl; [|now apply IH].
  apply NoDup_cons. split; [|now apply IH].
  intros Hin. apply Hx. apply list_elem_of_In, in_map_iff in Hin as (y & E & Hy).
  apply in_others in Hy as [Hy _]. rewrite <- E.
  apply list_elem_of_In, in_map. exact Hy.
Qed.

Lemma completing_enqueue j s :
  isCompletion j = true -> completing (enqueueJob j s) = S (completing s).
Proof.
  intros H. unfold completing, enqueueJob. simpl.
  rewrite List.filter_app, length_app. simpl. rewrite H. simpl. lia.
Qed.

Lemma settled_queue r v s :
  NoDup (List.map requestId (listeners s)) -> In r (listeners s) ->
  QueueInv s -> QueueInv (settled r v s).
Proof.
  intros Hn Hin [Hc Hb Hw Hs Hl]. constructor; try assumption.
  unfold settled. rewrite completing_enqueue by reflexivity.
  simpl. fold (others (requestId r) (listeners s)).
  change (completing (removeListener (requestId r) s)) with (completing s).
  rewrite Hc. apply others_split in Hin; [|exact Hn].
  apply Permutation_length in Hin. simpl in Hin. lia.
Qed.

Lemma settled_annot e r v s :
  NoDup (List.map requestId (listeners s)) -> In r (listeners s) ->
  AnnotInv e s -> AnnotInv e (settled r v s).
Proof.
  intros Hn Hin. apply AnnotInv_perm; [reflexivity|].
  unfold inFlight, waiters, settled. simpl.
  fold (others (requestId r) (listeners s)).
  rewrite (others_split r (listeners s) Hn Hin) at 2.
  rewrite flat_map_app. simpl. rewrite !List.map_app. simpl.
  rewrite ?List.map_app. solve_Permutation.
Qed.

(** After the listener of [rid] is gone, the other requests are as
    they were, whatever happened to the timer of [rid]. *)
Lemma settled_bridge rid s s' :
  listeners s' = others rid (listeners s) ->
  nextRequest s' = nextRequest s -> posted s' = posted s ->
  (forall x, In x (timers s) ->
     (forall due, x <> (due, T_bridgeTimeout rid)) -> In x (timers s')) ->
  BridgeInv s -> BridgeInv s'.
Proof.
  intros E1 E2 E3 Ht [H1 H2 H3]. constructor; rewrite ?E1, ?E2, ?E3.
  - now apply NoDup_others.
  - intros r [Hr _]%in_others. now apply H2.
  - intros r [Hr Hne]%in_others. destruct (H3 r Hr) as (t & Ht1 & Ht2).
    exists t. split; [|exact Ht2]. apply Ht; [exact Ht1|]. congruence.
Qed.

Lemma enqueue_saveCacheEntry j u l s :
  enqueueJob j (saveCacheEntry u l s) = saveCacheEntry u l (enqueueJob j s).
Proof.
  unfold saveCacheEntry, enqueueJob. simpl.
  destruct (negb (runtimeValid s)); [reflexivity|]. simpl.
  destruct (saveCacheTimeout s); reflexivity.
Qed.

Lemma handler_unmatched r data s : matches data r = false -> handler r data s = s.
Proof.
  unfold matches, handler. destruct data; try reflexivity. now intros ->.
Qed.

Lemma handler_matched r data s :
  matches data r = true ->
  exists u l v, handler r data s = saveCacheEntry u l (settled r v s)
                \/ handler r data s = settled r v s.
Proof.
  unfold matches, handler. destruct data as [name rid loc lim| |]; try discriminate.
  intros ->. exists (b_screenName r), (Str.orNull loc), (Str.orNull loc).
  destruct lim; simpl; [now right|left].
  unfold settled. now rewrite enqueue_saveCacheEntry.
Qed.

Lemma settled_inv e r v s :
  In r (listeners s) -> Inv e s -> Inv e (settled r v s).
Proof.
  intros Hin (HQ & HB & HA). pose proof (b_distinct s HB) as Hn.
  split; [|split].
  - now apply settled_queue.
  - apply (settled_bridge (requestId r) s); try reflexivity; [|exact HB].
    intros x Hx _. exact Hx.
  - now apply settled_annot.
Qed.

Lemma handler_inv e r data s :
  In r (listeners s) -> Inv e s -> Inv e (handler r data s).
Proof.
  intros Hin H. destruct (matches data r) eqn:E.
  - destruct (handler_matched r data s E) as (u & l & v & [-> | ->]).
    + apply (Inv_quiet e (settled r v s)); [apply saveCacheEntry_quiet|].
      now apply settled_inv.
    + now apply settled_inv.
  - now rewrite handler_unmatched.
Qed.

Lemma handler_listeners r data s :
  listeners (handler r data s) = listeners s
  \/ listeners (handler r data s) = others (requestId r) (listeners s).
Proof.
  destruct (matches data r) eqn:E.
  - right. destruct (handler_matched r data s E) as (u & l & v & [-> | ->]).
    + unfold saveCacheEntry. destruct (negb _); [reflexivity|]. simpl.
      destruct (saveCacheTimeout _); reflexivity.
    + reflexivity.
  - left. now rewrite handler_unmatched.
Qed.

Lemma handlers_inv e data rs : forall s,
  NoDup (List.map requestId rs) ->
  (forall r, In r rs -> In r (listeners s)) ->
  Inv e s -> Inv e (fold_left (fun s r => handler r data s) rs s).
Proof.
  induction rs as [|r rs IH]; intros s Hn Hin H; simpl; [exact H|].
  apply NoDup_cons in Hn as [Hr Hn]. apply IH; [exact Hn| |].
  - intros r' Hr'. assert (In r' (listeners s)) by (apply Hin; now right).
    destruct (handler_listeners r data s) as [-> | ->]; [assumption|].
    apply in_others. split; [assumption|]. intros E. apply Hr.
    rewrite <- E. apply list_elem_of_In, in_map. exact Hr'.
  - apply handler_inv; [|exact H]. apply Hin. now left.
Qed.

Lemma onWindowMessage_inv e data s : Inv e s -> Inv e (onWindowMessage data s).
Proof.
  intros H. unfold onWindowMessage.
  set (s1 := if observing s then rateLimitListener data s else s).
  assert (Hq : quiet s s1).
  { subst s1. destruct (observing s); [|apply quiet_refl].
    destruct data; simpl; constructor; auto. }
  assert (H1 : Inv e s1) by now apply (Inv_quiet e s).
  replace (listeners s) with (listeners s1) by apply Hq.
  apply handlers_inv; [|auto|exact H1].
  destruct H1 as (_ & HB & _). apply HB.
Qed.

End BridgeSteps.

Section EventSteps.

Variable getCountryFlag : string -> Completion (option string).

Lemma runJob_inv j rest s :
  jobs s = j :: rest -> Inv [] s -> Inv [] (runJob getCountryFlag j (with_jobs rest s)).
Proof.
  intros E (HQ & HB & HA). destruct j as [w v| | |w r|c]; simpl.
  5:{ apply (Inv_page [] (with_jobs rest s)); [apply setFlagAdded_page|].
      split; [|split].
      - apply (QueueInv_ext s); try reflexivity; [|exact HQ].
        unfold completing. simpl. now rewrite E.
      - now apply (BridgeInv_grow s).
      - apply (AnnotInv_perm [] [] s); [reflexivity| |exact HA].
        unfold inFlight, waiters. simpl. now rewrite E. }
  - split; [|split].
    + apply (QueueInv_ext s); try reflexivity; [|exact HQ].
      unfold completing. simpl. rewrite E, !List.filter_app. simpl.
      rewrite !length_app. simpl. lia.
    + now apply (BridgeInv_grow s).
    + apply (AnnotInv_perm [] [] s); [reflexivity| |exact HA].
      unfold inFlight, waiters. simpl. rewrite E, !flat_map_app. simpl.
      rewrite !List.map_app. simpl. solve_Permutation.
  - split; [|split].
    + apply (QueueInv_ext s); try reflexivity; [|exact HQ].
      unfold completing. simpl. rewrite E, !List.filter_app. simpl.
      rewrite !length_app. simpl. lia.
    + now apply (BridgeInv_grow s).
    + apply (AnnotInv_perm [] [] s); [reflexivity| |exact HA].
      unfold inFlight, waiters. simpl. rewrite E, !flat_map_app. simpl.
      now rewrite app_nil_r.
  - split; [|split].
    + destruct HQ as [Hc Hb Hw Hs Hl].
      assert (Hcs : completing s = S (length (List.filter isCompletion rest)))
        by (unfold completing; now rewrite E).
      constructor; simpl; try assumption.
      * unfold completing. simpl. lia.
      * lia.
      * rewrite wakes_setTimeout. simpl. rewrite app_nil_r.
        change (wakes (with_activeRequests _ (with_jobs rest s))) with (wakes s).
        destruct (wakes s) as [|[due t] [|]]; try assumption.
        destruct Hw as (H1 & H2 & H3 & H4). repeat split; try assumption. lia.
    + apply (BridgeInv_grow s); try reflexivity; [|exact HB].
      intros x Hx. simpl. apply in_or_app. now left.
    + apply (AnnotInv_perm [] [] s); [reflexivity| |exact HA].
      unfold inFlight, waiters. simpl. now rewrite E.
  - apply resume_inv. split; [|split].
    + apply (QueueInv_ext s); try reflexivity; [|exact HQ].
      unfold completing. simpl. now rewrite E.
    + now apply (BridgeInv_grow s).
    + apply (AnnotInv_perm [] [screenName w] s); [reflexivity| |exact HA].
      unfold inFlight, waiters. simpl. rewrite E. simpl.
      rewrite !List.map_app. simpl. solve_Permutation.
Qed.

Lemma timers_split (l : list (Z * Task)) i x :
  l !! i = Some x ->
  exists l1 l2, l = (l1 ++ x :: l2)%list /\ delete i l = (l1 ++ l2)%list.
Proof.
  intros H. exists (take i l), (drop (S i) l). split.
  - symmetry. now apply take_drop_middle.
  - apply delete_take_drop.
Qed.

Lemma in_delete (l : list (Z * Task)) i x y :
  l !! i = Some y -> In x l -> x <> y -> In x (delete i l).
Proof.
  intros Hi Hx Hne. destruct (timers_split _ _ _ Hi) as (l1 & l2 & E1 & ->).
  rewrite E1 in Hx. apply in_app_or in Hx as [Hx|[Hx|Hx]].
  - apply in_or_app. now left.
  - congruence.
  - apply in_or_app. now right.
Qed.

Lemma wakes_delete i due t s :
  timers s !! i = Some (due, t) -> isWake (due, t) = false ->
  wakes (with_timers (delete i (timers s)) s) = wakes s.
Proof.
  intros Hi Hw. destruct (timers_split _ _ _ Hi) as (l1 & l2 & E1 & E2).
  unfold wakes. simpl. rewrite E2, E1, !List.filter_app. simpl. now rewrite Hw.
Qed.

(** The bridge after a timer fired: no listener is left whose timeout it
    was. *)
Lemma bridge_after_fire i due t s s' :
  timers s !! i = Some (due, t) ->
  (forall r, In r (listeners s') ->
     In r (listeners s) /\ t <> T_bridgeTimeout (requestId r)) ->
  NoDup (List.map requestId (listeners s')) ->
  nextRequest s' = nextRequest s -> posted s' = posted s ->
  (forall x, In x (delete i (timers s)) -> In x (timers s')) ->
  BridgeInv s -> BridgeInv s'.
Proof.
  intros Hi Hl Hn E2 E3 Ht [H1 H2 H3]. constructor; rewrite ?E2, ?E3.
  - exact Hn.
  - intros r [Hr _]%Hl. now apply H2.
  - intros r [Hr Hne]%Hl. destruct (H3 r Hr) as (t0 & Ht1 & Ht2).
    exists t0. split; [|exact Ht2]. apply Ht.
    apply (in_delete _ _ _ _ Hi Ht1). congruence.
Qed.

Lemma dispatch_inFlight r q s :
  requestQueue s = r :: q ->
  inFlight (dispatch r (with_requestQueue q s)) ≡ₚ inFlight s.
Proof.
  intros Hq. unfold inFlight, waiters. simpl. rewrite Hq. simpl.
  rewrite ?List.map_app. simpl. solve_Permutation.
Qed.

(** The [await] of the dispatch loop ends. *)
Lemma queueWake_inv i due s :
  timers s !! i = Some (due, T_queueWake) -> due <= clock s ->
  Inv [] s -> Inv [] (queueWake (with_timers (delete i (timers s)) s)).
Proof.
  intros Hi Hdue (HQ & HB & HA).
  destruct (timers_split _ _ _ Hi) as (l1 & l2 & E1 & E2).
  destruct HQ as [Hc Hb Hw Hs Hl].
  assert (Hws : wakes s = (List.filter isWake l1 ++ (due, T_queueWake)
                             :: List.filter isWake l2)%list).
  { unfold wakes. now rewrite E1, List.filter_app. }
  assert (Hw0 : wakes (with_timers (delete i (timers s)) s) = []
                /\ isProcessingQueue s = true
                /\ activeRequests s < MAX_CONCURRENT_REQUESTS
                /\ requestQueue s <> []
                /\ lastRequestTime s + MIN_REQUEST_INTERVAL <= due).
  { unfold wakes at 1. simpl. rewrite E2, List.filter_app.
    rewrite Hws in Hw.
    destruct (List.filter isWake l1) as [|x1 f1]; simpl in *.
    - destruct (List.filter isWake l2) as [|x2 f2]; [|destruct Hw].
      split; [reflexivity|exact Hw].
    - destruct x1. destruct f1; simpl in Hw; destruct Hw. }
  destruct Hw0 as (Hw0 & Hp & Ha & Hne & Hlast).
  unfold queueWake. simpl.
  destruct (requestQueue s) as [|r q] eqn:Hq; [congruence|].
  set (s0 := with_timers (delete i (timers s)) s) in *.
  split; [|split].
  - apply dispatchLoop_queue.
    + reflexivity.
    + exact Hp.
    + rewrite wakes_dispatch. exact Hw0.
    + simpl. rewrite Hc, length_app. simpl. unfold completing. simpl. lia.
    + simpl. unfold MAX_CONCURRENT_REQUESTS in *. lia.
    + simpl. split; [|exact Hs].
      destruct (posted s) as [|[[t rid] name] rest]; [exact I|].
      destruct Hl as [-> _]. lia.
    + simpl. split; [reflexivity|lia].
  - apply dispatchLoop_bridge, dispatch_bridge.
    apply (bridge_after_fire i due T_queueWake s); try reflexivity; [exact Hi| | | |exact HB].
    + intros r' Hr'. split; [exact Hr'|discriminate].
    + apply HB.
    + intros x Hx. exact Hx.
  - apply (AnnotInv_perm [] [] s); [| |exact HA].
    + now rewrite dispatchLoop_names.
    + simpl. transitivity (inFlight (dispatch r (with_requestQueue q s0))).
      * exact (dispatchLoop_inFlight q (dispatch r (with_requestQueue q s0)) eq_refl).
      * exact (dispatch_inFlight r q s0 Hq).
Qed.

Lemma bridgeTimeout_inv i due rid s :
  timers s !! i = Some (due, T_bridgeTimeout rid) ->
  Inv [] s -> Inv [] (bridgeTimeout rid (with_timers (delete i (timers s)) s)).
Proof.
  intros Hi (HQ & HB & HA).
  set (s0 := with_timers (delete i (timers s)) s).
  assert (HQ0 : QueueInv s0).
  { apply (QueueInv_ext s); try reflexivity; [|exact HQ].
    now apply (wakes_delete i due (T_bridgeTimeout rid)). }
  assert (HA0 : AnnotInv [] s0) by now apply (AnnotInv_perm [] [] s).
  unfold bridgeTimeout. change (listeners s0) with (listeners s).
  destruct (List.find _ (listeners s)) as [r|] eqn:F.
  - apply find_some in F as [Hr Hrid]. apply Nat.eqb_eq in Hrid. subst rid.
    change (enqueueJob _ _) with (settled r None s0).
    split; [|split].
    + apply settled_queue; [apply HB|exact Hr|exact HQ0].
    + apply (bridge_after_fire i due _ s _ Hi); try reflexivity; [| | |exact HB].
      * intros r' [Hr' Hne]%in_others. split; [exact Hr'|congruence].
      * apply NoDup_others, HB.
      * intros x Hx. exact Hx.
    + apply settled_annot; [apply HB|exact Hr|exact HA0].
  - split; [exact HQ0|split; [|exact HA0]].
    apply (bridge_after_fire i due _ s _ Hi); try reflexivity; [| | |exact HB].
    + intros r' Hr'. split; [exact Hr'|]. intros [= ->].
      apply (find_none _ _ F) in Hr'. now rewrite Nat.eqb_refl in Hr'.
    + apply HB.
    + intros x Hx. exact Hx.
Qed.

(** Any other timer is taken off the list. *)
Lemma fired_inv i due t s :
  timers s !! i = Some (due, t) ->
  isWake (due, t) = false -> (forall rid, t <> T_bridgeTimeout rid) ->
  Inv [] s -> Inv [] (with_timers (delete i (timers s)) s).
Proof.
  intros Hi Hw Ht (HQ & HB & HA). split; [|split].
  - apply (QueueInv_ext s); try reflexivity; [|exact HQ].
    now apply (wakes_delete i due t).
  - apply (bridge_after_fire i due t s _ Hi); try reflexivity; [| | |exact HB].
    + intros r' Hr'. split; [exact Hr'|apply Ht].
    + apply HB.
    + intros x Hx. exact Hx.
  - now apply (AnnotInv_perm [] [] s).
Qed.

Lemma runTask_inv i due t s :
  timers s !! i = Some (due, t) -> due <= clock s ->
  Inv [] s -> Inv [] (runTask t (with_timers (delete i (timers s)) s)).
Proof.
  intros Hi Hdue H. destruct t; simpl.
  - apply processUsernames_inv. now apply (fired_inv i due T_processUsernames).
  - apply processRequestQueue_inv. now apply (fired_inv i due T_processRequestQueue).
  - now apply (queueWake_inv i due).
  - now apply (bridgeTimeout_inv i due).
  - eapply Inv_page; [apply waitingWake_page|].
    now apply (fired_inv i due (T_waiting el)).
  - eapply Inv_quiet; [|apply (fired_inv i due T_saveCacheTimeout); eauto; discriminate].
    apply saveCacheCallback_quiet.
  - eapply Inv_quiet; [|apply (fired_inv i due T_saveCacheWritten); eauto; discriminate].
    constructor; auto.
  - eapply Inv_quiet; [|apply (fired_inv i due T_saveCacheInterval); eauto; discriminate].
    eapply quiet_trans; [|apply saveCache_quiet].
    constructor; try reflexivity.
    + unfold wakes. simpl. rewrite List.filter_app. simpl. apply app_nil_r.
    + intros x Hx. simpl. apply in_or_app. now left.
Qed.

Lemma step_inv s ev : Inv [] s -> Inv [] (step getCountryFlag s ev).
Proof.
  intros H. destruct ev as [dt|i| |data|enabled|doc added url|]; simpl.
  - destruct (dt <? 0) eqn:E; [exact H|]. apply Z.ltb_ge in E.
    destruct H as ([Hc Hb Hw Hs Hl] & HB & HA). split; [|split].
    + constructor; try assumption. simpl.
      destruct (posted s) as [|[[t rid] name] rest]; [exact I|].
      destruct Hl as [Hl1 Hl2]. split; [exact Hl1|lia].
    + now apply (BridgeInv_grow s).
    + now apply (AnnotInv_perm [] [] s).
  - destruct (idle s); [|exact H].
    destruct (timers s !! i) as [[due t]|] eqn:Hi; [|exact H].
    destruct (due <=? clock s) eqn:E; [|exact H]. apply Z.leb_le in E.
    now apply (runTask_inv i due).
  - destruct (jobs s) as [|j rest] eqn:E; [exact H|]. now apply runJob_inv.
  - destruct (idle s); [|exact H]. now apply onWindowMessage_inv.
  - destruct (idle s); [|exact H]. unfold onExtensionToggle.
    destruct enabled.
    + eapply Inv_quiet; [|exact H].
      eapply quiet_trans; [|now apply setTimeout_quiet]. constructor; auto.
    + eapply Inv_quiet; [|exact H].
      eapply quiet_trans; [|apply pageOnly_quiet, removeAllFlags_page].
      constructor; auto.
  - destruct (idle s); [|exact H]. unfold onMutation. simpl.
    eapply Inv_quiet; [|exact H].
    set (s1 := with_nextNode _ _).
    assert (H1 : quiet s s1) by (subst s1; constructor; auto).
    destruct (observing s); [|exact H1].
    set (s2 := if extensionEnabled s && added then _ else _).
    assert (H2 : quiet s s2).
    { subst s2. destruct (_ && _); [|exact H1].
      eapply quiet_trans; [exact H1|now apply setTimeout_quiet]. }
    change (observing s1) with (observing s).
    destruct url; [|exact H2].
    eapply quiet_trans; [exact H2|now apply setTimeout_quiet].
  - destruct (idle s); [|exact H]. eapply Inv_quiet; [|exact H]. constructor; auto.
Qed.

Lemma run_inv trace : forall s, Inv [] s -> Inv [] (run getCountryFlag s trace).
Proof.
  induction trace as [|ev trace IH]; intros s H; [exact H|].
  simpl. apply IH. now apply step_inv.
Qed.

End EventSteps.

Lemma init_inv doc now toggle stored valid :
  Inv [] (init doc now toggle stored valid).
Proof.
  set (s0 := {| locationCache := ∅; requestQueue := []; isProcessingQueue := false;
                lastRequestTime := 0; activeRequests := 0; rateLimitResetTime := 0;
                extensionEnabled := match toggle with
                                    | Some b => b
                                    | None => DEFAULT_ENABLED
                                    end;
                processingUsernames := ∅;
                saveCacheTimeout := false; observing := false;
                document := doc; nextNode := S (maxId doc); storage := stored;
                runtimeValid := valid; clock := now; timers := []; jobs := [];
                listeners := []; nextRequest := 0; posted := [] |}).
  assert (H0 : Inv [] s0).
  { split; [|split].
    - constructor; simpl; auto. unfold MAX_CONCURRENT_REQUESTS. lia.
    - constructor; simpl; [constructor|intros r []|intros r []].
    - constructor; simpl; [constructor|]. intros h. set_solver. }
  assert (H1 : Inv [] (loadCache s0)).
  { eapply Inv_quiet; [|exact H0]. unfold loadCache.
    destruct (negb _); [apply quiet_refl|].
    destruct (storage s0); [constructor; auto|apply quiet_refl]. }
  unfold init. fold s0. destruct (negb _); [exact H1|].
  eapply Inv_quiet; [|exact H1].
  eapply quiet_trans; [|eapply quiet_trans].
  2:{ apply (setTimeout_quiet T_processUsernames 2000). reflexivity. }
  - constructor; auto.
  - constructor; try reflexivity.
    + unfold wakes. simpl. rewrite List.filter_app. simpl. apply app_nil_r.
    + intros x Hx. simpl. apply in_or_app. now left.
Qed.

(** ** The rate limits *)

Section RateLimits.

Variable getCountryFlag : string -> Completion (option string).

(** C1.  Whatever the page, the page script and the clock do after the
    script has started, the script never counts more than
    [MAX_CONCURRENT_REQUESTS] active requests, no more than that many
    wait for an answer of the page script, and any two consecutive
    '__fetchLocation' messages are at least [MIN_REQUEST_INTERVAL] apart. *)
Theorem queue_respects_rate_limits (doc : list Node) (now : Z)
    (toggle : option bool) (stored : option (gmap string CacheEntry))
    (valid : bool) (trace : list Event) :
  let s := run getCountryFlag (init doc now toggle stored valid) trace in
  activeRequests s <= MAX_CONCURRENT_REQUESTS
  /\ Z.of_nat (length (listeners s)) <= MAX_CONCURRENT_REQUESTS
  /\ spaced (posted s).
Proof.
  intros s.
  assert (H : Inv [] s)
    by exact (run_inv getCountryFlag trace _ (init_inv doc now toggle stored valid)).
  destruct H as ([Hc Hb _ Hs _] & _ & _).
  split; [exact Hb|]. split; [lia|exact Hs].
Qed.

(** The same, read off the log: the message after the [i]-th is older
    by the interval at least. *)
Lemma spaced_lookup (l : list (Z * nat * string)) (i : nat) t2 r2 n2 t1 r1 n1 :
  spaced l ->
  l !! i = Some (t2, r2, n2) -> l !! S i = Some (t1, r1, n1) ->
  t1 + MIN_REQUEST_INTERVAL <= t2.
Proof.
  revert l. induction i as [|i IH]; intros [|[[a b] c] [|[[a' b'] c'] l]] Hs H2 H1;
    try discriminate.
  - injection H2 as -> -> ->. injection H1 as -> -> ->. apply Hs.
  - apply (IH ((a', b', c') :: l)); [apply Hs|exact H2|exact H1].
Qed.

End RateLimits.

(** ** The promise of the bridge *)

Lemma find_listener r ls :
  NoDup (List.map requestId ls) -> In r ls ->
  List.find (fun x => Nat.eqb (requestId x) (requestId r)) ls = Some r.
Proof.
  induction ls as [|x ls IH]; simpl; intros Hn Hin; [destruct Hin|].
  apply NoDup_cons in Hn as [Hx Hn]. destruct Hin as [->|Hin].
  - now rewrite Nat.eqb_refl.
  - destruct (Nat.eqb_spec (requestId x) (requestId r)) as [E|E]; [|now apply IH].
    exfalso. apply Hx. rewrite E. apply list_elem_of_In, in_map. exact Hin.
Qed.

Lemma idle_jobs s : idle s = true -> jobs s = [].
Proof. unfold idle. apply bool_decide_eq_true. Qed.

(** When its 10 s timer fires on a request that still waits, the promise is
    resolved with null. *)
Lemma bridgeTimeout_settles r s :
  NoDup (List.map requestId (listeners s)) -> In r (listeners s) ->
  bridgeTimeout (requestId r) s = settled r None s.
Proof.
  intros Hn Hin. unfold bridgeTimeout. now rewrite (find_listener r _ Hn Hin).
Qed.

Lemma handlers_unmatched data rs : forall s,
  (forall r, In r rs -> matches data r = false) ->
  fold_left (fun s r => handler r data s) rs s = s.
Proof.
  induction rs as [|r rs IH]; intros s H; cbn [fold_left]; [reflexivity|].
  rewrite handler_unmatched by (apply H; now left).
  apply IH. intros r' Hr'. apply H. now right.
Qed.

(** An answer is handled by the listener of its request, and by no other. *)
Lemma handlers_matched name rid loc lim r rs : forall s,
  NoDup (List.map requestId rs) -> In r rs ->
  requestId r = rid -> b_screenName r = name ->
  fold_left (fun s r => handler r (LocationResponse name rid loc lim) s) rs s
  = handler r (LocationResponse name rid loc lim) s.
Proof.
  intros s Hn Hin <- <-. revert s Hn Hin.
  induction rs as [|x rs IH]; intros s Hn Hin; [destruct Hin|].
  simpl in Hn. apply NoDup_cons in Hn as [Hx Hn]. cbn [fold_left].
  destruct Hin as [->|Hin].
  - apply handlers_unmatched. intros r' Hr'. unfold matches.
    apply andb_false_iff. right. apply Nat.eqb_neq. intros E. apply Hx.
    rewrite E. apply list_elem_of_In, in_map. exact Hr'.
  - rewrite (handler_unmatched x); [now apply IH|]. unfold matches.
    apply andb_false_iff. right. apply Nat.eqb_neq. intros E. apply Hx.
    rewrite <- E. apply list_elem_of_In, in_map. exact Hin.
Qed.

(** A correlated answer is cached unless it is flagged as rate limited, and
    resolves the promise with its location, or with null when it has none. *)
Lemma answer_settles name rid loc lim r s :
  NoDup (List.map requestId (listeners s)) -> In r (listeners s) ->
  requestId r = rid -> b_screenName r = name ->
  onWindowMessage (LocationResponse name rid loc lim) s
  = enqueueJob (J_then (b_waiter r) (Str.orNull loc))
      (if negb lim
       then saveCacheEntry name (Str.orNull loc) (removeListener rid s)
       else removeListener rid s).
Proof.
  intros Hn Hin Hrid Hname. unfold onWindowMessage.
  replace (if observing s then _ else s) with s by (now destruct (observing s)).
  rewrite (handlers_matched name rid loc lim r) by assumption.
  unfold handler. subst. unfold Str.eqb.
  rewrite bool_decide_eq_true_2 by reflexivity. now rewrite Nat.eqb_refl.
Qed.

Lemma jobs_saveCacheEntry u l s : jobs (saveCacheEntry u l s) = jobs s.
Proof. apply saveCacheEntry_quiet. Qed.

Lemma listeners_saveCacheEntry u l s : listeners (saveCacheEntry u l s) = listeners s.
Proof. apply saveCacheEntry_quiet. Qed.

Section Bridge.

Variable getCountryFlag : string -> Completion (option string).

(** C8.  In every state the script can reach, a request that waits for its
    answer has its 10 s timer pending, set when the message was posted; when
    the timer fires and the request still waits, the listener is removed and
    the promise is resolved with null: the job that follows resumes the
    annotation with the value null, fulfilled and not rejected.  An answer
    to the request that comes before resolves the promise with its location,
    or with null when it has none. *)
Theorem bridge_promise_always_resolves (doc : list Node) (now : Z)
    (toggle : option bool) (stored : option (gmap string CacheEntry))
    (valid : bool) (trace : list Event) (r : BridgeRequest) :
  let s := run getCountryFlag (init doc now toggle stored valid) trace in
  In r (listeners s) ->
  (exists t, In (t + 10000, T_bridgeTimeout (requestId r)) (timers s)
             /\ In (t, requestId r, b_screenName r) (posted s))
  /\ (forall i due,
        timers s !! i = Some (due, T_bridgeTimeout (requestId r)) ->
        idle s = true -> due <= clock s ->
        let s1 := step getCountryFlag s (Fire i) in
        ~ In r (listeners s1)
        /\ jobs s1 = [J_then (b_waiter r) None]
        /\ jobs (step getCountryFlag s1 RunJob)
           = [J_resume (b_waiter r) (Fulfilled None); J_catch])
  /\ (forall loc lim,
        idle s = true ->
        let s1 := step getCountryFlag s
                    (WindowMessage
                       (LocationResponse (b_screenName r) (requestId r) loc lim)) in
        ~ In r (listeners s1)
        /\ jobs s1 = [J_then (b_waiter r) (Str.orNull loc)]
        /\ jobs (step getCountryFlag s1 RunJob)
           = [J_resume (b_waiter r) (Fulfilled (Str.orNull loc)); J_catch]).
Proof.
  intros s Hin.
  assert (H : Inv [] s)
    by exact (run_inv getCountryFlag trace _ (init_inv doc now toggle stored valid)).
  destruct H as (_ & [Hn Hf Ht] & _). split; [now apply Ht|]. split.
  2:{ intros loc lim Hidle s1.
      assert (E : s1 = onWindowMessage
                         (LocationResponse (b_screenName r) (requestId r) loc lim) s)
        by (unfold s1; simpl; now rewrite Hidle).
      rewrite E, (answer_settles _ _ loc lim r s Hn Hin eq_refl eq_refl).
      split; [|split].
      - simpl. destruct lim; simpl; rewrite ?listeners_saveCacheEntry; simpl;
          fold (others (requestId r) (listeners s));
          intros [_ Hne]%in_others; now apply Hne.
      - simpl. destruct lim; simpl; rewrite ?jobs_saveCacheEntry; simpl;
          now rewrite (idle_jobs s Hidle).
      - simpl. destruct lim; simpl; rewrite ?jobs_saveCacheEntry; simpl;
          now rewrite (idle_jobs s Hidle). }
  intros i due Hi Hidle Hdue s1.
  assert (E : s1 = settled r None (with_timers (delete i (timers s)) s)).
  { unfold s1. simpl. rewrite Hidle, Hi.
    destruct (due <=? clock s) eqn:El; [|apply Z.leb_gt in El; lia].
    simpl. now apply bridgeTimeout_settles. }
  rewrite E. split; [|split].
  - simpl. fold (others (requestId r) (listeners s)).
    intros [_ Hne]%in_others. now apply Hne.
  - simpl. now rewrite (idle_jobs s Hidle).
  - simpl. now rewrite (idle_jobs s Hidle).
Qed.

End Bridge.

Lemma bridge_promise_always_resolves_witness :
  let trace := [Advance 2000; Fire 0; Advance 10000] in
  let r := {| requestId := 0; b_screenName := "alice";
              b_waiter := {| usernameElement := 10; screenName := "alice";
                             userNameContainer := Some 11%nat; shimmerSpan := 17;
                             shimmerInserted := true |} |} in
  let s := run Scenario.exampleFlags
             (init Scenario.page1 Scenario.t0 None None true) trace in
  In r (listeners s)
  /\ timers s !! 1%nat = Some (1700000012000, T_bridgeTimeout 0)
  /\ jobs (step Scenario.exampleFlags (step Scenario.exampleFlags s (Fire 1)) RunJob)
     = [J_resume (b_waiter r) (Fulfilled None); J_catch].
Proof.
  intros trace r s.
  assert (Hin : In r (listeners s)) by (vm_compute; now left).
  assert (Hi : timers s !! 1%nat = Some (1700000012000, T_bridgeTimeout (requestId r)))
    by (vm_compute; reflexivity).
  assert (Hidle : idle s = true) by (vm_compute; reflexivity).
  assert (Hdue : 1700000012000 <= clock s) by (vm_compute; discriminate).
  split; [exact Hin|]. split; [exact Hi|].
  exact (proj2 (proj2 (proj1 (proj2
    (bridge_promise_always_resolves Scenario.exampleFlags Scenario.page1 Scenario.t0
       None None true trace r Hin)) 1%nat 1700000012000 Hi Hidle Hdue))).
Defined.

(** ** The in-flight set *)

Lemma pageOnly_names s s' :
  pageOnly s s' -> processingUsernames s' = processingUsernames s.
Proof. now intros (d & n & ->). Qed.

(** A handle that is in flight: the element waits 500 ms, then takes the
    state 'waiting' unless it is 'true' by then. *)
Lemma addFlagToUsername_duplicate el name s :
  flagAddedIs el "true" s = false -> name ∈ processingUsernames s ->
  addFlagToUsername el name s = (Returned, setTimeout (T_waiting el) 500 s).
Proof.
  intros Hf Hn. unfold addFlagToUsername. rewrite Hf.
  now rewrite bool_decide_eq_true_2 by exact Hn.
Qed.

Lemma NoDup_map_inj {A B} (f : A -> B) (l : list A) x y :
  NoDup (List.map f l) -> In x l -> In y l -> f x = f y -> x = y.
Proof.
  induction l as [|a l IH]; simpl; intros Hn Hx Hy E; [destruct Hx|].
  apply NoDup_cons in Hn as [Ha Hn].
  destruct Hx as [->|Hx], Hy as [->|Hy]; [reflexivity| | |now apply IH].
  - exfalso. apply Ha. rewrite E. apply list_elem_of_In, in_map. exact Hy.
  - exfalso. apply Ha. rewrite <- E. apply list_elem_of_In, in_map. exact Hx.
Qed.

(** *** A handle that is left in the set *)

Section Leaked.

Variable h : string.

Lemma in_inFlight s :
  In h (inFlight s)
  <-> In h (List.map screenName (List.map q_waiter (requestQueue s)))
      \/ In h (List.map screenName (List.map b_waiter (listeners s)))
      \/ In h (List.map screenName (flat_map jobWaiters (jobs s))).
Proof. unfold inFlight, waiters. now rewrite !List.map_app, !in_app_iff. Qed.

Lemma leaked_into s s' :
  (h ∈ processingUsernames s -> h ∈ processingUsernames s') ->
  (In h (inFlight s') -> In h (inFlight s)) ->
  leaked h s -> leaked h s'.
Proof. intros H1 H2 [Hs Hn]. split; [now apply H1|]. intros Hin. now apply Hn, H2. Qed.

Lemma leaked_same s s' :
  processingUsernames s' = processingUsernames s ->
  inFlight s' ≡ₚ inFlight s ->
  leaked h s -> leaked h s'.
Proof.
  intros E P. apply leaked_into; [now rewrite E|].
  intros Hin. apply list_elem_of_In. rewrite <- P. now apply list_elem_of_In.
Qed.

Lemma leaked_quiet s s' : quiet s s' -> leaked h s -> leaked h s'.
Proof.
  intros [E1 E2 E3 E4 E5 E6 E7 E8 E9 E10 E11 Ht]. apply leaked_same; [exact E5|].
  unfold inFlight, waiters. now rewrite E1, E8, E7.
Qed.

Lemma leaked_page s s' : pageOnly s s' -> leaked h s -> leaked h s'.
Proof. intros H. apply leaked_quiet. now apply pageOnly_quiet. Qed.

Lemma processRequestQueue_leaked s : leaked h s -> leaked h (processRequestQueue s).
Proof.
  unfold processRequestQueue.
  destruct (_ || _); [auto|]. destruct (_ && _).
  { apply leaked_quiet. now apply setTimeout_quiet. }
  apply leaked_same.
  - rewrite dispatchLoop_names. now destruct (0 <? _).
  - rewrite dispatchLoop_inFlight by reflexivity. now destruct (0 <? _).
Qed.

(** An annotation of another handle joins those that wait. *)
Lemma getUserLocation_leaked name w s :
  screenName w <> h -> leaked h s -> leaked h (snd (getUserLocation name w s)).
Proof.
  intros Hw H. unfold getUserLocation.
  assert (Hpush : forall s0,
    processingUsernames s0 = processingUsernames s ->
    requestQueue s0 = requestQueue s -> listeners s0 = listeners s ->
    jobs s0 = jobs s ->
    leaked h (processRequestQueue
                (with_requestQueue
                   (requestQueue s0 ++ [{| q_screenName := name; q_waiter := w |}]) s0))).
  { intros s0 E1 E2 E3 E4. apply processRequestQueue_leaked.
    revert H. apply leaked_into; [simpl; now rewrite E1|].
    rewrite !in_inFlight. simpl. rewrite E2, E3, E4, !List.map_app, in_app_iff. simpl.
    intros [[Hin|[Hin|[]]]|Hin]; [now left|congruence|now right]. }
  destruct (locationCache s !! name) as [[cached|]|].
  - exact H.
  - exact (Hpush (with_locationCache (delete name (locationCache s)) s)
             eq_refl eq_refl eq_refl eq_refl).
  - exact (Hpush s eq_refl eq_refl eq_refl eq_refl).
Qed.

Lemma enqueue_leaked j s :
  (forall w, In w (jobWaiters j) -> screenName w <> h) ->
  leaked h s -> leaked h (enqueueJob j s).
Proof.
  intros Hj. apply leaked_into; [auto|].
  rewrite !in_inFlight. simpl. rewrite flat_map_app, List.map_app, in_app_iff. simpl.
  rewrite app_nil_r.
  intros [Hin|[Hin|[Hin|Hin]]]; [now left|now right; left|now right; right|].
  apply in_map_iff in Hin as (w & E & Hw). now destruct (Hj w Hw).
Qed.

Lemma addFlagToUsername_leaked el name s :
  leaked h s -> leaked h (snd (addFlagToUsername el name s)).
Proof.
  intros H. apply addFlagToUsername_cases.
  - intros _. exact H.
  - intros _. revert H. apply leaked_quiet. now apply setTimeout_quiet.
  - intros s2 s4 Hn -> Hp.
    assert (Hne : name <> h) by (intros ->; apply Hn, H).
    assert (H4 : leaked h s4).
    { apply (leaked_page _ _ Hp). revert H. apply leaked_into.
      - intros Hin. simpl. apply elem_of_union. now right.
      - auto. }
    split; [exact H4|]. intros w Hw _.
    pose proof (getUserLocation_leaked name w s4 ltac:(congruence) H4) as HG.
    destruct (getUserLocation name w s4) as [[loc|] s5]; simpl in HG; [|exact HG].
    apply enqueue_leaked; [|exact HG]. intros w' [<-|[]]. congruence.
Qed.

Lemma redriveWaiting_leaked name s : leaked h s -> leaked h (redriveWaiting name s).
Proof.
  unfold redriveWaiting. apply fold_left_inv. intros a c Ha.
  destruct (getNode c (document a)); [|exact Ha].
  case_bool_decide; [now apply addFlagToUsername_leaked|exact Ha].
Qed.

Lemma processUsernames_leaked s : leaked h s -> leaked h (processUsernames s).
Proof.
  intros H. unfold processUsernames. destruct (negb _); [exact H|].
  revert H. apply fold_left_inv. intros a c Ha. unfold scanContainer.
  assert (Hs : forall name, leaked h (startAnnotation c name a)).
  { intros name. apply startAnnotation_cases.
    - now apply addFlagToUsername_leaked.
    - intros s'. apply enqueue_leaked. intros w []. }
  destruct (getNode c (document a)) as [container|]; [|exact Ha].
  destruct (extractUsername container) as [name|]; [|exact Ha].
  destruct (Str.orNull _) as [status|]; [|apply Hs].
  destruct (Str.eqb status "failed"); [apply Hs|exact Ha].
Qed.

Lemma removeListener_leaked rid s : leaked h s -> leaked h (removeListener rid s).
Proof.
  apply leaked_into; [auto|]. rewrite !in_inFlight. simpl.
  intros [Hin|[Hin|Hin]]; [now left| |now right; right].
  right; left. apply in_map_iff in Hin as (w & E & Hw).
  apply in_map_iff in Hw as (r & E' & [Hr _]%filter_In).
  apply in_map_iff. exists w. split; [exact E|]. apply in_map_iff. now exists r.
Qed.

(** The promise of a request is settled: its annotation goes on waiting,
    among the jobs. *)
Lemma settle_leaked r v s :
  In r (listeners s) -> leaked h s ->
  leaked h (enqueueJob (J_then (b_waiter r) v) (removeListener (requestId r) s)).
Proof.
  intros Hr H. apply enqueue_leaked; [|now apply removeListener_leaked].
  intros w [<-|[]] E. apply H, in_inFlight. right; left.
  rewrite <- E. apply in_map, in_map. exact Hr.
Qed.

Lemma handler_leaked r data s :
  In r (listeners s) -> leaked h s -> leaked h (handler r data s).
Proof.
  intros Hr H. destruct (matches data r) eqn:E.
  - destruct (handler_matched r data s E) as (u & l & v & [-> | ->]).
    + apply (leaked_quiet (settled r v s)); [apply saveCacheEntry_quiet|].
      now apply settle_leaked.
    + now apply settle_leaked.
  - now rewrite handler_unmatched.
Qed.

Lemma handlers_leaked data rs : forall s,
  NoDup (List.map requestId rs) ->
  (forall r, In r rs -> In r (listeners s)) ->
  leaked h s -> leaked h (fold_left (fun s r => handler r data s) rs s).
Proof.
  induction rs as [|r rs IH]; intros s Hn Hin H; simpl; [exact H|].
  apply NoDup_cons in Hn as [Hr Hn]. apply IH; [exact Hn| |].
  - intros r' Hr'. assert (In r' (listeners s)) by (apply Hin; now right).
    destruct (handler_listeners r data s) as [-> | ->]; [assumption|].
    apply in_others. split; [assumption|]. intros E. apply Hr.
    rewrite <- E. apply list_elem_of_In, in_map. exact Hr'.
  - apply handler_leaked; [|exact H]. apply Hin. now left.
Qed.

Lemma runTask_leaked t s :
  NoDup (List.map requestId (listeners s)) ->
  leaked h s -> leaked h (runTask t s).
Proof.
  intros Hn H. destruct t; simpl.
  - now apply processUsernames_leaked.
  - now apply processRequestQueue_leaked.
  - unfold queueWake. destruct (requestQueue s) as [|r q] eqn:Eq; [exact H|].
    revert H. apply leaked_same.
    + now rewrite dispatchLoop_names.
    + rewrite dispatchLoop_inFlight by reflexivity. now apply dispatch_inFlight.
  - unfold bridgeTimeout. destruct (List.find _ _) as [r|] eqn:F; [|exact H].
    apply find_some in F as [Hr Hrid]. apply Nat.eqb_eq in Hrid. subst rid.
    now apply settle_leaked.
  - revert H. apply leaked_page, waitingWake_page.
  - revert H. apply leaked_quiet, saveCacheCallback_quiet.
  - revert H. apply leaked_quiet. constructor; auto.
  - revert H. apply leaked_quiet.
    eapply quiet_trans; [|apply saveCache_quiet].
    constructor; try reflexivity.
    + unfold wakes. simpl. rewrite List.filter_app. simpl. apply app_nil_r.
    + intros x Hx. simpl. apply in_or_app. now left.
Qed.

Variable getCountryFlag : string -> Completion (option string).

Lemma tryBlock_leaked w loc s :
  leaked h s -> leaked h (snd (tryBlock getCountryFlag w loc s)).
Proof.
  intros H. unfold tryBlock.
  assert (Hpage : forall s', pageOnly s s' -> leaked h s')
    by (intros s' Hp; exact (leaked_page _ _ Hp H)).
  assert (H1 : pageOnly s (removeShimmer w s)) by apply removeShimmer_page.
  assert (Hf : forall v, pageOnly s (setFlagAdded (usernameElement w) v (removeShimmer w s))).
  { intros v. eapply pageOnly_trans; [exact H1|apply setFlagAdded_page]. }
  destruct (Str.orNull loc) as [l|]; simpl; [|apply Hpage, Hf].
  destruct (getCountryFlag l) as [flag|]; [|now apply Hpage].
  destruct (Str.orNull flag) as [f|]; simpl; [|apply Hpage, Hf].
  destruct (getNode _ _ ≫= _); simpl; [apply Hpage, Hf|].
  destruct (match userNameContainer w with Some c => Some c | None => _ end); simpl.
  2:{ apply Hpage. eapply pageOnly_trans; [exact H1|].
      eapply pageOnly_trans; [apply pageOnly_nextNode|apply setFlagAdded_page]. }
  destruct (insertFlag _ _ _ _); simpl.
  - apply redriveWaiting_leaked. apply Hpage.
    eapply pageOnly_trans; [exact H1|].
    eapply pageOnly_trans; [apply pageOnly_nextNode|].
    eapply pageOnly_trans; [apply pageOnly_document|apply setFlagAdded_page].
  - apply Hpage. eapply pageOnly_trans; [exact H1|apply pageOnly_nextNode].
Qed.

(** The [finally] of another handle's annotation leaves the handle in the
    set. *)
Lemma resume_leaked w r s :
  screenName w <> h -> leaked h s -> leaked h (resume getCountryFlag w r s).
Proof.
  intros Hw H. unfold resume, finallyBlock.
  assert (Hend : forall s', leaked h s' ->
            leaked h (with_processingUsernames
                        (processingUsernames s' ∖ ({[screenName w]} : gset string)) s')).
  { intros s'. apply leaked_into; [|auto].
    intros Hin. simpl. apply elem_of_difference. split; [exact Hin|].
    intros ->%elem_of_singleton. congruence. }
  apply Hend. destruct r as [loc|].
  - pose proof (tryBlock_leaked w loc s H) as HT.
    destruct (tryBlock getCountryFlag w loc s) as [[|] s']; simpl in HT; [exact HT|].
    exact (leaked_page _ _ (catchBlock_page w s') HT).
  - exact (leaked_page _ _ (catchBlock_page w s) H).
Qed.

Lemma step_leaked s ev :
  Inv [] s -> leaked h s -> leaked h (step getCountryFlag s ev).
Proof.
  intros HI H. destruct ev as [dt|i| |data|enabled|doc added url|]; simpl.
  - destruct (dt <? 0); [exact H|]. revert H. now apply leaked_same.
  - destruct (idle s); [|exact H].
    destruct (timers s !! i) as [[due t]|]; [|exact H].
    destruct (due <=? clock s); [|exact H].
    apply runTask_leaked; [apply HI|]. revert H. now apply leaked_same.
  - destruct (jobs s) as [|j rest] eqn:E; [exact H|].
    assert (H0 : leaked h (with_jobs rest s)).
    { revert H. apply leaked_into; [auto|]. rewrite !in_inFlight. simpl. rewrite E.
      simpl. rewrite List.map_app, in_app_iff. tauto. }
    assert (Hj : forall w, In w (jobWaiters j) -> screenName w <> h).
    { intros w Hw Ew. apply H, in_inFlight. right; right. rewrite E. simpl.
      rewrite List.map_app, in_app_iff. left. rewrite <- Ew. now apply in_map. }
    destruct j as [w v| | |w r|c]; simpl.
    + apply enqueue_leaked; [intros w' []|].
      apply enqueue_leaked; [|exact H0]. intros w' [<-|[]]. apply Hj. now left.
    + apply enqueue_leaked; [intros w' []|exact H0].
    + revert H0. now apply leaked_same.
    + apply resume_leaked; [|exact H0]. apply Hj. now left.
    + revert H0. apply leaked_page, setFlagAdded_page.
  - destruct (idle s); [|exact H]. unfold onWindowMessage.
    set (s1 := if observing s then rateLimitListener data s else s).
    assert (Hq : quiet s s1).
    { subst s1. destruct (observing s); [|apply quiet_refl].
      destruct data; simpl; constructor; auto. }
    replace (listeners s) with (listeners s1) by apply Hq.
    apply handlers_leaked; [|auto|exact (leaked_quiet _ _ Hq H)].
    rewrite (qt_listeners _ _ Hq). apply HI.
  - destruct (idle s); [|exact H]. unfold onExtensionToggle. destruct enabled.
    + revert H. apply leaked_quiet.
      eapply quiet_trans; [|now apply setTimeout_quiet]. constructor; auto.
    + revert H. apply leaked_quiet.
      eapply quiet_trans; [|apply pageOnly_quiet, removeAllFlags_page].
      constructor; auto.
  - destruct (idle s); [|exact H]. unfold onMutation. simpl.
    revert H. apply leaked_quiet.
    set (s1 := with_nextNode _ _).
    assert (H1 : quiet s s1) by (subst s1; constructor; auto).
    destruct (observing s); [|exact H1].
    set (s2 := if extensionEnabled s && added then _ else _).
    assert (H2 : quiet s s2).
    { subst s2. destruct (_ && _); [|exact H1].
      eapply quiet_trans; [exact H1|now apply setTimeout_quiet]. }
    change (observing s1) with (observing s).
    destruct url; [|exact H2].
    eapply quiet_trans; [exact H2|now apply setTimeout_quiet].
  - destruct (idle s); [|exact H]. revert H. now apply leaked_same.
Qed.

(** A handle that was left in the set stays there, whatever happens. *)
Lemma run_leaked trace : forall s,
  Inv [] s -> leaked h s -> leaked h (run getCountryFlag s trace).
Proof.
  induction trace as [|ev trace IH]; intros s HI H; [exact H|].
  simpl. apply IH; [now apply step_inv|now apply step_leaked].
Qed.

End Leaked.

Section InFlight.

Variable getCountryFlag : string -> Completion (option string).

(** The handle enters the in-flight set before its location is looked up:
    an annotation that gets as far as the lookup makes it from a state
    with the handle in the set. *)
Lemma addFlagToUsername_starts el name s :
  name ∈ processingUsernames (snd (addFlagToUsername el name s))
  \/ flagAddedIs el "true" s = true.
Proof.
  apply (addFlagToUsername_cases
           (fun s' => name ∈ processingUsernames s' \/ flagAddedIs el "true" s = true)).
  - intros Hf. now right.
  - intros Hn. now left.
  - intros s2 s4 Hn -> Hp.
    assert (H4 : name ∈ processingUsernames s4).
    { rewrite (pageOnly_names _ _ Hp). simpl. apply elem_of_union. left.
      now apply elem_of_singleton. }
    split; [now left|]. intros w _ _. unfold getUserLocation.
    assert (Hq : forall s0, processingUsernames s0 = processingUsernames s4 ->
              name ∈ processingUsernames (processRequestQueue s0)).
    { intros s0 E0. unfold processRequestQueue.
      destruct (_ || _); [now rewrite E0|]. destruct (_ && _); [simpl; now rewrite E0|].
      rewrite dispatchLoop_names. destruct (0 <? _); simpl; now rewrite E0. }
    destruct (locationCache s4 !! name) as [[cached|]|]; left;
      [exact H4|now apply Hq|now apply Hq].
Qed.

(** The [finally] block takes the handle out, whatever came before it. *)
Lemma resume_clears w r s :
  screenName w ∉ processingUsernames (resume getCountryFlag w r s).
Proof.
  unfold resume, finallyBlock. simpl.
  intros [_ H]%elem_of_difference. apply H. now apply elem_of_singleton.
Qed.

(** At most one element is in state 'processing' for a handle. *)
Lemma one_processing_element_per_handle (doc : list Node) (now : Z)
    (toggle : option bool) (stored : option (gmap string CacheEntry))
    (valid : bool) (trace : list Event) (h : string) (e1 e2 : nat) :
  let s := run getCountryFlag (init doc now toggle stored valid) trace in
  processingFor s h e1 -> processingFor s h e2 -> e1 = e2.
Proof.
  intros s (_ & w1 & Hw1 & <- & Hn1) (_ & w2 & Hw2 & <- & Hn2).
  assert (H : Inv [] s)
    by exact (run_inv getCountryFlag trace _ (init_inv doc now toggle stored valid)).
  destruct H as (_ & _ & [Hnd _]). simpl in Hnd. f_equal.
  apply (NoDup_map_inj screenName (waiters s)); [exact Hnd|assumption..|congruence].
Qed.

(** A handle in the set of which no annotation waits is there for good. *)
Lemma leak_is_for_good (h : string) (s : State) (trace : list Event) :
  Inv [] s -> h ∈ processingUsernames s -> waiters s = [] ->
  h ∈ processingUsernames (run getCountryFlag s trace).
Proof.
  intros HI Hin Hw.
  assert (HL : leaked h s)
    by (split; [exact Hin|]; unfold inFlight; rewrite Hw; intros []).
  exact (proj1 (run_leaked h getCountryFlag trace s HI HL)).
Qed.

End InFlight.

(** C7.  The claim fails where the code before the [try] raises.  The cell
    of the handle a, double quote, b: the selector that [findHandleSection]
    makes from the handle is refused, the call ends by that raise with the
    handle in the in-flight set, and the [.catch] of the scan sets the cell
    to 'failed'.  No request was made and no annotation waits, yet the
    handle is in the set after everything that can happen from there on.
    The next scan takes the cell for a duplicate and leaves it in state
    'waiting'.  The same happens to alice in a document without a [head],
    where [createLoadingShimmer] raises. *)
Theorem raise_before_the_try_leaves_the_handle_in_flight (trace : list Event) :
  (flagAdded 10 Scenario.quotedScanned = Some "failed"
   /\ posted Scenario.quotedScanned = []
   /\ waiters Scenario.quotedScanned = []
   /\ Scenario.quoted
        ∈ processingUsernames (run Scenario.exampleFlags Scenario.quotedScanned trace)
   /\ flagAdded 10 (Scenario.scannedAgain Scenario.quotedScanned) = Some "waiting"
   /\ posted (Scenario.scannedAgain Scenario.quotedScanned) = [])
  /\ (flagAdded 10 Scenario.headlessScanned = Some "failed"
      /\ posted Scenario.headlessScanned = []
      /\ waiters Scenario.headlessScanned = []
      /\ "alice"
           ∈ processingUsernames (run Scenario.exampleFlags Scenario.headlessScanned trace)
      /\ flagAdded 10 (Scenario.scannedAgain Scenario.headlessScanned) = Some "waiting"
      /\ posted (Scenario.scannedAgain Scenario.headlessScanned) = []).
Proof.
  assert (Hq : waiters Scenario.quotedScanned = []) by (vm_compute; reflexivity).
  assert (Hh : waiters Scenario.headlessScanned = []) by (vm_compute; reflexivity).
  assert (HIq : Inv [] Scenario.quotedScanned)
    by exact (run_inv Scenario.exampleFlags [Advance 2000; Fire 0; RunJob] _
                (init_inv Scenario.quotedPage Scenario.t0 None None true)).
  assert (HIh : Inv [] Scenario.headlessScanned)
    by exact (run_inv Scenario.exampleFlags [Advance 2000; Fire 0; RunJob] _
                (init_inv Scenario.headlessPage Scenario.t0 None None true)).
  split.
  - split; [vm_compute; reflexivity|]. split; [vm_compute; reflexivity|].
    split; [exact Hq|]. split.
    + assert (Hin : Scenario.quoted ∈ processingUsernames Scenario.quotedScanned)
        by (apply (bool_decide_unpack _); vm_compute; exact I).
      exact (leak_is_for_good Scenario.exampleFlags _ _ trace HIq Hin Hq).
    + split; vm_compute; reflexivity.
  - split; [vm_compute; reflexivity|]. split; [vm_compute; reflexivity|].
    split; [exact Hh|]. split.
    + assert (Hin : "alice" ∈ processingUsernames Scenario.headlessScanned)
        by (apply (bool_decide_unpack _); vm_compute; exact I).
      exact (leak_is_for_good Scenario.exampleFlags _ _ trace HIh Hin Hh).
    + split; vm_compute; reflexivity.
Qed.

(** ** A rate-limited answer *)

Lemma find_mapAttrs el h l :
  List.find (hasId el) (List.map (mapAttrsNode h) l)
  = option_map (mapAttrsNode h) (List.find (hasId el) l).
Proof.
  induction l as [|n l IH]; simpl; [reflexivity|].
  rewrite shallow_mapAttrsNode_id. destruct (hasId el n); [reflexivity|exact IH].
Qed.

(** Writing the state attribute of an element of the document. *)
Lemma flagAdded_setFlagAdded el v s :
  attached el (document s) = true ->
  flagAdded el (setFlagAdded el v s) = Some v.
Proof.
  unfold attached, flagAdded, setFlagAdded, setAttribute, getNode. simpl.
  rewrite allNodes_mapAttrs, find_mapAttrs.
  destruct (List.find _ _) as [n|] eqn:F; [|discriminate]. intros _.
  apply find_some in F as [_ Hid]. destruct n as [j t a ks|d]; [|discriminate].
  simpl in *. unfold onElement. rewrite Hid. reflexivity.
Qed.

Section RateLimited.

Variable getCountryFlag : string -> Completion (option string).

(** C6, as the code has it.  An answer flagged as rate limited writes
    nothing: the cache, the storage and the timers (no save is scheduled)
    are as before, and the annotation is resumed with the location of the
    answer.  When that location is null, the annotation ends with the
    element in state 'failed' and the cache still untouched; and a scan
    takes an element in state 'failed' up again. *)
Theorem rate_limited_answer_is_not_cached (s : State) (r : BridgeRequest)
    (loc : option string) :
  idle s = true ->
  In r (listeners s) ->
  NoDup (List.map requestId (listeners s)) ->
  let w := b_waiter r in
  let s1 := step getCountryFlag s
              (WindowMessage (LocationResponse (b_screenName r) (requestId r) loc true)) in
  let s3 := run getCountryFlag s1 [RunJob; RunJob] in
  (locationCache s1 = locationCache s /\ storage s1 = storage s
   /\ saveCacheTimeout s1 = saveCacheTimeout s /\ timers s1 = timers s)
  /\ jobs s1 = [J_then w (Str.orNull loc)]
  /\ (Str.orNull loc = None ->
      locationCache s3 = locationCache s /\ storage s3 = storage s
      /\ saveCacheTimeout s3 = saveCacheTimeout s /\ timers s3 = timers s
      /\ (attached (usernameElement w) (document (removeShimmer w s)) = true ->
          flagAdded (usernameElement w) s3 = Some "failed"))
  /\ (forall s' c container name,
        getNode c (document s') = Some container ->
        extractUsername container = Some name ->
        getAttribute FLAG_ADDED container = Some "failed" ->
        scanContainer s' c = startAnnotation c name s').
Proof.
  intros Hidle Hin Hn w s1 s3.
  assert (E1 : s1 = settled r (Str.orNull loc) s).
  { unfold s1. simpl. rewrite Hidle. unfold onWindowMessage.
    replace (if observing s then _ else s) with s by (now destruct (observing s)).
    rewrite (handlers_matched _ _ _ _ r) by (assumption || reflexivity).
    simpl. unfold Str.eqb. rewrite bool_decide_eq_true_2 by reflexivity.
    now rewrite Nat.eqb_refl. }
  assert (Hj : jobs s1 = [J_then w (Str.orNull loc)])
    by (rewrite E1; simpl; now rewrite (idle_jobs s Hidle)).
  split; [now rewrite E1|]. split; [exact Hj|]. split.
  - intros Hnull.
    assert (E3 : s3 = finallyBlock w
                        (setFlagAdded (usernameElement w) "failed"
                           (removeShimmer w
                              (with_jobs [J_catch]
                                 (with_listeners (others (requestId r) (listeners s)) s))))).
    { unfold s3. simpl. rewrite Hj. simpl. rewrite Hnull.
      unfold resume, tryBlock. simpl. rewrite E1. reflexivity. }
    rewrite E3. unfold removeShimmer. simpl.
    destruct (shimmerInserted w && attached (shimmerSpan w) (document s)) eqn:Es;
      simpl; (repeat split; try reflexivity); intros Ha;
      apply (flagAdded_setFlagAdded (usernameElement w) "failed"); exact Ha.
  - intros s' c container name Hc He Hf. unfold scanContainer.
    now rewrite Hc, He, Hf.
Qed.

End RateLimited.

Lemma rate_limited_answer_is_not_cached_witness :
  let s := Scenario.scanned Scenario.page1 in
  let r := {| requestId := 0; b_screenName := "alice";
              b_waiter := {| usernameElement := 10; screenName := "alice";
                             userNameContainer := Some 11%nat; shimmerSpan := 17;
                             shimmerInserted := true |} |} in
  idle s = true
  /\ In r (listeners s)
  /\ NoDup (List.map requestId (listeners s))
  /\ flagAdded 10
       (run Scenario.exampleFlags
          (step Scenario.exampleFlags s
             (WindowMessage (LocationResponse "alice" 0 None true)))
          [RunJob; RunJob])
     = Some "failed".
Proof.
  intros s r.
  assert (Hidle : idle s = true) by (vm_compute; reflexivity).
  assert (Hin : In r (listeners s)) by (vm_compute; now left).
  assert (Hn : NoDup (List.map requestId (listeners s)))
    by (apply (bool_decide_unpack _); vm_compute; exact I).
  assert (Ha : attached (usernameElement (b_waiter r))
                 (document (removeShimmer (b_waiter r) s)) = true)
    by (vm_compute; reflexivity).
  split; [exact Hidle|]. split; [exact Hin|]. split; [exact Hn|].
  exact (proj2 (proj2 (proj2 (proj2
    (proj1 (proj2 (proj2
       (rate_limited_answer_is_not_cached Scenario.exampleFlags s r None Hidle Hin Hn)))
     eq_refl)))) Ha).
Defined.

(** C6, as the claim states it, fails: the page script answers the request
    for alice with a location and the rate-limit flag; nothing is cached,
    but the element that awaited the answer ends in state 'true', with a
    flag, not in state 'failed'. *)
Lemma rate_limited_answer_fails_element_counterexample :
  flagAdded 10 (Scenario.scanned Scenario.page1) = Some "processing"
  /\ flagAdded 10 (Scenario.answered Scenario.page1 (Some "Paris, France") true)
     = Some "true"
  /\ List.map textContent
       (Scenario.flagsIn 10
          (Scenario.answered Scenario.page1 (Some "Paris, France") true))
     = [" 🇫🇷"]
  /\ locationCache (Scenario.answered Scenario.page1 (Some "Paris, France") true)
       !! "alice" = None.
Proof. vm_compute. repeat split; reflexivity. Qed.

(** ** Two elements of one handle *)

(** C2 on two cells of alice.  The first cell is annotated: it is in state
    'true' and holds the flag.  The second cell was scanned while alice was
    in flight and took the state 'waiting'.  The first annotation drives it
    again before it takes alice out of the in-flight set, so it waits again
    and is 'waiting' again.  Then nothing is left that would annotate it:
    no annotation waits, alice is not in flight, no timer of a scan or of
    an element is pending, and a later scan passes over the cell.  One
    request was sent. *)
Lemma duplicate_element_is_left_waiting :
  flagAdded 10 Scenario.duplicate = Some "true"
  /\ List.map textContent (Scenario.flagsIn 10 Scenario.duplicate) = [" 🇫🇷"]
  /\ flagAdded 20 Scenario.duplicate = Some "waiting"
  /\ Scenario.flagsIn 20 Scenario.duplicate = []
  /\ elements (processingUsernames Scenario.duplicate) = []
  /\ waiters Scenario.duplicate = []
  /\ jobs Scenario.duplicate = []
  /\ List.map snd (timers Scenario.duplicate)
     = [T_saveCacheInterval; T_bridgeTimeout 0; T_saveCacheTimeout;
        T_processRequestQueue]
  /\ posted Scenario.duplicate = [(1700000002000, 0%nat, "alice")]
  /\ flagAdded 20 Scenario.duplicateRescanned = Some "waiting"
  /\ Scenario.flagsIn 20 Scenario.duplicateRescanned = []
  /\ waiters Scenario.duplicateRescanned = []
  /\ List.map snd (timers Scenario.duplicateRescanned)
     = [T_saveCacheInterval; T_bridgeTimeout 0; T_saveCacheTimeout;
        T_processRequestQueue].
Proof. vm_compute. repeat split; reflexivity. Qed.

Lemma redrive_from name s cs : forall added,
  name ∈ processingUsernames s ->
  Forall (fun x => exists el, snd x = T_waiting el) added ->
  exists added',
    fold_left
      (fun s c =>
         match getNode c (document s) with
         | Some container =>
             if bool_decide (extractUsername container = Some name)
             then snd (addFlagToUsername c name s)
             else s
         | None => s
         end)
      cs (with_timers (timers s ++ added) s)
    = with_timers (timers s ++ added') s
    /\ Forall (fun x => exists el, snd x = T_waiting el) added'.
Proof.
  induction cs as [|c cs IH]; intros added Hn Ha; cbn [fold_left].
  - now exists added.
  - cbn [document with_timers].
    destruct (getNode c (document s)); [|now apply IH].
    case_bool_decide; [|now apply IH].
    unfold addFlagToUsername.
    destruct (flagAddedIs c "true" _); [now apply IH|].
    cbn [processingUsernames with_timers].
    rewrite bool_decide_eq_true_2 by exact Hn.
    cbn [snd]. unfold setTimeout. cbn [timers clock with_timers]. rewrite <- app_assoc.
    apply (IH (added ++ [(clock s + Z.max 0 500, T_waiting c)])%list Hn).
    apply Forall_app. split; [exact Ha|]. constructor; [now exists c|constructor].
Qed.

(** Why: while a handle is in flight, driving the waiting containers again
    starts their 500 ms wait and nothing else. *)
Lemma redrive_only_waits name s :
  name ∈ processingUsernames s ->
  exists added,
    redriveWaiting name s = with_timers (timers s ++ added) s
    /\ Forall (fun x => exists el, snd x = T_waiting el) added.
Proof.
  intros Hn. unfold redriveWaiting.
  destruct (redrive_from name s
              (elementIds (documentQuery (attrIs FLAG_ADDED "waiting") (document s)))
              [] Hn (List.Forall_nil _)) as (added & E & Ha).
  exists added. split; [|exact Ha]. rewrite <- E. f_equal.
  rewrite app_nil_r. now destruct s.
Qed.

(** And when the wait is over the element is 'waiting', unless it is 'true'. *)
Lemma waitingWake_waits el s :
  attached el (document s) = true ->
  flagAdded el (waitingWake el s) = Some "true"
  \/ flagAdded el (waitingWake el s) = Some "waiting".
Proof.
  intros Ha. unfold waitingWake. destruct (flagAddedIs el "true" s) eqn:E.
  - left. unfold flagAddedIs in E. destruct (flagAdded el s) as [v|]; [|discriminate].
    unfold Str.eqb in E. apply bool_decide_eq_true in E. now subst.
  - right. now apply flagAdded_setFlagAdded.
Qed.

(** * More of the script *)

(** ** The handle of a container *)

Section Extraction.

Lemma subtree_trans e : forall u x,
  In u (subtree e) -> In x (subtree u) -> In x (subtree e).
Proof.
  induction e as [i t a ks IH|d] using Node_forall_ind; intros u x Hu Hx.
  - destruct Hu as [<-|Hu]; [exact Hx|].
    simpl. right. apply in_flat_map in Hu as (k & Hk & Hu).
    apply in_flat_map. exists k. split; [exact Hk|].
    rewrite List.Forall_forall in IH. exact (IH k Hk u x Hu Hx).
  - destruct Hu as [<-|[]]. exact Hx.
Qed.

Lemma descendants_subtree n x : In x (descendants n) -> In x (subtree n).
Proof. destruct n as [i t a ks|d]; simpl; [now right|intros []]. Qed.

Lemma descendants_trans e u x :
  In u (descendants e) -> In x (descendants u) -> In x (descendants e).
Proof.
  unfold descendants at 1 3. intros Hu Hx.
  apply in_flat_map in Hu as (k & Hk & Hu). apply in_flat_map. exists k.
  split; [exact Hk|]. apply (subtree_trans k u x Hu). now apply descendants_subtree.
Qed.

Lemma querySelectorAll_inside sel e u x :
  In u (descendants e) -> In x (querySelectorAll sel u) -> In x (querySelectorAll sel e).
Proof.
  unfold querySelectorAll. intros Hu [Hx Hs]%filter_In. apply filter_In.
  split; [now apply (descendants_trans e u)|exact Hs].
Qed.

Lemma includes_cons c s d :
  c <> d -> Str.includes (String c s) (String d "") = Str.includes s (String d "").
Proof.
  intros H. cbn [Str.includes String.prefix].
  destruct (ascii_dec d c) as [->|_]; [congruence|reflexivity].
Qed.

(** The group of the pattern holds no separator. *)
Lemma segment_plain s : plain (Str.segment s).
Proof.
  induction s as [|c s [IH1 IH2]]; [now split|]. cbn [Str.segment].
  destruct (Ascii.eqb c "/") eqn:E1; [now split|].
  destruct (Ascii.eqb c "?") eqn:E2; [now split|]. cbn [orb].
  apply Ascii.eqb_neq in E1, E2.
  split; (rewrite includes_cons; assumption).
Qed.

Lemma firstSegment_some href name :
  Str.firstSegment href = Some name ->
  name <> "" /\ plain name /\ exists rest, href = String "/" rest /\ Str.segment rest = name.
Proof.
  destruct href as [|c rest]; [discriminate|]. simpl.
  destruct c as [[] [] [] [] [] [] [] []]; try discriminate.
  destruct (Str.segment rest) as [|d seg] eqn:E; [discriminate|].
  intros [= <-]. split; [discriminate|]. split.
  - rewrite <- E. apply segment_plain.
  - now exists rest.
Qed.

Lemma primaryLoop_some links name :
  primaryLoop links = Some name ->
  (exists link href,
      In link links /\ getAttribute "href" link = Some href
      /\ Str.firstSegment href = Some name)
  /\ Str.elem name excludedRoutes = false
  /\ Str.startsWith name "hashtag" = false
  /\ Str.startsWith name "search" = false
  /\ (0 < String.length name < 20)%nat.
Proof.
  induction links as [|link rest IH]; [discriminate|]. cbn [primaryLoop].
  assert (Hrest : primaryLoop rest = Some name ->
    (exists link0 href, In link0 (link :: rest) /\ getAttribute "href" link0 = Some href
       /\ Str.firstSegment href = Some name)
    /\ Str.elem name excludedRoutes = false
    /\ Str.startsWith name "hashtag" = false
    /\ Str.startsWith name "search" = false
    /\ (0 < String.length name < 20)%nat).
  { intros H. destruct (IH H) as ((l & h & Hl & Hh & Hs) & Hp). split; [|exact Hp].
    exists l, h. split; [now right|now split]. }
  destruct (getAttribute "href" link) as [href|] eqn:Eh; cbn [mbind option_bind];
    [|exact Hrest].
  destruct (Str.firstSegment href) as [username|] eqn:Es; [|exact Hrest].
  match goal with |- (if ?c then _ else _) = _ -> _ => destruct c eqn:E end;
    [|exact Hrest].
  intros [= <-].
  apply andb_true_iff in E as [E E5]. apply andb_true_iff in E as [E E4].
  apply andb_true_iff in E as [E E3]. apply andb_true_iff in E as [E1 E2].
  apply negb_true_iff in E1, E2, E3. apply Nat.ltb_lt in E4, E5.
  split; [|now repeat split].
  exists link, href. split; [now left|now split].
Qed.

Lemma lowerChar_at c : Str.lowerChar c = "@"%char -> c = "@"%char.
Proof. destruct c as [[] [] [] [] [] [] [] []]; vm_compute; congruence. Qed.

(** The second test of line 266 never decides: a text that equals the
    handle with its [@], letter case apart, starts with [@]. *)
Lemma lowered_handle_starts_with_at text rest :
  Str.toLowerCase text = String "@" rest -> Str.startsWith text "@" = true.
Proof.
  destruct text as [|c text]; [discriminate|]. cbn [Str.toLowerCase]. intros [= Hc _].
  apply lowerChar_at in Hc. subst c. unfold Str.startsWith. cbn [String.prefix].
  destruct (ascii_dec "@" "@"); [now destruct text|congruence].
Qed.

Lemma elem_cons_false x p seen :
  Str.elem x (p :: seen) = false -> x <> p /\ Str.elem x seen = false.
Proof.
  unfold Str.elem. simpl. intros [H1 H2]%orb_false_iff. split; [|exact H2].
  unfold Str.eqb in H1. now apply bool_decide_eq_false in H1.
Qed.

Lemma elem_true_false x y seen :
  Str.elem x seen = true -> Str.elem y seen = false -> y <> x.
Proof.
  unfold Str.elem. intros Hx Hy ->. congruence.
Qed.

(** The link the fallback loop takes a name from is the first link of the
    container with that name, and its text starts with [@]. *)
Lemma fallbackLoop_some links : forall seen name,
  fallbackLoop seen links = Some name ->
  (exists before link after href,
      links = (before ++ link :: after)%list
      /\ (forall l, In l before -> getAttribute "href" l ≫= Str.firstSegment <> Some name)
      /\ getAttribute "href" link = Some href
      /\ Str.firstSegment href = Some name
      /\ Str.startsWith (Str.trim (textContent link)) "@" = true)
  /\ Str.elem name seen = false
  /\ existsb (fun route => Str.eqb name route || Str.startsWith name route)
       excludedRoutesFallback = false
  /\ Str.includes name "status" = false
  /\ Str.isNumeric name = false.
Proof.
  induction links as [|link rest IH]; intros seen name; [discriminate|].
  cbn [fallbackLoop].
  assert (Hrest : forall seen',
    (Str.elem name seen' = false ->
     Str.elem name seen = false
     /\ getAttribute "href" link ≫= Str.firstSegment <> Some name) ->
    fallbackLoop seen' rest = Some name ->
    (exists before link0 after href,
        (link :: rest = before ++ link0 :: after)%list
        /\ (forall l, In l before ->
              getAttribute "href" l ≫= Str.firstSegment <> Some name)
        /\ getAttribute "href" link0 = Some href
        /\ Str.firstSegment href = Some name
        /\ Str.startsWith (Str.trim (textContent link0)) "@" = true)
    /\ Str.elem name seen = false
    /\ existsb (fun route => Str.eqb name route || Str.startsWith name route)
         excludedRoutesFallback = false
    /\ Str.includes name "status" = false
    /\ Str.isNumeric name = false).
  { intros seen' Hs H.
    destruct (IH seen' name H) as ((b & l & a & h & -> & Hb & Hp) & He & Hq).
    destruct (Hs He) as [He' Hne].
    split; [|split; [exact He'|exact Hq]].
    exists (link :: b), l, a, h. split; [reflexivity|]. split; [|exact Hp].
    intros l' [<-|Hl']; [exact Hne|now apply Hb]. }
  destruct (getAttribute "href" link) as [href|] eqn:Eh; cbn [mbind option_bind] in *;
    [|apply Hrest; intros He; split; [exact He|discriminate]].
  destruct (Str.firstSegment href) as [p|] eqn:Es;
    [|apply Hrest; intros He; split; [exact He|discriminate]].
  assert (Hgrow : Str.elem name (p :: seen) = false ->
                  Str.elem name seen = false /\ Some p <> Some name).
  { intros [Hne He]%elem_cons_false. split; [exact He|congruence]. }
  match goal with |- (if ?c then _ else _) = _ -> _ => destruct c eqn:E0 end.
  { apply Hrest. intros He. split; [exact He|].
    intros [= ->]. congruence. }
  match goal with |- (if ?c then _ else _) = _ -> _ => destruct c eqn:E1 end;
    [now apply Hrest|].
  match goal with |- (if ?c then _ else _) = _ -> _ => destruct c eqn:E2 end;
    [now apply Hrest|].
  match goal with |- (if ?c then _ else _) = _ -> _ => destruct c eqn:E3 end;
    [|now apply Hrest].
  intros [= <-]. apply orb_false_iff in E2 as [E2 E2'].
  split; [|now repeat split].
  exists [], link, rest, href. split; [reflexivity|]. split; [intros l []|].
  split; [exact Eh|]. split; [exact Es|].
  apply orb_true_iff in E3 as [E3|E3]; [exact E3|].
  unfold Str.eqb in E3. apply bool_decide_eq_true in E3.
  now apply (lowered_handle_starts_with_at _ (Str.toLowerCase p)).
Qed.

Lemma elem_excluded name route :
  In route excludedRoutesFallback ->
  existsb (fun route => Str.eqb name route || Str.startsWith name route)
    excludedRoutesFallback = false ->
  Str.eqb name route = false /\ Str.startsWith name route = false.
Proof.
  intros Hin H. apply orb_false_iff.
  destruct (Str.eqb name route || Str.startsWith name route) eqn:E; [|reflexivity].
  rewrite <- H. symmetry. apply existsb_exists. now exists route.
Qed.

Lemma fallback_not_a_route name :
  existsb (fun route => Str.eqb name route || Str.startsWith name route)
    excludedRoutesFallback = false ->
  Str.elem name excludedRoutes = false
  /\ Str.startsWith name "hashtag" = false
  /\ Str.startsWith name "search" = false.
Proof.
  intros H. split; [|split].
  - unfold Str.elem. destruct (existsb (Str.eqb name) excludedRoutes) eqn:E; [|reflexivity].
    apply existsb_exists in E as (route & Hin & E).
    destruct (elem_excluded name route) as [E' _]; [|exact H|congruence].
    unfold excludedRoutesFallback. apply in_or_app. now left.
  - apply (elem_excluded name "hashtag"); [|exact H].
    unfold excludedRoutesFallback. apply in_or_app. right. now left.
  - apply (elem_excluded name "search"); [|exact H].
    unfold excludedRoutesFallback, excludedRoutes. simpl. tauto.
Qed.

End Extraction.

(** A handle that [extractUsername] gives is the first segment of the path
    of a link inside the container, a link whose [href] starts with a
    slash: the script makes up no name. *)
Theorem extracted_name_is_a_link_segment (element : Node) (name : string) :
  extractUsername element = Some name ->
  exists link href,
    In link (querySelectorAll selRelativeLink element)
    /\ getAttribute "href" link = Some href
    /\ Str.firstSegment href = Some name.
Proof.
  unfold extractUsername.
  destruct (querySelector selUserName element) as [u|] eqn:Eu.
  - destruct (primaryLoop (querySelectorAll selRelativeLink u)) as [n|] eqn:Ep.
    + intros [= ->]. apply primaryLoop_some in Ep as ((link & href & Hl & Hh & Hs) & _).
      exists link, href. split; [|now split].
      apply (querySelectorAll_inside _ element u); [|exact Hl].
      unfold querySelector in Eu. now apply find_some in Eu as [Hu _].
    + intros H. apply fallbackLoop_some in H as ((b & link & a & href & E & _ & Hh & Hs & _) & _).
      exists link, href. split; [|now split]. rewrite E. apply in_elt.
  - intros H. apply fallbackLoop_some in H as ((b & link & a & href & E & _ & Hh & Hs & _) & _).
    exists link, href. split; [|now split]. rewrite E. apply in_elt.
Qed.

Lemma extracted_name_is_a_link_segment_witness :
  extractUsername (Scenario.userCell 10 "alice" "Alice") = Some "alice"
  /\ exists link href,
       In link (querySelectorAll selRelativeLink (Scenario.userCell 10 "alice" "Alice"))
       /\ getAttribute "href" link = Some href
       /\ Str.firstSegment href = Some "alice".
Proof.
  split; [vm_compute; reflexivity|].
  apply (extracted_name_is_a_link_segment (Scenario.userCell 10 "alice" "Alice") "alice").
  vm_compute; reflexivity.
Defined.

(** Neither loop of [extractUsername] gives a reserved route of the site
    ('home', 'explore', ..., 'communities'), a name that starts with
    'hashtag' or 'search', the empty name, or a name with a slash or a
    question mark in it. *)
Theorem extracted_name_is_not_a_route (element : Node) (name : string) :
  extractUsername element = Some name ->
  Str.elem name excludedRoutes = false
  /\ Str.startsWith name "hashtag" = false
  /\ Str.startsWith name "search" = false
  /\ name <> ""
  /\ plain name.
Proof.
  unfold extractUsername.
  assert (Hs : forall href, Str.firstSegment href = Some name -> name <> "" /\ plain name).
  { intros href H. apply firstSegment_some in H as (H1 & H2 & _). now split. }
  assert (Hf : fallbackLoop [] (querySelectorAll selRelativeLink element) = Some name ->
    Str.elem name excludedRoutes = false /\ Str.startsWith name "hashtag" = false
    /\ Str.startsWith name "search" = false /\ name <> "" /\ plain name).
  { intros H. apply fallbackLoop_some in H as ((_ & _ & _ & href & _ & _ & _ & Hh & _) & _ & He & _).
    destruct (fallback_not_a_route name He) as (H1 & H2 & H3).
    destruct (Hs href Hh) as [H4 H5]. tauto. }
  destruct (querySelector selUserName element) as [u|]; [|exact Hf].
  destruct (primaryLoop (querySelectorAll selRelativeLink u)) as [n|] eqn:Ep; [|exact Hf].
  intros [= ->]. apply primaryLoop_some in Ep as ((_ & href & _ & _ & Hh) & H1 & H2 & H3 & _).
  destruct (Hs href Hh) as [H4 H5]. tauto.
Qed.

Lemma extracted_name_is_not_a_route_witness :
  extractUsername (Scenario.userCell 10 "alice" "Alice") = Some "alice"
  /\ Str.elem "alice" excludedRoutes = false
  /\ Str.startsWith "alice" "hashtag" = false
  /\ Str.startsWith "alice" "search" = false
  /\ "alice" <> ""
  /\ plain "alice".
Proof.
  split; [vm_compute; reflexivity|].
  apply (extracted_name_is_not_a_route (Scenario.userCell 10 "alice" "Alice") "alice").
  vm_compute; reflexivity.
Defined.

(** A container with no user-name element below it - a [User-Name] element
    is itself such a container - gets its handle from the fallback loop.
    That loop passes over every name that starts with a reserved route, so
    no handle that starts with 'i', 'home', 'lists' and so on comes out of
    it, nor one that holds 'status' or is a number.  And it looks at the
    first link of a name only: the name comes from the first link of the
    container with that name, and that link shows a text that starts with
    [@]. *)
Theorem fallback_skips_names_that_start_with_a_route (element : Node)
    (name : string) :
  querySelector selUserName element = None ->
  extractUsername element = Some name ->
  (forall route, In route excludedRoutesFallback -> Str.startsWith name route = false)
  /\ Str.startsWith name "i" = false
  /\ Str.includes name "status" = false
  /\ Str.isNumeric name = false
  /\ exists before link after href,
       querySelectorAll selRelativeLink element = (before ++ link :: after)%list
       /\ (forall l, In l before ->
             getAttribute "href" l ≫= Str.firstSegment <> Some name)
       /\ getAttribute "href" link = Some href
       /\ Str.firstSegment href = Some name
       /\ Str.startsWith (Str.trim (textContent link)) "@" = true.
Proof.
  intros Hu. unfold extractUsername. rewrite Hu.
  intros H. apply fallbackLoop_some in H as (Hl & _ & He & Hs & Hn).
  assert (Hr : forall route, In route excludedRoutesFallback ->
                             Str.startsWith name route = false).
  { intros route Hin. now apply (elem_excluded name route). }
  split; [exact Hr|]. split; [|now repeat split].
  apply Hr. unfold excludedRoutesFallback, excludedRoutes. simpl. tauto.
Qed.

Lemma fallback_skips_names_that_start_with_a_route_witness :
  querySelector selUserName Cases.handleOnly = None
  /\ extractUsername Cases.handleOnly = Some "alice"
  /\ Str.startsWith "alice" "i" = false.
Proof.
  split; [vm_compute; reflexivity|]. split; [vm_compute; reflexivity|].
  apply (fallback_skips_names_that_start_with_a_route Cases.handleOnly "alice");
    vm_compute; reflexivity.
Defined.

(** So alice is found in her cell, through the user-name element, and not
    in the user-name element when the scan comes to it: its first link to
    alice shows her display name.  And isabel, in a container that shows
    her handle only, is not found either. *)
Lemma names_the_fallback_loop_misses :
  extractUsername (Scenario.userCell 10 "alice" "Alice") = Some "alice"
  /\ extractUsername Cases.aliceName = None
  /\ extractUsername (Cases.handleLink 30 "alice") = Some "alice"
  /\ extractUsername (Cases.handleLink 30 "isabel") = None.
Proof. vm_compute. repeat split; reflexivity. Qed.

Lemma plain_cons c s :
  plain (String c s) -> c <> "/"%char /\ c <> "?"%char /\ plain s.
Proof.
  unfold plain. cbn [Str.includes String.prefix]. intros [H1 H2].
  apply orb_false_iff in H1 as [H1 H1'], H2 as [H2 H2'].
  destruct (ascii_dec "/" c) as [<-|N1]; [now destruct s|].
  destruct (ascii_dec "?" c) as [<-|N2]; [now destruct s|].
  repeat split; congruence.
Qed.

Lemma segment_app name rest :
  plain name ->
  rest = "" \/ Str.startsWith rest "/" = true \/ Str.startsWith rest "?" = true ->
  Str.segment (name ++ rest) = name.
Proof.
  intros Hp Hr. induction name as [|c name IH]; simpl.
  - destruct Hr as [->|Hr]; [reflexivity|]. destruct rest as [|d rest]; [reflexivity|].
    cbn [Str.segment]. unfold Str.startsWith in Hr. cbn [String.prefix] in Hr.
    destruct (ascii_dec "/" d) as [<-|_]; [reflexivity|].
    destruct (ascii_dec "?" d) as [<-|_]; [reflexivity|].
    destruct Hr; discriminate.
  - apply plain_cons in Hp as (N1 & N2 & Hp).
    apply Ascii.eqb_neq in N1, N2. rewrite N1, N2. simpl. now rewrite IH.
Qed.

Lemma segment_split s :
  exists rest,
    s = (Str.segment s ++ rest)%string
    /\ (rest = "" \/ Str.startsWith rest "/" = true \/ Str.startsWith rest "?" = true).
Proof.
  induction s as [|c s (rest & E & Hr)]; [exists ""; now split; [|left]|].
  cbn [Str.segment].
  destruct (Ascii.eqb c "/") eqn:E1.
  { apply Ascii.eqb_eq in E1. subst c. exists (String "/" s). split; [reflexivity|].
    right. left. unfold Str.startsWith. cbn [String.prefix].
    destruct (ascii_dec "/" "/"); [now destruct s|congruence]. }
  destruct (Ascii.eqb c "?") eqn:E2.
  { apply Ascii.eqb_eq in E2. subst c. exists (String "?" s). split; [reflexivity|].
    right. right. unfold Str.startsWith. cbn [String.prefix].
    destruct (ascii_dec "?" "?"); [now destruct s|congruence]. }
  exists rest. split; [|exact Hr]. cbn [orb].
  change (String c s = String c (Str.segment s ++ rest)%string). now f_equal.
Qed.

(** The pattern of lines 232 and 254 takes the first segment of a path:
    [href] gives [name] exactly when [href] is a slash, the name - not
    empty, with no slash and no question mark - and then nothing, or a
    rest that starts with a slash or a question mark.  So '/alice',
    '/alice/status/1' and '/alice?lang=en' all give 'alice'. *)
Theorem first_segment_of_a_path (href name : string) :
  Str.firstSegment href = Some name
  <-> name <> "" /\ plain name
      /\ exists rest,
           href = ("/" ++ name ++ rest)%string
           /\ (rest = "" \/ Str.startsWith rest "/" = true
               \/ Str.startsWith rest "?" = true).
Proof.
  split.
  - intros H. apply firstSegment_some in H as (Hn & Hp & tail & -> & Hs).
    split; [exact Hn|]. split; [exact Hp|].
    destruct (segment_split tail) as (rest & E & Hr). exists rest.
    split; [|exact Hr]. simpl. f_equal. now rewrite <- Hs.
  - intros (Hn & Hp & rest & -> & Hr).
    change ("/" ++ name ++ rest)%string with (String "/" (name ++ rest)).
    unfold Str.firstSegment. cbv iota.
    rewrite (segment_app name rest Hp Hr). now destruct name.
Qed.

(** ** The cache across sessions *)

(** What [saveCache] wrote is what a later session loads, less the null
    entries, for thirty days: a session that starts earlier than thirty
    days after the save has every location of the cache that was saved,
    and a session that starts then or later has none of them.  The handle
    [__proto__] is the exception: its location is never written, so no
    later session has it. *)
Theorem saved_locations_are_loaded_until_they_expire (s : State) (doc : list Node)
    (now : Z) (toggle : option bool) (name : string) :
  runtimeValid s = true ->
  0 <= clock s ->
  locationCache (init doc now toggle (storage (saveCache s)) true) !! name
  = if bool_decide (name = "__proto__") then None
    else if now <? clock s + THIRTY_DAYS
    then match locationCache s !! name with
         | Some (Some loc) => Some (Some loc)
         | _ => None
         end
    else None.
Proof.
  intros Hv Hc. rewrite init_cache, (saveCache_storage s Hv).
  rewrite lookup_omap. case_bool_decide as Hn.
  { subst name. now rewrite lookup_fmap, lookup_delete_eq. }
  rewrite (saved_entry s name Hn).
  destruct (locationCache s !! name) as [[loc|]|]; simpl.
  - unfold loadable; simpl.
    replace (clock s + THIRTY_DAYS =? 0) with false
      by (symmetry; apply Z.eqb_neq; unfold THIRTY_DAYS; lia).
    simpl. now destruct (now <? _).
  - unfold loadable; simpl. destruct (_ && _), (now <? _); reflexivity.
  - now destruct (now <? _).
Qed.

Lemma saved_locations_are_loaded_until_they_expire_witness :
  runtimeValid Scenario.warm = true
  /\ 0 <= clock Scenario.warm
  /\ locationCache
       (init Scenario.page1 (Scenario.t0 + 86400000) None
          (storage (saveCache Scenario.warm)) true) !! "alice"
     = Some (Some "Paris, France")
  /\ locationCache
       (init Scenario.page1 (Scenario.t0 + THIRTY_DAYS) None
          (storage (saveCache Scenario.warm)) true) !! "alice"
     = None.
Proof.
  assert (Hv : runtimeValid Scenario.warm = true) by (vm_compute; reflexivity).
  assert (Hc : 0 <= clock Scenario.warm) by (vm_compute; discriminate).
  split; [exact Hv|]. split; [exact Hc|]. split.
  - rewrite (saved_locations_are_loaded_until_they_expire Scenario.warm
               Scenario.page1 (Scenario.t0 + 86400000) None "alice" Hv Hc).
    vm_compute; reflexivity.
  - rewrite (saved_locations_are_loaded_until_they_expire Scenario.warm
               Scenario.page1 (Scenario.t0 + THIRTY_DAYS) None "alice" Hv Hc).
    vm_compute; reflexivity.
Defined.

(** A save at time [clock s] writes one entry for every handle of the
    in-memory cache but [__proto__], each with [cachedAt] the time of the
    save and [expiry] thirty days later, whatever the entry had before; the
    30 s interval and the callback of the 5 s timer both save this way. *)
Theorem save_restamps_every_entry_but_proto (s : State) :
  runtimeValid s = true ->
  exists snapshot,
    storage (saveCache s) = Some snapshot
    /\ snapshot !! "__proto__" = None
    /\ (forall name,
          name <> "__proto__" ->
          snapshot !! name
          = (fun loc => {| location := loc; expiry := clock s + THIRTY_DAYS;
                           cachedAt := clock s |}) <$> locationCache s !! name)
    /\ (forall name entry,
          snapshot !! name = Some entry ->
          expiry entry = clock s + THIRTY_DAYS /\ cachedAt entry = clock s)
    /\ storage (runTask T_saveCacheInterval s) = Some snapshot
    /\ storage (runTask T_saveCacheTimeout s) = Some snapshot.
Proof.
  intros Hv. rewrite (saveCache_storage s Hv). eexists. split; [reflexivity|].
  split; [now rewrite lookup_fmap, lookup_delete_eq|].
  split; [intros name Hn; now apply saved_entry|]. split; [|split].
  - intros name entry. rewrite lookup_fmap.
    destruct (delete "__proto__" (locationCache s) !! name); simpl; [|discriminate].
    intros [= <-]. split; reflexivity.
  - simpl. unfold saveCache; simpl. now rewrite Hv.
  - simpl. unfold saveCacheCallback, saveCache; simpl. now rewrite Hv.
Qed.

Lemma save_restamps_every_entry_but_proto_witness :
  runtimeValid Scenario.warm = true
  /\ storage (saveCache Scenario.warm) ≫= (fun snapshot => snapshot !! "alice")
     = Some {| location := Some "Paris, France";
               expiry := Scenario.t0 + THIRTY_DAYS; cachedAt := Scenario.t0 |}.
Proof.
  assert (Hv : runtimeValid Scenario.warm = true) by (vm_compute; reflexivity).
  split; [exact Hv|].
  destruct (save_restamps_every_entry_but_proto Scenario.warm Hv)
    as (snapshot & Hs & _ & Hl & _).
  rewrite Hs. simpl. rewrite Hl by discriminate. vm_compute; reflexivity.
Defined.

(** ** What the script leaves alone *)

(** A record of equations that hold by computation. *)
Ltac same_fields :=
  constructor; simpl;
  first [reflexivity
        |(intros ? ? H; exact H)
        |(intros ? H; left; exact H)
        |lia
        |idtac].

Section Steady.

Lemma noNewEntry_refl s : noNewEntry s s.
Proof. intros name loc H. exact H. Qed.

Lemma noOldListener_refl s : noOldListener s s.
Proof. intros r H. now left. Qed.

Lemma steady_refl s : steady s s.
Proof. same_fields. Qed.

Lemma noOldListener_trans s1 s2 s3 :
  (nextRequest s1 <= nextRequest s2)%nat ->
  noOldListener s1 s2 -> noOldListener s2 s3 -> noOldListener s1 s3.
Proof.
  intros Hn H1 H2 r Hr. destruct (H2 r Hr) as [Hr2|Hr2]; [now apply H1|].
  right. lia.
Qed.

Lemma steady_trans s1 s2 s3 : steady s1 s2 -> steady s2 s3 -> steady s1 s3.
Proof.
  intros [] []. constructor; try congruence.
  - intros name loc H. auto.
  - lia.
  - now apply (noOldListener_trans s1 s2 s3).
Qed.

Lemma pageOnly_steady s s' : pageOnly s s' -> steady s s'.
Proof.
  intros (d & n & ->). same_fields.
Qed.

Lemma saves_setTimeout t d s :
  saves (setTimeout t d s)
  = (saves s ++ List.filter isSave [(clock s + Z.max 0 d, t)])%list.
Proof. unfold saves, setTimeout. simpl. apply List.filter_app. Qed.

Lemma setTimeout_steady t d s : isSave (0, t) = false -> steady s (setTimeout t d s).
Proof.
  intros Ht. same_fields.
  rewrite saves_setTimeout. simpl. unfold isSave in *. simpl in *.
  rewrite Ht. apply app_nil_r.
Qed.

(** The variables of the script that [steady] does not look at. *)
Lemma with_requestQueue_steady v s : steady s (with_requestQueue v s).
Proof. same_fields. Qed.

Lemma with_isProcessingQueue_steady v s : steady s (with_isProcessingQueue v s).
Proof. same_fields. Qed.

Lemma with_rateLimitResetTime_steady v s : steady s (with_rateLimitResetTime v s).
Proof. same_fields. Qed.

Lemma with_processingUsernames_steady v s : steady s (with_processingUsernames v s).
Proof. same_fields. Qed.

Lemma with_activeRequests_steady v s : steady s (with_activeRequests v s).
Proof. same_fields. Qed.

Lemma enqueueJob_steady j s : steady s (enqueueJob j s).
Proof. same_fields. Qed.

Lemma dispatch_steady r s : steady s (dispatch r s).
Proof.
  unfold dispatch, makeLocationRequest.
  eapply steady_trans; [|apply setTimeout_steady; reflexivity].
  same_fields.
  intros r' [Hr'|[<-|[]]]%in_app_or; [now left|right; simpl; lia].
Qed.

Lemma dispatchLoop_steady q : forall s, steady s (dispatchLoop q s).
Proof.
  induction q as [|r q IH]; intros s; simpl; [same_fields|].
  destruct (_ <? MAX_CONCURRENT_REQUESTS); [|same_fields].
  destruct (_ <? MIN_REQUEST_INTERVAL); [now apply setTimeout_steady|].
  eapply steady_trans; [|apply IH].
  eapply steady_trans; [apply (with_requestQueue_steady q)|apply dispatch_steady].
Qed.

Lemma queueWake_steady s : steady s (queueWake s).
Proof.
  unfold queueWake. destruct (requestQueue s) as [|r q]; [apply steady_refl|].
  eapply steady_trans; [|apply dispatchLoop_steady].
  eapply steady_trans; [apply (with_requestQueue_steady q)|apply dispatch_steady].
Qed.

Lemma processRequestQueue_steady s : steady s (processRequestQueue s).
Proof.
  unfold processRequestQueue. destruct (_ || _); [apply steady_refl|].
  destruct (_ && _); [now apply setTimeout_steady|].
  eapply steady_trans; [|apply dispatchLoop_steady].
  destruct (0 <? rateLimitResetTime s); same_fields.
Qed.

Lemma getUserLocation_steady name w s : steady s (snd (getUserLocation name w s)).
Proof.
  unfold getUserLocation.
  destruct (locationCache s !! name) as [[cached|]|]; simpl.
  - apply steady_refl.
  - eapply steady_trans; [|apply processRequestQueue_steady].
    same_fields.
    intros n loc H. change (delete name (locationCache s) !! n = Some loc) in H.
    now apply lookup_delete_Some in H as [_ H].
  - eapply steady_trans; [|apply processRequestQueue_steady]. same_fields.
Qed.

Lemma addFlagToUsername_steady el name s :
  steady s (snd (addFlagToUsername el name s)).
Proof.
  apply (addFlagToUsername_cases (steady s)).
  - intros _. apply steady_refl.
  - intros _. now apply setTimeout_steady.
  - intros s2 s4 _ E Hp.
    assert (H2 : steady s s2).
    { rewrite E. eapply steady_trans; [apply pageOnly_steady, setFlagAdded_page|].
      apply with_processingUsernames_steady. }
    assert (H4 : steady s s4)
      by exact (steady_trans _ _ _ H2 (pageOnly_steady _ _ Hp)).
    split; [exact H4|]. intros w _ _.
    pose proof (getUserLocation_steady name w s4) as HG.
    destruct (getUserLocation name w s4) as [[loc|] s5]; simpl in HG.
    + eapply steady_trans; [exact H4|].
      eapply steady_trans; [exact HG|apply enqueueJob_steady].
    + eapply steady_trans; [exact H4|exact HG].
Qed.

Lemma startAnnotation_steady c name s : steady s (startAnnotation c name s).
Proof.
  apply (startAnnotation_cases (steady s)).
  - apply addFlagToUsername_steady.
  - intros s' H. eapply steady_trans; [exact H|apply enqueueJob_steady].
Qed.

Lemma fold_steady {B} (f : State -> B -> State) (l : list B) :
  (forall a b, steady a (f a b)) -> forall s, steady s (fold_left f l s).
Proof.
  intros Hf. induction l as [|b l IH]; intros s; simpl; [apply steady_refl|].
  eapply steady_trans; [apply Hf|apply IH].
Qed.

Lemma redriveWaiting_steady name s : steady s (redriveWaiting name s).
Proof.
  unfold redriveWaiting. apply fold_steady. intros a c.
  destruct (getNode c (document a)); [|apply steady_refl].
  case_bool_decide; [apply addFlagToUsername_steady|apply steady_refl].
Qed.

Lemma scanContainer_steady s c : steady s (scanContainer s c).
Proof.
  unfold scanContainer.
  destruct (getNode c (document s)) as [container|]; [|apply steady_refl].
  destruct (extractUsername container) as [name|]; [|apply steady_refl].
  destruct (Str.orNull _) as [status|]; [|apply startAnnotation_steady].
  destruct (Str.eqb status "failed"); [apply startAnnotation_steady|apply steady_refl].
Qed.

Lemma processUsernames_steady s : steady s (processUsernames s).
Proof.
  unfold processUsernames. destruct (negb _); [apply steady_refl|].
  apply fold_steady. apply scanContainer_steady.
Qed.

Lemma bridgeTimeout_steady rid s : steady s (bridgeTimeout rid s).
Proof.
  unfold bridgeTimeout. destruct (List.find _ _); [|apply steady_refl].
  same_fields.
  intros r [Hr _]%filter_In. now left.
Qed.

Variable getCountryFlag : string -> Completion (option string).

Lemma tryBlock_steady w loc s : steady s (snd (tryBlock getCountryFlag w loc s)).
Proof.
  unfold tryBlock.
  assert (H1 : steady s (removeShimmer w s))
    by (apply pageOnly_steady, removeShimmer_page).
  assert (Hf : forall v, steady s (setFlagAdded (usernameElement w) v (removeShimmer w s))).
  { intros v. eapply steady_trans; [exact H1|apply pageOnly_steady, setFlagAdded_page]. }
  destruct (Str.orNull loc) as [l|]; simpl; [|apply Hf].
  destruct (getCountryFlag l) as [flag|]; [|exact H1].
  destruct (Str.orNull flag) as [f|]; simpl; [|apply Hf].
  destruct (getNode _ _ ≫= _); simpl; [apply Hf|].
  destruct (match userNameContainer w with Some c => Some c | None => _ end); simpl.
  2:{ eapply steady_trans; [exact H1|]. apply pageOnly_steady.
      eapply pageOnly_trans; [apply pageOnly_nextNode|apply setFlagAdded_page]. }
  destruct (insertFlag _ _ _ _); simpl.
  - eapply steady_trans; [|apply redriveWaiting_steady].
    eapply steady_trans; [exact H1|]. apply pageOnly_steady.
    eapply pageOnly_trans; [apply pageOnly_nextNode|].
    eapply pageOnly_trans; [apply pageOnly_document|apply setFlagAdded_page].
  - eapply steady_trans; [exact H1|apply pageOnly_steady, pageOnly_nextNode].
Qed.

Lemma resume_steady w r s : steady s (resume getCountryFlag w r s).
Proof.
  unfold resume, finallyBlock.
  eapply steady_trans; [|apply with_processingUsernames_steady].
  destruct r as [loc|].
  - pose proof (tryBlock_steady w loc s) as HT.
    destruct (tryBlock getCountryFlag w loc s) as [[|] s']; simpl in HT; [exact HT|].
    eapply steady_trans; [exact HT|apply pageOnly_steady, catchBlock_page].
  - apply pageOnly_steady, catchBlock_page.
Qed.

Lemma runJob_steady j s : steady s (runJob getCountryFlag j s).
Proof.
  destruct j as [w v| | |w r|c]; simpl.
  - same_fields.
  - same_fields.
  - eapply steady_trans; [apply (with_activeRequests_steady (activeRequests s - 1))|].
    now apply setTimeout_steady.
  - apply resume_steady.
  - apply pageOnly_steady, setFlagAdded_page.
Qed.

Lemma onMutation_steady doc added url s : steady s (onMutation doc added url s).
Proof.
  unfold onMutation. simpl.
  set (s1 := with_nextNode _ _).
  assert (H1 : steady s s1).
  { subst s1. apply pageOnly_steady.
    eapply pageOnly_trans; [apply pageOnly_document|apply pageOnly_nextNode]. }
  destruct (observing s); [|exact H1].
  set (s2 := if extensionEnabled s && added then _ else _).
  assert (H2 : steady s s2).
  { subst s2. destruct (_ && _); [|exact H1].
    eapply steady_trans; [exact H1|now apply setTimeout_steady]. }
  change (observing s1) with (observing s).
  destruct url; [|exact H2].
  eapply steady_trans; [exact H2|now apply setTimeout_steady].
Qed.

(** A timer that fired is off the list. *)
Lemma saves_delete i due t s :
  timers s !! i = Some (due, t) -> isSave (due, t) = false ->
  saves (with_timers (delete i (timers s)) s) = saves s.
Proof.
  intros Hi Hw. destruct (timers_split _ _ _ Hi) as (l1 & l2 & E1 & E2).
  unfold saves. simpl. rewrite E2, E1, !List.filter_app. simpl. now rewrite Hw.
Qed.

Lemma fired_steady i due t s :
  timers s !! i = Some (due, t) -> isSave (due, t) = false ->
  steady s (with_timers (delete i (timers s)) s).
Proof.
  intros Hi Hs. same_fields. now apply (saves_delete i due t).
Qed.

(** The tasks but those of the saves. *)
Lemma runTask_steady t s :
  isSave (0, t) = false -> t <> T_saveCacheInterval ->
  steady s (runTask t s).
Proof.
  intros H1 H2. destruct t; simpl; try congruence; try discriminate.
  - apply processUsernames_steady.
  - apply processRequestQueue_steady.
  - apply queueWake_steady.
  - apply bridgeTimeout_steady.
  - apply pageOnly_steady, waitingWake_page.
Qed.

End Steady.

(** ** Along every run *)

(** *** The observers and the request identifiers *)

Lemma evolves_refl s : evolves s s.
Proof. same_fields. Qed.

Lemma evolves_trans s1 s2 s3 : evolves s1 s2 -> evolves s2 s3 -> evolves s1 s3.
Proof.
  intros [] []. constructor; [congruence|lia|].
  now apply (noOldListener_trans s1 s2 s3).
Qed.

Lemma steady_evolves s s' : steady s s' -> evolves s s'.
Proof. intros []. now constructor. Qed.

Lemma saveCache_evolves s : evolves s (saveCache s).
Proof. unfold saveCache. destruct (negb _); same_fields. Qed.

Lemma saveCacheEntry_evolves u l s : evolves s (saveCacheEntry u l s).
Proof.
  unfold saveCacheEntry. destruct (negb _); [same_fields|]. simpl.
  destruct (saveCacheTimeout s); same_fields.
Qed.

Lemma removeListener_evolves rid s : evolves s (removeListener rid s).
Proof. same_fields. intros r [Hr _]%filter_In. now left. Qed.

Lemma handler_evolves r data s : evolves s (handler r data s).
Proof.
  unfold handler. destruct data as [name rid loc lim| |]; try apply evolves_refl.
  destruct (_ && _); [|apply evolves_refl].
  eapply evolves_trans; [apply removeListener_evolves|].
  eapply evolves_trans; [|apply steady_evolves, enqueueJob_steady].
  destruct (negb lim); [apply saveCacheEntry_evolves|apply evolves_refl].
Qed.

Lemma handlers_evolves data rs : forall s,
  evolves s (fold_left (fun s r => handler r data s) rs s).
Proof.
  induction rs as [|r rs IH]; intros s; simpl; [apply evolves_refl|].
  eapply evolves_trans; [apply handler_evolves|apply IH].
Qed.

Lemma onWindowMessage_evolves data s : evolves s (onWindowMessage data s).
Proof.
  unfold onWindowMessage.
  eapply evolves_trans; [|apply handlers_evolves].
  destruct (observing s); [|apply evolves_refl].
  destruct data; same_fields.
Qed.

Lemma with_timers_evolves v s : evolves s (with_timers v s).
Proof. same_fields. Qed.

Lemma saveCacheCallback_evolves s : evolves s (saveCacheCallback s).
Proof.
  unfold saveCacheCallback. destruct (negb _); [same_fields|].
  eapply evolves_trans; [apply saveCache_evolves|same_fields].
Qed.

Lemma runTask_evolves t s : evolves s (runTask t s).
Proof.
  destruct t; try (apply steady_evolves, runTask_steady; [reflexivity|discriminate]);
    simpl.
  - apply saveCacheCallback_evolves.
  - same_fields.
  - eapply evolves_trans; [apply with_timers_evolves|apply saveCache_evolves].
Qed.

Section RunEvolves.

Variable getCountryFlag : string -> Completion (option string).

Lemma step_evolves s ev : evolves s (step getCountryFlag s ev).
Proof.
  destruct ev as [dt|i| |data|enabled|doc added url|]; simpl.
  - destruct (dt <? 0); same_fields.
  - destruct (idle s); [|apply evolves_refl].
    destruct (timers s !! i) as [[due t]|]; [|apply evolves_refl].
    destruct (due <=? clock s); [|apply evolves_refl].
    eapply evolves_trans; [apply with_timers_evolves|apply runTask_evolves].
  - destruct (jobs s) as [|j rest]; [apply evolves_refl|].
    eapply evolves_trans; [|apply steady_evolves, runJob_steady]. same_fields.
  - destruct (idle s); [apply onWindowMessage_evolves|apply evolves_refl].
  - destruct (idle s); [|apply evolves_refl]. unfold onExtensionToggle.
    destruct enabled; same_fields.
  - destruct (idle s); [|apply evolves_refl]. apply steady_evolves, onMutation_steady.
  - destruct (idle s); same_fields.
Qed.

Lemma run_evolves trace : forall s, evolves s (run getCountryFlag s trace).
Proof.
  induction trace as [|ev trace IH]; intros s; [apply evolves_refl|].
  simpl. eapply evolves_trans; [apply step_evolves|apply IH].
Qed.

End RunEvolves.


(** Right after a dispatch the loop sends nothing more: it waits, or it
    is left. *)
Lemma dispatchLoop_just_dispatched q s :
  lastRequestTime s = clock s ->
  requestQueue (dispatchLoop q s) = requestQueue s
  /\ posted (dispatchLoop q s) = posted s.
Proof.
  intros H. destruct q as [|r q]; simpl; [now split|].
  destruct (_ <? MAX_CONCURRENT_REQUESTS); [|now split].
  replace (clock s - lastRequestTime s) with 0 by lia. now split.
Qed.

(** *** With the extension context gone *)

Lemma frozen_refl s : frozen s s.
Proof. same_fields. Qed.

Lemma frozen_trans s1 s2 s3 : frozen s1 s2 -> frozen s2 s3 -> frozen s1 s3.
Proof.
  intros [] []. constructor; [congruence|congruence|].
  intros name loc H. auto.
Qed.

Lemma steady_frozen s s' : steady s s' -> frozen s s'.
Proof. intros []. now constructor. Qed.

Lemma saveCache_invalid s : runtimeValid s = false -> saveCache s = s.
Proof. intros H. unfold saveCache. now rewrite H. Qed.

Lemma saveCacheEntry_invalid u l s : runtimeValid s = false -> saveCacheEntry u l s = s.
Proof. intros H. unfold saveCacheEntry. now rewrite H. Qed.

Lemma handler_frozen r data s : runtimeValid s = false -> frozen s (handler r data s).
Proof.
  intros Hv. unfold handler. destruct data as [name rid loc lim| |]; try apply frozen_refl.
  destruct (_ && _); [|apply frozen_refl].
  rewrite saveCacheEntry_invalid by exact Hv.
  destruct (negb lim); same_fields.
Qed.

Lemma handlers_frozen data rs : forall s,
  runtimeValid s = false ->
  frozen s (fold_left (fun s r => handler r data s) rs s).
Proof.
  induction rs as [|r rs IH]; intros s Hv; simpl; [apply frozen_refl|].
  pose proof (handler_frozen r data s Hv) as Hh.
  eapply frozen_trans; [exact Hh|]. apply IH. destruct Hh; congruence.
Qed.

Lemma onWindowMessage_frozen data s :
  runtimeValid s = false -> frozen s (onWindowMessage data s).
Proof.
  intros Hv. unfold onWindowMessage.
  set (s1 := if observing s then rateLimitListener data s else s).
  assert (H1 : frozen s s1).
  { subst s1. destruct (observing s); [|apply frozen_refl].
    destruct data; same_fields. }
  eapply frozen_trans; [exact H1|]. apply handlers_frozen.
  destruct H1; congruence.
Qed.

Lemma runTask_frozen t s : runtimeValid s = false -> frozen s (runTask t s).
Proof.
  intros Hv.
  destruct t; try (apply steady_frozen, runTask_steady; [reflexivity|discriminate]);
    simpl.
  - unfold saveCacheCallback. rewrite Hv. same_fields.
  - same_fields.
  - rewrite saveCache_invalid by exact Hv. same_fields.
Qed.

Section RunFrozen.

Variable getCountryFlag : string -> Completion (option string).

Lemma step_frozen s ev : runtimeValid s = false -> frozen s (step getCountryFlag s ev).
Proof.
  intros Hv. destruct ev as [dt|i| |data|enabled|doc added url|]; simpl.
  - destruct (dt <? 0); same_fields.
  - destruct (idle s); [|apply frozen_refl].
    destruct (timers s !! i) as [[due t]|]; [|apply frozen_refl].
    destruct (due <=? clock s); [|apply frozen_refl].
    eapply frozen_trans; [|apply runTask_frozen; exact Hv]. same_fields.
  - destruct (jobs s) as [|j rest]; [apply frozen_refl|].
    eapply frozen_trans; [|apply steady_frozen, runJob_steady]. same_fields.
  - destruct (idle s); [now apply onWindowMessage_frozen|apply frozen_refl].
  - destruct (idle s); [|apply frozen_refl]. unfold onExtensionToggle.
    destruct enabled; same_fields.
  - destruct (idle s); [|apply frozen_refl]. apply steady_frozen, onMutation_steady.
  - destruct (idle s); [|apply frozen_refl]. same_fields. now rewrite Hv.
Qed.

Lemma run_frozen trace : forall s,
  runtimeValid s = false -> frozen s (run getCountryFlag s trace).
Proof.
  induction trace as [|ev trace IH]; intros s Hv; [apply frozen_refl|].
  simpl. pose proof (step_frozen s ev Hv) as Hs.
  eapply frozen_trans; [exact Hs|]. apply IH. destruct Hs; congruence.
Qed.

End RunFrozen.

(** *** The timer of [saveCacheEntry] *)

Lemma SaveInv_same s s' :
  saves s' = saves s -> saveCacheTimeout s' = saveCacheTimeout s ->
  clock s <= clock s' -> SaveInv s -> SaveInv s'.
Proof.
  unfold SaveInv. intros -> -> Hc.
  destruct (saves s) as [|[due t] [|]]; try tauto.
  intros [H1 H2]. split; [exact H1|lia].
Qed.

Lemma steady_save s s' : steady s s' -> SaveInv s -> SaveInv s'.
Proof. intros []. apply SaveInv_same; [assumption|assumption|lia]. Qed.

Lemma saveCache_save s : SaveInv s -> SaveInv (saveCache s).
Proof. unfold saveCache. destruct (negb _); [tauto|]. now apply SaveInv_same. Qed.

Lemma saveCacheEntry_save u l s : SaveInv s -> SaveInv (saveCacheEntry u l s).
Proof.
  unfold saveCacheEntry. destruct (negb _); [tauto|]. simpl.
  destruct (saveCacheTimeout s) eqn:E; [now apply SaveInv_same|].
  unfold SaveInv. rewrite E. intros H.
  change (saves (with_saveCacheTimeout true (setTimeout T_saveCacheTimeout 5000
            (with_locationCache (<[u:=l]> (locationCache s)) s))))
    with (saves (setTimeout T_saveCacheTimeout 5000 s)).
  rewrite saves_setTimeout.
  destruct (saves s) as [|[due t] [|]]; [|destruct H; discriminate|destruct H].
  simpl. split; [reflexivity|lia].
Qed.

Lemma handler_save r data s : SaveInv s -> SaveInv (handler r data s).
Proof.
  intros H. unfold handler. destruct data as [name rid loc lim| |]; try exact H.
  destruct (_ && _); [|exact H].
  apply (SaveInv_same (if negb lim
                       then saveCacheEntry (b_screenName r) (Str.orNull loc)
                              (removeListener (requestId r) s)
                       else removeListener (requestId r) s));
    [reflexivity|reflexivity|reflexivity|].
  destruct (negb lim); [apply saveCacheEntry_save|]; now apply (SaveInv_same s).
Qed.

Lemma handlers_save data rs : forall s,
  SaveInv s -> SaveInv (fold_left (fun s r => handler r data s) rs s).
Proof.
  induction rs as [|r rs IH]; intros s H; simpl; [exact H|].
  apply IH. now apply handler_save.
Qed.

Lemma onWindowMessage_save data s : SaveInv s -> SaveInv (onWindowMessage data s).
Proof.
  intros H. unfold onWindowMessage. apply handlers_save.
  destruct (observing s); [|exact H].
  destruct data; exact H.
Qed.

Section RunSave.

Variable getCountryFlag : string -> Completion (option string).

Lemma step_save s ev : SaveInv s -> SaveInv (step getCountryFlag s ev).
Proof.
  intros H. destruct ev as [dt|i| |data|enabled|doc added url|]; simpl.
  - destruct (dt <? 0) eqn:E; [exact H|]. apply Z.ltb_ge in E.
    apply (SaveInv_same s); [reflexivity|reflexivity|simpl; lia|exact H].
  - destruct (idle s); [|exact H].
    destruct (timers s !! i) as [[due t]|] eqn:Hi; [|exact H].
    destruct (due <=? clock s); [|exact H].
    assert (Hother : isSave (due, t) = false ->
                     SaveInv (with_timers (delete i (timers s)) s)).
    { intros Hs. apply (SaveInv_same s); [|reflexivity|reflexivity|exact H].
      now apply (saves_delete i due t). }
    assert (Hone : isSave (due, t) = true ->
                   saves (with_timers (delete i (timers s)) s) = []
                   /\ saveCacheTimeout s = true).
    { intros Hs. destruct (timers_split _ _ _ Hi) as (l1 & l2 & E1 & E2).
      unfold SaveInv, saves in *. simpl. rewrite E1 in H.
      rewrite List.filter_app in H. simpl in H. rewrite Hs in H.
      rewrite E2, List.filter_app.
      destruct (List.filter isSave l1) as [|[d1 t1] [|]];
        destruct (List.filter isSave l2); simpl in *; tauto. }
    destruct t;
      try (eapply steady_save; [apply runTask_steady; [reflexivity|discriminate]|];
           now apply Hother).
    + destruct (Hone eq_refl) as [Hs Hf]. simpl.
      unfold saveCacheCallback, SaveInv. simpl. destruct (negb (runtimeValid s)).
      * change (saves (with_saveCacheTimeout false (with_timers (delete i (timers s)) s)))
          with (saves (with_timers (delete i (timers s)) s)).
        now rewrite Hs.
      * change (List.filter isSave (delete i (timers s)) = []) in Hs.
        unfold saves, settleLater, saveCache. simpl.
        destruct (negb (runtimeValid s)); simpl; rewrite List.filter_app, Hs; simpl;
          (split; [exact Hf|lia]).
    + destruct (Hone eq_refl) as [Hs Hf]. simpl. unfold SaveInv.
      change (saves (with_saveCacheTimeout false (with_timers (delete i (timers s)) s)))
        with (saves (with_timers (delete i (timers s)) s)).
      now rewrite Hs.
    + simpl. apply saveCache_save.
      apply (SaveInv_same (with_timers (delete i (timers s)) s));
        [|reflexivity|reflexivity|now apply Hother].
      unfold saves. simpl. rewrite List.filter_app. simpl. apply app_nil_r.
  - destruct (jobs s) as [|j rest]; [exact H|].
    eapply steady_save; [apply runJob_steady|]. now apply (SaveInv_same s).
  - destruct (idle s); [now apply onWindowMessage_save|exact H].
  - destruct (idle s); [|exact H]. unfold onExtensionToggle. destruct enabled.
    + eapply steady_save; [now apply setTimeout_steady|]. now apply (SaveInv_same s).
    + now apply (SaveInv_same s).
  - destruct (idle s); [|exact H]. eapply steady_save; [apply onMutation_steady|exact H].
  - destruct (idle s); [|exact H]. now apply (SaveInv_same s).
Qed.

Lemma run_save trace : forall s, SaveInv s -> SaveInv (run getCountryFlag s trace).
Proof.
  induction trace as [|ev trace IH]; intros s H; [exact H|].
  simpl. apply IH. now apply step_save.
Qed.

End RunSave.

Lemma init_save doc now toggle stored valid : SaveInv (init doc now toggle stored valid).
Proof.
  unfold init, loadCache, SaveInv, saves. simpl.
  destruct (negb valid); simpl.
  - now destruct (match toggle with Some b => b | None => DEFAULT_ENABLED end).
  - destruct stored; simpl;
      now destruct (match toggle with Some b => b | None => DEFAULT_ENABLED end).
Qed.

(** ** What holds in every state the script reaches *)

Section Reached.

Variable getCountryFlag : string -> Completion (option string).


(** With the extension context gone - the extension was reloaded or removed
    under the page - the script writes nothing any more: whatever happens,
    the context stays invalid, the storage is as it was, and the cache gets
    no new entry. *)
Theorem invalidated_context_stops_all_writes (s : State) (trace : list Event) :
  runtimeValid s = false ->
  let s' := run getCountryFlag s trace in
  runtimeValid s' = false
  /\ storage s' = storage s
  /\ forall name loc,
       locationCache s' !! name = Some loc -> locationCache s !! name = Some loc.
Proof.
  intros Hv s'. destruct (run_frozen getCountryFlag trace s Hv) as [H1 H2 H3].
  split; [unfold s'; now rewrite H1|]. split; [exact H2|exact H3].
Qed.

(** An answer of the page script to a request that waits no more - it was
    answered, or its 10 s were over - is ignored: whenever it comes, it
    changes nothing, so a location that comes late is not cached. *)
Theorem answer_to_a_settled_request_is_ignored (s : State) (rid : nat)
    (trace : list Event) (name : string) (loc : option string) (lim : bool) :
  (rid < nextRequest s)%nat ->
  (forall r, In r (listeners s) -> requestId r <> rid) ->
  let s' := run getCountryFlag s trace in
  step getCountryFlag s' (WindowMessage (LocationResponse name rid loc lim)) = s'.
Proof.
  intros Hn Hl s'. simpl. destruct (idle s'); [|reflexivity].
  unfold onWindowMessage.
  replace (if observing s' then _ else s') with s' by now destruct (observing s').
  apply handlers_unmatched. intros r Hr. unfold matches.
  apply andb_false_iff. right. apply Nat.eqb_neq. intros ->.
  destruct (ev_listeners _ _ (run_evolves getCountryFlag trace s) r Hr) as [H|H].
  - now apply (Hl r).
  - lia.
Qed.

(** [saveCacheEntry] starts its 5 s timer only when [saveCache.timeout] is
    not set, and the callback of the timer clears it only after the write
    that it awaits.  So in every state the script reaches at most one of
    the two is pending, a 5 s timer or an awaited write, the timer is due
    within 5 s, and [saveCache.timeout] is set exactly while one is
    pending.  An entry that is cached with a valid context starts the timer
    when nothing is pending and no timer otherwise: when the timer fires
    and its callback awaits the write, an entry that is cached then has no
    timer of its own. *)
Theorem cache_save_is_debounced (doc : list Node) (now : Z)
    (toggle : option bool) (stored : option (gmap string CacheEntry))
    (valid : bool) (trace : list Event) :
  let s := run getCountryFlag (init doc now toggle stored valid) trace in
  match saves s with
  | [] => saveCacheTimeout s = false
  | [(due, _)] => saveCacheTimeout s = true /\ due <= clock s + 5000
  | _ => False
  end
  /\ (forall username location,
        runtimeValid s = true ->
        locationCache (saveCacheEntry username location s) !! username = Some location
        /\ saves (saveCacheEntry username location s)
           = match saves s with
             | [] => [(clock s + 5000, T_saveCacheTimeout)]
             | pending => pending
             end)
  /\ (forall i due,
        timers s !! i = Some (due, T_saveCacheTimeout) ->
        idle s = true -> due <= clock s -> runtimeValid s = true ->
        let s1 := step getCountryFlag s (Fire i) in
        saves s1 = [(clock s, T_saveCacheWritten)]
        /\ saveCacheTimeout s1 = true
        /\ forall username location,
             timers (saveCacheEntry username location s1) = timers s1).
Proof.
  intros s.
  assert (H : SaveInv s)
    by exact (run_save getCountryFlag trace _ (init_save doc now toggle stored valid)).
  split; [exact H|]. split.
  - intros u l Hv. unfold saveCacheEntry. rewrite Hv. simpl. split.
    { destruct (saveCacheTimeout s); simpl; apply lookup_insert_eq. }
    unfold SaveInv in H. destruct (saveCacheTimeout s) eqn:Ef.
    + change (saves (with_locationCache (<[u:=l]> (locationCache s)) s)) with (saves s).
      destruct (saves s) as [|x rest]; [discriminate|reflexivity].
    + change (saves (with_saveCacheTimeout true (setTimeout T_saveCacheTimeout 5000
                (with_locationCache (<[u:=l]> (locationCache s)) s))))
        with (saves (setTimeout T_saveCacheTimeout 5000 s)).
      rewrite saves_setTimeout.
      destruct (saves s) as [|[due t] [|]]; [reflexivity|destruct H; discriminate|destruct H].
  - intros i due Hi Hidle Hdue Hv s1.
    assert (H1 : SaveInv s1) by exact (step_save getCountryFlag s (Fire i) H).
    assert (E1 : s1 = settleLater T_saveCacheWritten
                        (saveCache (with_timers (delete i (timers s)) s))).
    { unfold s1. simpl. rewrite Hidle, Hi.
      destruct (due <=? clock s) eqn:El; [|apply Z.leb_gt in El; lia].
      simpl. unfold saveCacheCallback. simpl. now rewrite Hv. }
    assert (Hin : In (clock s, T_saveCacheWritten) (saves s1)).
    { rewrite E1. apply filter_In. split; [|reflexivity].
      unfold settleLater, saveCache. simpl. rewrite Hv. simpl.
      apply in_or_app. right. now left. }
    assert (Hv1 : runtimeValid s1 = true)
      by (rewrite E1; unfold settleLater, saveCache; simpl; rewrite Hv; exact Hv).
    unfold SaveInv in H1.
    destruct (saves s1) as [|[d t] [|]] eqn:E; [destruct Hin| |destruct H1].
    destruct Hin as [[= -> ->]|[]]. destruct H1 as [Hf _].
    split; [reflexivity|]. split; [exact Hf|].
    intros u l. unfold saveCacheEntry. rewrite Hv1. simpl. now rewrite Hf.
Qed.

(** The dispatch loop awaits at one place, with the queue not empty, and
    nothing else takes requests off the queue while it waits.  So in every
    state the script reaches a pending wake-up of the loop is the only one,
    the queue is not empty then and fewer than [MAX_CONCURRENT_REQUESTS]
    requests are active; when the timer fires, [requestQueue.shift()] gives
    the request at the head of the queue, and its message is posted. *)
Theorem dispatch_loop_wakes_on_a_request (doc : list Node) (now : Z)
    (toggle : option bool) (stored : option (gmap string CacheEntry))
    (valid : bool) (trace : list Event) (i : nat) (due : Z) :
  let s := run getCountryFlag (init doc now toggle stored valid) trace in
  timers s !! i = Some (due, T_queueWake) ->
  wakes s = [(due, T_queueWake)]
  /\ isProcessingQueue s = true
  /\ activeRequests s < MAX_CONCURRENT_REQUESTS
  /\ exists r q,
       requestQueue s = r :: q
       /\ (idle s = true -> due <= clock s ->
           let s1 := step getCountryFlag s (Fire i) in
           requestQueue s1 = q
           /\ posted s1 = (clock s, nextRequest s, q_screenName r) :: posted s).
Proof.
  intros s Hi.
  assert (H : Inv [] s)
    by exact (run_inv getCountryFlag trace _ (init_inv doc now toggle stored valid)).
  destruct H as ([_ _ Hw _ _] & _ & _).
  assert (Hin : In (due, T_queueWake) (wakes s)).
  { apply filter_In. split; [|reflexivity].
    apply list_elem_of_In. now apply (list_elem_of_lookup_2 _ i). }
  destruct (wakes s) as [|[d t] [|]] eqn:E; [destruct Hin| |destruct Hw].
  destruct Hin as [[= -> ->]|[]]. destruct Hw as (Hp & Ha & Hq & _).
  split; [reflexivity|]. split; [exact Hp|]. split; [exact Ha|].
  destruct (requestQueue s) as [|r q] eqn:Eq; [congruence|].
  exists r, q. split; [reflexivity|]. intros Hidle Hdue s1.
  assert (E1 : s1 = dispatchLoop q
                      (dispatch r (with_requestQueue q
                                     (with_timers (delete i (timers s)) s)))).
  { unfold s1. simpl. rewrite Hidle, Hi.
    destruct (due <=? clock s) eqn:El; [|apply Z.leb_gt in El; lia].
    simpl. unfold queueWake. simpl. now rewrite Eq. }
  rewrite E1.
  destruct (dispatchLoop_just_dispatched q
              (dispatch r (with_requestQueue q (with_timers (delete i (timers s)) s)))
              eq_refl) as [-> ->].
  split; reflexivity.
Qed.

End Reached.

Lemma invalidated_context_stops_all_writes_witness :
  let s' := run Scenario.exampleFlags Runs.orphaned Runs.afterwards in
  runtimeValid Runs.orphaned = false
  /\ runtimeValid s' = false
  /\ storage s' = storage Runs.orphaned
  /\ forall name loc,
       locationCache s' !! name = Some loc
       -> locationCache Runs.orphaned !! name = Some loc.
Proof.
  intros s'.
  assert (Hv : runtimeValid Runs.orphaned = false) by (vm_compute; reflexivity).
  split; [exact Hv|].
  exact (invalidated_context_stops_all_writes Scenario.exampleFlags Runs.orphaned
           Runs.afterwards Hv).
Defined.

(** There the answer came and the flag is shown, yet nothing was cached. *)
Lemma orphaned_script_annotates_without_caching :
  let s' := run Scenario.exampleFlags Runs.orphaned Runs.afterwards in
  flagAdded 10 s' = Some "true" /\ locationCache s' = ∅ /\ storage s' = None.
Proof. vm_compute. repeat split; reflexivity. Qed.

(** A location that is cached while the write is awaited: the location of
    alice is written, that of bob is cached with no timer of its own, and
    when the write is done nothing is pending that would save it but the
    30 s interval. *)
Lemma location_cached_while_the_write_is_awaited :
  saves Runs.aliceCached = [(1700000009000, T_saveCacheTimeout)]
  /\ saves Runs.writing = [(1700000009000, T_saveCacheWritten)]
  /\ saveCacheTimeout Runs.writing = true
  /\ locationCache Runs.bobCached !! "bob" = Some (Some "Paris, France")
  /\ timers Runs.bobCached
     = (timers Runs.writing ++ [(1700000009200, T_processRequestQueue)])%list
  /\ saves Runs.written = []
  /\ saveCacheTimeout Runs.written = false
  /\ storage Runs.written ≫= (fun snapshot => snapshot !! "bob") = None
  /\ List.map snd (timers Runs.written)
     = [T_saveCacheInterval; T_bridgeTimeout 0; T_bridgeTimeout 1;
        T_processRequestQueue; T_processRequestQueue].
Proof. vm_compute. repeat split; reflexivity. Qed.

Lemma answer_to_a_settled_request_is_ignored_witness :
  (0 < nextRequest Runs.timedOut)%nat
  /\ (forall r, In r (listeners Runs.timedOut) -> requestId r <> 0%nat)
  /\ step Scenario.exampleFlags
       (run Scenario.exampleFlags Runs.timedOut [Advance 500]) Runs.lateAnswer
     = run Scenario.exampleFlags Runs.timedOut [Advance 500].
Proof.
  assert (Hn : (0 < nextRequest Runs.timedOut)%nat) by (vm_compute; lia).
  assert (Hl : forall r, In r (listeners Runs.timedOut) -> requestId r <> 0%nat)
    by (intros r Hr; vm_compute in Hr; destruct Hr).
  split; [exact Hn|]. split; [exact Hl|].
  exact (answer_to_a_settled_request_is_ignored Scenario.exampleFlags Runs.timedOut
           0%nat [Advance 500] "alice" (Some "Paris, France") false Hn Hl).
Defined.

Lemma dispatch_loop_wakes_on_a_request_witness :
  let s := run Scenario.exampleFlags
             (init Runs.page3 Scenario.t0 None None true) Runs.firstScan in
  timers s !! 2%nat = Some (1700000004000, T_queueWake)
  /\ wakes s = [(1700000004000, T_queueWake)]
  /\ isProcessingQueue s = true.
Proof.
  intros s.
  assert (Hi : timers s !! 2%nat = Some (1700000004000, T_queueWake))
    by (vm_compute; reflexivity).
  split; [exact Hi|].
  pose proof (dispatch_loop_wakes_on_a_request Scenario.exampleFlags Runs.page3
                Scenario.t0 None None true Runs.firstScan 2%nat 1700000004000 Hi)
    as (H1 & H2 & _).
  split; [exact H1|exact H2].
Defined.

(** ** The request queue is driven *)

Section Driven.

Lemma driven_same s s' :
  requestQueue s' = requestQueue s -> activeRequests s' = activeRequests s ->
  (forall x, In x (timers s) -> In x (timers s')) ->
  driven s -> driven s'.
Proof.
  unfold driven. intros -> -> Ht [H|[(x & Hx & Hd)|H]]; [now left| |now right; right].
  right. left. exists x. split; [now apply Ht|exact Hd].
Qed.

Lemma driven_quiet s s' : quiet s s' -> driven s -> driven s'.
Proof. intros []. now apply driven_same. Qed.

Lemma driven_timer t d s : isDrive (0, t) = true -> driven (setTimeout t d s).
Proof.
  intros H. right. left. exists (clock s + Z.max 0 d, t). split; [|exact H].
  simpl. apply in_or_app. right. now left.
Qed.

Lemma dispatchLoop_driven q : forall s,
  requestQueue s = q -> 0 <= activeRequests s -> driven (dispatchLoop q s).
Proof.
  induction q as [|r q IH]; intros s Hq Ha; simpl; [now left|].
  destruct (activeRequests s <? MAX_CONCURRENT_REQUESTS) eqn:E.
  - destruct (_ <? MIN_REQUEST_INTERVAL); [now apply driven_timer|].
    apply IH; [reflexivity|simpl; lia].
  - apply Z.ltb_ge in E. right. right. simpl. unfold MAX_CONCURRENT_REQUESTS in E. lia.
Qed.

Lemma wake_pending s :
  QueueInv s -> isProcessingQueue s = true ->
  exists x, In x (timers s) /\ isDrive x = true.
Proof.
  intros [_ _ Hw _ _] Hp. destruct (wakes s) as [|[due t] l] eqn:E; [congruence|].
  assert (Hin : In (due, t) (wakes s)) by (rewrite E; now left).
  apply filter_In in Hin as [Hin Hk]. exists (due, t). split; [exact Hin|].
  unfold isWake in Hk. unfold isDrive. simpl in *. now destruct t.
Qed.

Lemma active_nonneg s : QueueInv s -> 0 <= activeRequests s.
Proof. intros [Hc _ _ _ _]. rewrite Hc. lia. Qed.

(** However it is left, [processRequestQueue] leaves the queue driven. *)
Lemma processRequestQueue_driven s : QueueInv s -> driven (processRequestQueue s).
Proof.
  intros HQ. unfold processRequestQueue.
  destruct (isProcessingQueue s) eqn:Hp; simpl.
  { right. left. now apply wake_pending. }
  case_bool_decide as Hq; [now left|].
  destruct (_ && _); [now apply driven_timer|].
  apply dispatchLoop_driven; [reflexivity|].
  pose proof (active_nonneg s HQ) as Ha.
  destruct (0 <? rateLimitResetTime s); exact Ha.
Qed.

Lemma getUserLocation_driven e name w s :
  screenName w = name -> Inv (name :: e) s -> driven s ->
  driven (snd (getUserLocation name w s)).
Proof.
  intros Hw H Hd. unfold getUserLocation.
  destruct (locationCache s !! name) as [[cached|]|]; [exact Hd| |]; simpl.
  - apply processRequestQueue_driven.
    apply (push_inv e name name w (with_locationCache _ s) Hw).
    apply (Inv_quiet _ s); [constructor; auto|exact H].
  - apply processRequestQueue_driven. apply (push_inv e name name w s Hw H).
Qed.

Lemma addFlagToUsername_driven e el name s :
  Inv e s -> driven s -> driven (snd (addFlagToUsername el name s)).
Proof.
  intros H Hd. apply addFlagToUsername_cases.
  - intros _. exact Hd.
  - intros _. apply (driven_quiet s); [|exact Hd]. now apply setTimeout_quiet.
  - intros s2 s4 Hn E Hp.
    assert (H2 : Inv (name :: e) s2 /\ driven s2).
    { rewrite E. split.
      - apply (start_inv e name (setFlagAdded el "processing" s)); [exact Hn|].
        apply (Inv_page e s); [apply setFlagAdded_page|exact H].
      - now apply (driven_same s). }
    assert (H4 : Inv (name :: e) s4) by now apply (Inv_page _ s2).
    assert (Hd4 : driven s4)
      by (apply (driven_quiet s2); [now apply pageOnly_quiet|apply H2]).
    split; [exact Hd4|]. intros w Hw _.
    pose proof (getUserLocation_driven e name w s4 Hw H4 Hd4) as HG.
    destruct (getUserLocation name w s4) as [[loc|] s5]; simpl in HG.
    + now apply (driven_same s5).
    + exact HG.
Qed.

Lemma startAnnotation_driven e c name s :
  Inv e s -> driven s -> driven (startAnnotation c name s).
Proof.
  intros H Hd. apply startAnnotation_cases.
  - now apply (addFlagToUsername_driven e).
  - intros s'. now apply driven_same.
Qed.

Lemma redriveWaiting_driven e name s :
  Inv e s -> driven s -> driven (redriveWaiting name s).
Proof.
  intros H Hd. unfold redriveWaiting.
  apply (fold_left_inv (fun s => Inv e s /\ driven s)); [|now split].
  intros a c [Ha Hda].
  destruct (getNode c (document a)); [|now split].
  case_bool_decide; [|now split].
  split; [now apply addFlagToUsername_inv|now apply (addFlagToUsername_driven e)].
Qed.

Lemma processUsernames_driven e s :
  Inv e s -> driven s -> driven (processUsernames s).
Proof.
  intros H Hd. unfold processUsernames. destruct (negb _); [exact Hd|].
  apply (fold_left_inv (fun s => Inv e s /\ driven s)); [|now split].
  intros a c [Ha Hda]. split; [now apply scanContainer_inv|].
  unfold scanContainer.
  destruct (getNode c (document a)) as [container|]; [|exact Hda].
  destruct (extractUsername container) as [name|]; [|exact Hda].
  destruct (Str.orNull _) as [status|]; [|now apply (startAnnotation_driven e)].
  destruct (Str.eqb status "failed"); [now apply (startAnnotation_driven e)|exact Hda].
Qed.

Variable getCountryFlag : string -> Completion (option string).

Lemma tryBlock_driven e w loc s :
  Inv e s -> driven s -> driven (snd (tryBlock getCountryFlag w loc s)).
Proof.
  intros H Hd. unfold tryBlock.
  assert (Hpage : forall s', pageOnly s s' -> Inv e s' /\ driven s').
  { intros s' Hp. split; [now apply (Inv_page e s)|].
    apply (driven_quiet s); [now apply pageOnly_quiet|exact Hd]. }
  assert (H1 : pageOnly s (removeShimmer w s)) by apply removeShimmer_page.
  assert (Hf : forall v, pageOnly s (setFlagAdded (usernameElement w) v (removeShimmer w s))).
  { intros v. eapply pageOnly_trans; [exact H1|apply setFlagAdded_page]. }
  destruct (Str.orNull loc) as [l|]; simpl; [|apply Hpage, Hf].
  destruct (getCountryFlag l) as [flag|]; [|now apply Hpage].
  destruct (Str.orNull flag) as [f|]; simpl; [|apply Hpage, Hf].
  destruct (getNode _ _ ≫= _); simpl; [apply Hpage, Hf|].
  destruct (match userNameContainer w with Some c => Some c | None => _ end); simpl.
  2:{ apply Hpage. eapply pageOnly_trans; [exact H1|].
      eapply pageOnly_trans; [apply pageOnly_nextNode|apply setFlagAdded_page]. }
  destruct (insertFlag _ _ _ _); simpl.
  - match goal with |- driven (redriveWaiting _ ?s') =>
      destruct (Hpage s') as [Hi' Hd'] end.
    { eapply pageOnly_trans; [exact H1|].
      eapply pageOnly_trans; [apply pageOnly_nextNode|].
      eapply pageOnly_trans; [apply pageOnly_document|apply setFlagAdded_page]. }
    now apply (redriveWaiting_driven e).
  - apply Hpage. eapply pageOnly_trans; [exact H1|apply pageOnly_nextNode].
Qed.

Lemma resume_driven e w r s :
  Inv e s -> driven s -> driven (resume getCountryFlag w r s).
Proof.
  intros H Hd. unfold resume, finallyBlock.
  match goal with |- driven (with_processingUsernames _ ?s') =>
    apply (driven_same s'); try reflexivity; [auto|] end.
  destruct r as [loc|].
  - pose proof (tryBlock_driven e w loc s H Hd) as HT.
    destruct (tryBlock getCountryFlag w loc s) as [[|] s']; simpl in HT; [exact HT|].
    apply (driven_quiet s'); [apply pageOnly_quiet, catchBlock_page|exact HT].
  - apply (driven_quiet s); [apply pageOnly_quiet, catchBlock_page|exact Hd].
Qed.

Lemma runJob_driven j rest s :
  jobs s = j :: rest -> Inv [] s -> driven s ->
  driven (runJob getCountryFlag j (with_jobs rest s)).
Proof.
  intros E H Hd. destruct j as [w v| | |w r|c]; simpl.
  5:{ now apply (driven_same s). }
  - now apply (driven_same s).
  - now apply (driven_same s).
  - now apply driven_timer.
  - apply (resume_driven [screenName w]); [|now apply (driven_same s)].
    destruct H as (HQ & HB & HA). split; [|split].
    + apply (QueueInv_ext s); try reflexivity; [|exact HQ].
      unfold completing. simpl. now rewrite E.
    + now apply (BridgeInv_grow s).
    + apply (AnnotInv_perm [] [screenName w] s); [reflexivity| |exact HA].
      unfold inFlight, waiters. simpl. rewrite E. simpl.
      rewrite !List.map_app. simpl. solve_Permutation.
Qed.

Lemma handler_driven r data s : driven s -> driven (handler r data s).
Proof.
  intros Hd. unfold handler. destruct data as [name rid loc lim| |]; try exact Hd.
  destruct (_ && _); [|exact Hd].
  match goal with |- driven (enqueueJob _ ?s') =>
    apply (driven_same s'); try reflexivity; [auto|] end.
  destruct (negb lim).
  - apply (driven_quiet (removeListener (requestId r) s));
      [apply saveCacheEntry_quiet|]. now apply (driven_same s).
  - now apply (driven_same s).
Qed.

Lemma onWindowMessage_driven data s : driven s -> driven (onWindowMessage data s).
Proof.
  intros Hd. unfold onWindowMessage.
  apply (fold_left_inv driven); [intros a r; apply handler_driven|].
  destruct (observing s); [|exact Hd]. destruct data; exact Hd.
Qed.

Lemma driven_delete i due t s :
  timers s !! i = Some (due, t) -> isDrive (due, t) = false ->
  driven s -> driven (with_timers (delete i (timers s)) s).
Proof.
  intros Hi Hk [H|[(x & Hx & Hd)|H]]; [now left| |now right; right].
  right. left. exists x. split; [|exact Hd]. simpl.
  apply (in_delete _ _ _ _ Hi Hx). intros ->. congruence.
Qed.

Lemma runTask_driven i due t s :
  timers s !! i = Some (due, t) -> due <= clock s ->
  Inv [] s -> driven s -> driven (runTask t (with_timers (delete i (timers s)) s)).
Proof.
  intros Hi Hdue H Hd.
  assert (Hdel : isDrive (due, t) = false ->
                 driven (with_timers (delete i (timers s)) s))
    by (intros Hk; now apply (driven_delete i due t)).
  destruct t; simpl.
  - apply (processUsernames_driven []); [|now apply Hdel].
    now apply (fired_inv i due T_processUsernames).
  - apply processRequestQueue_driven.
    now apply (fired_inv i due T_processRequestQueue).
  - pose proof H as (HQ & _ & _). pose proof (active_nonneg s HQ) as Ha.
    destruct HQ as [_ _ Hw _ _].
    unfold queueWake. simpl. destruct (requestQueue s) as [|r q] eqn:Eq.
    + left. exact Eq.
    + apply dispatchLoop_driven; [reflexivity|simpl; lia].
  - unfold bridgeTimeout. simpl.
    destruct (List.find _ _); [|now apply Hdel].
    match goal with |- driven (enqueueJob _ ?s') =>
      apply (driven_same s'); try reflexivity; [auto|] end.
    apply (driven_same (with_timers (delete i (timers s)) s)); try reflexivity; [auto|].
    now apply Hdel.
  - apply (driven_quiet (with_timers (delete i (timers s)) s));
      [apply pageOnly_quiet, waitingWake_page|now apply Hdel].
  - apply (driven_quiet (with_timers (delete i (timers s)) s)); [|now apply Hdel].
    apply saveCacheCallback_quiet.
  - apply (driven_quiet (with_timers (delete i (timers s)) s)); [|now apply Hdel].
    constructor; auto.
  - apply (driven_quiet (with_timers (delete i (timers s)) s)); [|now apply Hdel].
    eapply quiet_trans; [|apply saveCache_quiet].
    constructor; try reflexivity.
    + unfold wakes. simpl. rewrite List.filter_app. simpl. apply app_nil_r.
    + intros x Hx. simpl. apply in_or_app. now left.
Qed.

Lemma step_driven s ev : Inv [] s -> driven s -> driven (step getCountryFlag s ev).
Proof.
  intros H Hd. destruct ev as [dt|i| |data|enabled|doc added url|]; simpl.
  - destruct (dt <? 0); [exact Hd|]. now apply (driven_same s).
  - destruct (idle s); [|exact Hd].
    destruct (timers s !! i) as [[due t]|] eqn:Hi; [|exact Hd].
    destruct (due <=? clock s) eqn:E; [|exact Hd]. apply Z.leb_le in E.
    now apply (runTask_driven i due).
  - destruct (jobs s) as [|j rest] eqn:E; [exact Hd|]. now apply runJob_driven.
  - destruct (idle s); [|exact Hd]. now apply onWindowMessage_driven.
  - destruct (idle s); [|exact Hd]. unfold onExtensionToggle. destruct enabled.
    + apply (driven_same s); try reflexivity; [|exact Hd].
      intros x Hx. simpl. apply in_or_app. now left.
    + now apply (driven_same s).
  - destruct (idle s); [|exact Hd].
    apply (driven_same s); [| | |exact Hd].
    + unfold onMutation. simpl. destruct (observing s); [|reflexivity].
      destruct (_ && _), url; reflexivity.
    + unfold onMutation. simpl. destruct (observing s); [|reflexivity].
      destruct (_ && _), url; reflexivity.
    + intros x Hx. unfold onMutation. simpl. destruct (observing s); [|exact Hx].
      destruct (_ && _), url; simpl; repeat (apply in_or_app; left); exact Hx.
  - destruct (idle s); [|exact Hd]. now apply (driven_same s).
Qed.

Lemma run_driven trace : forall s,
  Inv [] s -> driven s -> driven (run getCountryFlag s trace).
Proof.
  induction trace as [|ev trace IH]; intros s H Hd; [exact Hd|].
  simpl. apply IH; [now apply step_inv|now apply step_driven].
Qed.

End Driven.

Lemma init_driven doc now toggle stored valid :
  driven (init doc now toggle stored valid).
Proof.
  left. unfold init, loadCache. simpl.
  destruct (negb valid); simpl.
  - now destruct (match toggle with Some b => b | None => DEFAULT_ENABLED end).
  - destruct stored; simpl;
      now destruct (match toggle with Some b => b | None => DEFAULT_ENABLED end).
Qed.

Section QueueRuns.

Variable getCountryFlag : string -> Completion (option string).

(** A request never waits in the queue with nothing ahead that would send
    it: in every state the script reaches with a request in the queue, a
    timer is pending that runs the dispatch loop (the loop's own wake-up, or
    a call of [processRequestQueue]), or a request is active - it waits for
    its answer, with its 10 s timer pending, or its promise is settled and
    its [finally], which sets such a timer, has yet to run. *)
Theorem request_queue_is_always_driven (doc : list Node) (now : Z)
    (toggle : option bool) (stored : option (gmap string CacheEntry))
    (valid : bool) (trace : list Event) :
  let s := run getCountryFlag (init doc now toggle stored valid) trace in
  requestQueue s <> [] ->
  (exists due, In (due, T_queueWake) (timers s)
               \/ In (due, T_processRequestQueue) (timers s))
  \/ (0 < length (listeners s) + completing s)%nat.
Proof.
  intros s Hq.
  assert (H : Inv [] s)
    by exact (run_inv getCountryFlag trace _ (init_inv doc now toggle stored valid)).
  assert (Hd : driven s).
  { apply run_driven; [apply init_inv|apply init_driven]. }
  destruct Hd as [Hd|[((due & t) & Hx & Hk)|Hd]]; [contradiction| |].
  - left. exists due. unfold isDrive in Hk. simpl in Hk.
    destruct t; try discriminate; [now right|now left].
  - right. destruct H as ([Hc _ _ _ _] & _ & _). lia.
Qed.

End QueueRuns.

Lemma request_queue_is_always_driven_witness :
  let s := run Scenario.exampleFlags
             (init Runs.page3 Scenario.t0 None None true) Runs.firstScan in
  requestQueue s <> []
  /\ ((exists due, In (due, T_queueWake) (timers s)
                   \/ In (due, T_processRequestQueue) (timers s))
      \/ (0 < length (listeners s) + completing s)%nat).
Proof.
  intros s.
  assert (Hq : requestQueue s <> []) by (vm_compute; discriminate).
  split; [exact Hq|].
  exact (request_queue_is_always_driven Scenario.exampleFlags Runs.page3
           Scenario.t0 None None true Runs.firstScan Hq).
Defined.

(** ** The cool-down *)

Section CoolDown.

Lemma held_refl s : held s s.
Proof. same_fields. Qed.

Lemma held_trans s1 s2 s3 : held s1 s2 -> held s2 s3 -> held s1 s3.
Proof. intros [] []. constructor; congruence. Qed.

Lemma cool_held s s' : held s s' -> cool s -> cool s'.
Proof. intros [_ H2 H3 H4]. unfold cool. now rewrite H2, H3, H4. Qed.

Lemma pageOnly_held s s' : pageOnly s s' -> held s s'.
Proof. intros (d & n & ->). same_fields. Qed.

Lemma setTimeout_held t d s : held s (setTimeout t d s).
Proof. same_fields. Qed.

(** During the cool-down [processRequestQueue] sets its timer and leaves. *)
Lemma processRequestQueue_held s : cool s -> held s (processRequestQueue s).
Proof.
  intros (Hp & Hr & Hc). unfold processRequestQueue. rewrite Hp. simpl.
  case_bool_decide; [apply held_refl|].
  apply Z.ltb_lt in Hr, Hc. rewrite Hr, Hc. apply setTimeout_held.
Qed.

Lemma getUserLocation_held name w s : cool s -> held s (snd (getUserLocation name w s)).
Proof.
  intros Hc. unfold getUserLocation.
  destruct (locationCache s !! name) as [[cached|]|]; simpl; [apply held_refl| |].
  - eapply held_trans; [|apply processRequestQueue_held]; [same_fields|exact Hc].
  - eapply held_trans; [|apply processRequestQueue_held]; [same_fields|exact Hc].
Qed.

Lemma addFlagToUsername_held el name s :
  cool s -> held s (snd (addFlagToUsername el name s)).
Proof.
  intros Hc. apply (addFlagToUsername_cases (held s)).
  - intros _. apply held_refl.
  - intros _. apply setTimeout_held.
  - intros s2 s4 _ E Hp.
    assert (H2 : held s s2) by (rewrite E; same_fields).
    assert (H4 : held s s4) by exact (held_trans _ _ _ H2 (pageOnly_held _ _ Hp)).
    split; [exact H4|]. intros w _ _.
    pose proof (getUserLocation_held name w s4 (cool_held s s4 H4 Hc)) as HG.
    destruct (getUserLocation name w s4) as [[loc|] s5]; simpl in HG.
    + eapply held_trans; [exact H4|]. eapply held_trans; [exact HG|same_fields].
    + eapply held_trans; [exact H4|exact HG].
Qed.

Lemma startAnnotation_held c name s : cool s -> held s (startAnnotation c name s).
Proof.
  intros Hc. apply (startAnnotation_cases (held s)).
  - now apply addFlagToUsername_held.
  - intros s' H. eapply held_trans; [exact H|same_fields].
Qed.

Lemma fold_held {B} (f : State -> B -> State) (l : list B) :
  (forall a b, cool a -> held a (f a b)) ->
  forall s, cool s -> held s (fold_left f l s).
Proof.
  intros Hf. induction l as [|b l IH]; intros s Hc; simpl; [apply held_refl|].
  eapply held_trans; [apply Hf, Hc|]. apply IH. apply (cool_held s); [apply Hf, Hc|exact Hc].
Qed.

Lemma redriveWaiting_held name s : cool s -> held s (redriveWaiting name s).
Proof.
  unfold redriveWaiting. apply fold_held. intros a c Hc.
  destruct (getNode c (document a)); [|apply held_refl].
  case_bool_decide; [now apply addFlagToUsername_held|apply held_refl].
Qed.

Lemma processUsernames_held s : cool s -> held s (processUsernames s).
Proof.
  intros Hc. unfold processUsernames. destruct (negb _); [apply held_refl|].
  apply fold_held; [|exact Hc]. intros a c Ha. unfold scanContainer.
  destruct (getNode c (document a)) as [container|]; [|apply held_refl].
  destruct (extractUsername container) as [name|]; [|apply held_refl].
  destruct (Str.orNull _) as [status|]; [|now apply startAnnotation_held].
  destruct (Str.eqb status "failed"); [now apply startAnnotation_held|apply held_refl].
Qed.

Variable getCountryFlag : string -> Completion (option string).

Lemma tryBlock_held w loc s :
  cool s -> held s (snd (tryBlock getCountryFlag w loc s)).
Proof.
  intros Hc. unfold tryBlock.
  assert (H1 : pageOnly s (removeShimmer w s)) by apply removeShimmer_page.
  assert (Hf : forall v, pageOnly s (setFlagAdded (usernameElement w) v (removeShimmer w s))).
  { intros v. eapply pageOnly_trans; [exact H1|apply setFlagAdded_page]. }
  destruct (Str.orNull loc) as [l|]; simpl; [|apply pageOnly_held, Hf].
  destruct (getCountryFlag l) as [flag|]; [|now apply pageOnly_held].
  destruct (Str.orNull flag) as [f|]; simpl; [|apply pageOnly_held, Hf].
  destruct (getNode _ _ ≫= _); simpl; [apply pageOnly_held, Hf|].
  destruct (match userNameContainer w with Some c => Some c | None => _ end); simpl.
  2:{ apply pageOnly_held. eapply pageOnly_trans; [exact H1|].
      eapply pageOnly_trans; [apply pageOnly_nextNode|apply setFlagAdded_page]. }
  destruct (insertFlag _ _ _ _); simpl.
  - match goal with |- held s (redriveWaiting _ ?s') =>
      assert (Hp : pageOnly s s') end.
    { eapply pageOnly_trans; [exact H1|].
      eapply pageOnly_trans; [apply pageOnly_nextNode|].
      eapply pageOnly_trans; [apply pageOnly_document|apply setFlagAdded_page]. }
    apply pageOnly_held in Hp.
    eapply held_trans; [exact Hp|]. apply redriveWaiting_held. now apply (cool_held s).
  - apply pageOnly_held. eapply pageOnly_trans; [exact H1|apply pageOnly_nextNode].
Qed.

Lemma resume_held w r s : cool s -> held s (resume getCountryFlag w r s).
Proof.
  intros Hc. unfold resume, finallyBlock.
  eapply held_trans; [|same_fields].
  destruct r as [loc|].
  - pose proof (tryBlock_held w loc s Hc) as HT.
    destruct (tryBlock getCountryFlag w loc s) as [[|] s']; simpl in HT; [exact HT|].
    eapply held_trans; [exact HT|apply pageOnly_held, catchBlock_page].
  - apply pageOnly_held, catchBlock_page.
Qed.

Lemma runJob_held j s : cool s -> held s (runJob getCountryFlag j s).
Proof.
  intros Hc. destruct j as [w v| | |w r|c]; simpl;
    [same_fields|same_fields|same_fields|now apply resume_held|same_fields].
Qed.

Lemma handler_held r data s : held s (handler r data s).
Proof.
  unfold handler. destruct data as [name rid loc lim| |]; try apply held_refl.
  destruct (_ && _); [|apply held_refl].
  eapply held_trans; [|same_fields].
  destruct (negb lim); [|same_fields].
  unfold saveCacheEntry. simpl. destruct (negb _); [same_fields|]. simpl.
  destruct (saveCacheTimeout s); same_fields.
Qed.

Lemma handlers_held data rs : forall s,
  held s (fold_left (fun s r => handler r data s) rs s).
Proof.
  induction rs as [|r rs IH]; intros s; simpl; [apply held_refl|].
  eapply held_trans; [apply handler_held|apply IH].
Qed.

(** While the loop waits inside its [await], its timer is pending. *)
Lemma wake_is_processing i due s :
  QueueInv s -> timers s !! i = Some (due, T_queueWake) -> isProcessingQueue s = true.
Proof.
  intros [_ _ Hw _ _] Hi.
  assert (Hin : In (due, T_queueWake) (wakes s)).
  { apply filter_In. split; [|reflexivity].
    apply list_elem_of_In. now apply (list_elem_of_lookup_2 _ i). }
  destruct (wakes s) as [|[d t] [|]]; [destruct Hin|apply Hw|destruct Hw].
Qed.

Lemma runTask_held i due t s :
  QueueInv s -> timers s !! i = Some (due, t) -> cool s ->
  held s (runTask t (with_timers (delete i (timers s)) s)).
Proof.
  intros HQ Hi Hc.
  assert (H0 : held s (with_timers (delete i (timers s)) s)) by same_fields.
  pose proof (cool_held _ _ H0 Hc) as Hc0.
  eapply held_trans; [exact H0|].
  destruct t; simpl.
  - now apply processUsernames_held.
  - now apply processRequestQueue_held.
  - destruct Hc as [Hp _]. rewrite (wake_is_processing i due s HQ Hi) in Hp. discriminate.
  - unfold bridgeTimeout. destruct (List.find _ _); same_fields.
  - apply pageOnly_held, waitingWake_page.
  - unfold saveCacheCallback, saveCache. simpl. destruct (negb _); same_fields.
  - same_fields.
  - unfold saveCache. simpl. destruct (negb _); same_fields.
Qed.

(** While the cool-down lasts that the page script asked for, and the
    dispatch loop is not inside its [await], nothing that happens makes the
    script post a message to the page script: a scan, an annotation that
    ends, a timer of [processRequestQueue] all leave the requests in the
    queue. *)
Theorem cool_down_holds_requests_back (doc : list Node) (now : Z)
    (toggle : option bool) (stored : option (gmap string CacheEntry))
    (valid : bool) (trace : list Event) (ev : Event) :
  let s := run getCountryFlag (init doc now toggle stored valid) trace in
  isProcessingQueue s = false ->
  0 < rateLimitResetTime s ->
  clock s / 1000 < rateLimitResetTime s ->
  posted (step getCountryFlag s ev) = posted s
  /\ isProcessingQueue (step getCountryFlag s ev) = false.
Proof.
  intros s Hp Hr Hk.
  assert (Hc : cool s) by (repeat split; assumption).
  assert (H : Inv [] s)
    by exact (run_inv getCountryFlag trace _ (init_inv doc now toggle stored valid)).
  destruct H as (HQ & _ & _).
  assert (Hh : forall s', held s s' -> posted s' = posted s /\ isProcessingQueue s' = false).
  { intros s' [H1 H2 _ _]. split; congruence. }
  destruct ev as [dt|i| |data|enabled|doc' added url|]; simpl.
  - destruct (dt <? 0); now split.
  - destruct (idle s); [|now split].
    destruct (timers s !! i) as [[due t]|] eqn:Hi; [|now split].
    destruct (due <=? clock s); [|now split].
    now apply Hh, (runTask_held i due).
  - destruct (jobs s) as [|j rest]; [now split|].
    apply Hh. eapply held_trans; [|apply runJob_held]; [same_fields|exact Hc].
  - destruct (idle s); [|now split]. unfold onWindowMessage.
    match goal with |- context [fold_left _ (listeners ?s1) ?s1] =>
      destruct (handlers_held data (listeners s1) s1) as [H1 H2 _ _];
      rewrite H1, H2 end.
    destruct (observing s); [|now split]. now destruct data.
  - destruct (idle s); [|now split]. unfold onExtensionToggle.
    destruct enabled; now split.
  - destruct (idle s); [|now split]. unfold onMutation. simpl.
    destruct (observing s); [|now split].
    destruct (_ && _), url; now split.
  - destruct (idle s); now split.
Qed.

End CoolDown.

Lemma cool_down_holds_requests_back_witness :
  let s := run Scenario.exampleFlags
             (init Scenario.page1 Scenario.t0 None None true) Runs.limited in
  isProcessingQueue s = false
  /\ 0 < rateLimitResetTime s
  /\ clock s / 1000 < rateLimitResetTime s
  /\ posted (step Scenario.exampleFlags s (Fire 0)) = posted s
  /\ isProcessingQueue (step Scenario.exampleFlags s (Fire 0)) = false.
Proof.
  intros s.
  assert (Hp : isProcessingQueue s = false) by (vm_compute; reflexivity).
  assert (Hr : 0 < rateLimitResetTime s) by (vm_compute; reflexivity).
  assert (Hk : clock s / 1000 < rateLimitResetTime s) by (vm_compute; reflexivity).
  split; [exact Hp|]. split; [exact Hr|]. split; [exact Hk|].
  exact (cool_down_holds_requests_back Scenario.exampleFlags Scenario.page1
           Scenario.t0 None None true Runs.limited (Fire 0) Hp Hr Hk).
Defined.

(** There the scan put the request of alice in the queue, and set a timer
    to look at the queue again, a minute later at most. *)
Lemma a_scan_during_the_cool_down :
  let s := step Scenario.exampleFlags
             (run Scenario.exampleFlags
                (init Scenario.page1 Scenario.t0 None None true) Runs.limited)
             (Fire 0) in
  List.map q_screenName (requestQueue s) = ["alice"]
  /\ posted s = []
  /\ timers s = [(1700000030000, T_saveCacheInterval);
                 (1700000062000, T_processRequestQueue)].
Proof. vm_compute. repeat split; reflexivity. Qed.

(** ** Parents and children *)

Section DomTree.

Lemma child_in_subtree q k : In k (childNodes q) -> In k (subtree q).
Proof.
  destruct q as [j t a ks|d]; simpl; [|intros []]. intros Hk. right.
  apply in_flat_map. exists k. split; [exact Hk|apply in_subtree_self].
Qed.

Lemma forest_trans l q k : In q (allNodes l) -> In k (subtree q) -> In k (allNodes l).
Proof.
  intros Hq Hk. apply in_flat_map in Hq as (r & Hr & Hq). apply in_flat_map.
  exists r. split; [exact Hr|]. now apply (subtree_trans r q).
Qed.

Lemma forest_children l q k : In q (allNodes l) -> In k (childNodes q) -> In k (allNodes l).
Proof. intros Hq Hk. apply (forest_trans l q k Hq). now apply child_in_subtree. Qed.

Lemma id_in_forest l k i : In k (allNodes l) -> nodeId k = Some i -> In i (elementIds (allNodes l)).
Proof. intros Hk Hi. apply in_elementIds. now exists k. Qed.

Lemma allNodes_app l1 l2 : allNodes (l1 ++ l2) = (allNodes l1 ++ allNodes l2)%list.
Proof. apply flat_map_app. Qed.

Lemma allNodes_cons n l : allNodes (n :: l) = (subtree n ++ allNodes l)%list.
Proof. reflexivity. Qed.

(** A root of a forest is no child in it. *)
Lemma root_is_no_child ks r q k i :
  NoDup (elementIds (allNodes ks)) ->
  In r ks -> nodeId r = Some i ->
  In q (allNodes ks) -> In k (childNodes q) -> nodeId k = Some i -> False.
Proof.
  intros Hn Hr Hri Hq Hk Hki.
  apply in_split in Hr as (l1 & l2 & ->).
  rewrite allNodes_app, allNodes_cons, !elementIds_app in Hn.
  apply NoDup_app in Hn as (_ & Hd1 & Hn).
  apply NoDup_app in Hn as (Hr & Hd2 & _).
  assert (Hir : i ∈ elementIds (subtree r)).
  { apply list_elem_of_In, in_elementIds. exists r. split; [apply in_subtree_self|exact Hri]. }
  rewrite allNodes_app, allNodes_cons in Hq.
  apply in_app_or in Hq as [Hq|Hq]; [|apply in_app_or in Hq as [Hq|Hq]].
  - apply (Hd1 i); [|apply elem_of_app; now left].
    apply list_elem_of_In. apply (id_in_forest l1 k); [|exact Hki].
    now apply (forest_children l1 q).
  - destruct r as [j t a cs|d]; [|discriminate]. injection Hri as ->.
    simpl in Hr. apply NoDup_cons in Hr as [Hr _]. apply Hr.
    apply list_elem_of_In. apply (id_in_forest cs k); [|exact Hki].
    destruct Hq as [<-|Hq]; [now apply in_allNodes_top|].
    now apply (forest_children cs q).
  - apply (Hd2 i Hir). apply list_elem_of_In.
    apply (id_in_forest l2 k); [|exact Hki]. now apply (forest_children l2 q).
Qed.

Lemma oneParent_forest ks :
  Forall (fun n => NoDup (elementIds (subtree n)) -> oneParent (subtree n)) ks ->
  NoDup (elementIds (allNodes ks)) -> oneParent (allNodes ks).
Proof.
  induction 1 as [|n ks Hn _ IH]; intros Hd; [intros p q k1 k2 i []|].
  rewrite allNodes_cons, elementIds_app in Hd.
  apply NoDup_app in Hd as (Hd1 & Hx & Hd2).
  intros p q k1 k2 i Hp Hq Hk1 Hk2 Hi1 Hi2.
  rewrite allNodes_cons in Hp, Hq.
  assert (Hin : forall x k, In x (subtree n) -> In k (childNodes x) -> nodeId k = Some i ->
                            i ∈ elementIds (subtree n)).
  { intros x k Hx' Hk Hi. apply list_elem_of_In, in_elementIds. exists k.
    split; [|exact Hi]. apply (subtree_trans n x k Hx'). now apply child_in_subtree. }
  assert (Hout : forall x k, In x (allNodes ks) -> In k (childNodes x) -> nodeId k = Some i ->
                             i ∈ elementIds (allNodes ks)).
  { intros x k Hx' Hk Hi. apply list_elem_of_In. apply (id_in_forest ks k); [|exact Hi].
    now apply (forest_children ks x). }
  apply in_app_or in Hp as [Hp|Hp], Hq as [Hq|Hq].
  - now apply (Hn Hd1 p q k1 k2 i).
  - exfalso. apply (Hx i); [now apply (Hin p k1)|now apply (Hout q k2)].
  - exfalso. apply (Hx i); [now apply (Hin q k2)|now apply (Hout p k1)].
  - now apply (IH Hd2 p q k1 k2 i).
Qed.

Lemma oneParent_node n : NoDup (elementIds (subtree n)) -> oneParent (subtree n).
Proof.
  induction n as [j t a ks IH|d] using Node_forall_ind; intros Hd.
  2:{ intros p q k1 k2 i [<-|[]] _ []. }
  simpl in Hd. apply NoDup_cons in Hd as [Hj Hd].
  pose proof (oneParent_forest ks IH Hd) as Hf.
  intros p q k1 k2 i Hp Hq Hk1 Hk2 Hi1 Hi2.
  destruct Hp as [<-|Hp], Hq as [<-|Hq].
  - reflexivity.
  - exfalso. now apply (root_is_no_child ks k1 q k2 i).
  - exfalso. now apply (root_is_no_child ks k2 p k1 i).
  - now apply (Hf p q k1 k2 i).
Qed.

(** With distinct identities an element has one parent. *)
Lemma one_parent doc : distinctIds doc -> oneParent (allNodes doc).
Proof.
  intros Hd. apply oneParent_forest; [|exact Hd].
  apply List.Forall_forall. intros n _. apply oneParent_node.
Qed.

Lemma find_is_some {A} (f : A -> bool) (l : list A) x :
  In x l -> f x = true -> exists y, List.find f l = Some y.
Proof.
  intros Hx Hf. destruct (List.find f l) as [y|] eqn:E; [now exists y|].
  rewrite (find_none _ _ E x Hx) in Hf. discriminate.
Qed.

Lemma has_child i p :
  existsb (hasId i) (childNodes p) = true <->
  exists k, In k (childNodes p) /\ nodeId k = Some i.
Proof.
  rewrite existsb_exists. split; intros (k & Hk & H); exists k; (split; [exact Hk|]).
  - destruct k as [j t a ks|d]; [|discriminate]. simpl in H.
    apply Nat.eqb_eq in H. now subst.
  - destruct k as [j t a ks|d]; [|discriminate]. injection H as ->. apply Nat.eqb_refl.
Qed.

(** The element that a reference to an element of the document gives. *)
Lemma getNode_in doc j t a ks :
  distinctIds doc -> In (Element j t a ks) (allNodes doc) ->
  getNode j doc = Some (Element j t a ks).
Proof.
  intros Hd Hin. unfold getNode.
  destruct (find_is_some (hasId j) (allNodes doc) _ Hin (Nat.eqb_refl j)) as (y & E).
  rewrite E. f_equal. apply find_some in E as [Hy Hid].
  destruct y as [j' t' a' ks'|d]; [|discriminate]. simpl in Hid.
  apply Nat.eqb_eq in Hid. subst j'. now apply (same_identity (allNodes doc)).
Qed.

Lemma getNode_some i doc n :
  getNode i doc = Some n -> In n (allNodes doc) /\ nodeId n = Some i.
Proof.
  unfold getNode. intros [Hn Hid]%find_some. split; [exact Hn|].
  destruct n as [j t a ks|d]; [|discriminate]. simpl in Hid.
  apply Nat.eqb_eq in Hid. now subst.
Qed.

Lemma parentNode_some i doc parent :
  parentNode i doc = Some parent ->
  exists p, In p (allNodes doc) /\ nodeId p = Some parent
            /\ existsb (hasId i) (childNodes p) = true.
Proof.
  unfold parentNode. destruct (List.find _ _) as [p|] eqn:E; [|discriminate].
  intros H. apply find_some in E as [Hp Hc]. now exists p.
Qed.

Lemma parentNode_is_some i doc p :
  In p (allNodes doc) -> existsb (hasId i) (childNodes p) = true ->
  exists parent, parentNode i doc = Some parent.
Proof.
  intros Hp Hc. unfold parentNode.
  destruct (find_is_some (fun p => existsb (hasId i) (childNodes p)) _ p Hp Hc) as (y & E).
  rewrite E. apply find_some in E as [_ Hy].
  destruct y as [j t a ks|d]; [now exists j|discriminate].
Qed.

(** [parent.insertBefore(new, ref)] on the parent of [ref] does not raise. *)
Lemma insertBefore_parent doc ref parent new :
  distinctIds doc -> parentNode ref doc = Some parent ->
  insertBefore parent new ref doc = Some (update parent (insertIn new ref) doc).
Proof.
  intros Hd Hp. apply parentNode_some in Hp as (p & Hin & Hid & Hc).
  unfold insertBefore. destruct p as [j t a ks|d]; [|discriminate].
  injection Hid as ->. rewrite (getNode_in doc parent t a ks Hd Hin).
  simpl in *. now rewrite Hc.
Qed.

(** An element below another has its parent below it, or is its child. *)
Lemma parent_below n : forall k,
  In k (descendants n) ->
  exists p, In p (subtree n) /\ In k (childNodes p).
Proof.
  induction n as [j t a ks IH|d] using Node_forall_ind; intros k Hk; [|destruct Hk].
  unfold descendants in Hk. simpl in Hk.
  apply in_flat_map in Hk as (c & Hc & Hk). rewrite List.Forall_forall in IH.
  destruct c as [j' t' a' cs|d'].
  - destruct Hk as [<-|Hk].
    + exists (Element j t a ks). split; [now left|exact Hc].
    + destruct (IH _ Hc k) as (p & Hp & Hkp); [exact Hk|].
      exists p. split; [|exact Hkp]. simpl. right. apply in_flat_map.
      now exists (Element j' t' a' cs).
  - destruct Hk as [<-|[]]. exists (Element j t a ks). split; [now left|exact Hc].
Qed.

End DomTree.

(** ** Inserting an element *)

Section DomInsert.

Lemma subtree_unfold n : subtree n = n :: descendants n.
Proof. now destruct n. Qed.

Lemma nodeId_updateNode i f n : keepsId f -> nodeId (updateNode i f n) = nodeId n.
Proof.
  intros Hf. destruct n as [j t a ks|d]; [|reflexivity]. simpl.
  destruct (Nat.eqb i j); [|reflexivity]. now rewrite Hf.
Qed.

Lemma hasId_nodeId i n : hasId i n = true <-> nodeId n = Some i.
Proof.
  destruct n as [j t a ks|d]; simpl; [|split; discriminate].
  rewrite Nat.eqb_eq. split; [now intros ->|now intros [= ->]].
Qed.

Lemma hasId_updateNode e i f n : keepsId f -> hasId e (updateNode i f n) = hasId e n.
Proof.
  intros Hf. apply eq_true_iff_eq. rewrite !hasId_nodeId. now rewrite nodeId_updateNode.
Qed.

Lemma child_of_updated i f n k :
  keepsChildren f -> In k (childNodes n) ->
  In (updateNode i f k) (childNodes (updateNode i f n)).
Proof.
  intros Hf Hk. destruct n as [j t a ks|d]; [|destruct Hk]. simpl in *.
  assert (H : In (updateNode i f k)
                (childNodes (Element j t a (List.map (updateNode i f) ks))))
    by (simpl; now apply in_map).
  destruct (Nat.eqb i j); [now apply Hf|exact H].
Qed.

Lemma updateNode_in i f n :
  keepsChildren f ->
  forall m, In m (subtree n) -> In (updateNode i f m) (subtree (updateNode i f n)).
Proof.
  intros Hf. induction n as [j t a ks IH|d] using Node_forall_ind; intros m Hm.
  - destruct Hm as [<-|Hm]; [apply in_subtree_self|].
    apply in_flat_map in Hm as (k & Hk & Hm). rewrite List.Forall_forall in IH.
    apply (subtree_trans _ (updateNode i f k)); [|now apply IH].
    apply child_in_subtree. now apply child_of_updated.
  - destruct Hm as [<-|[]]. now left.
Qed.

Lemma update_in i f doc m :
  keepsChildren f -> In m (allNodes doc) ->
  In (updateNode i f m) (allNodes (update i f doc)).
Proof.
  intros Hf Hm. apply in_flat_map in Hm as (r & Hr & Hm). apply in_flat_map.
  exists (updateNode i f r). split; [now apply in_map|now apply updateNode_in].
Qed.

Lemma attached_iff e doc :
  attached e doc = true <-> exists m, In m (allNodes doc) /\ nodeId m = Some e.
Proof.
  unfold attached, getNode. split.
  - destruct (List.find _ _) as [m|] eqn:E; [|discriminate]. intros _.
    apply find_some in E as [Hm Hid]. exists m. split; [exact Hm|now apply hasId_nodeId].
  - intros (m & Hm & Hid). apply hasId_nodeId in Hid.
    now destruct (find_is_some _ _ m Hm Hid) as (y & ->).
Qed.

(** An element of the document is still in it after an insertion. *)
Lemma attached_update e i f doc :
  keepsId f -> keepsChildren f ->
  attached e doc = true -> attached e (update i f doc) = true.
Proof.
  intros H1 H2. rewrite !attached_iff. intros (m & Hm & Hid).
  exists (updateNode i f m). split; [now apply update_in|].
  now rewrite nodeId_updateNode.
Qed.

Lemma update_from i f new n :
  keepsId f -> addsOnly new f ->
  forall x, In x (subtree (updateNode i f n)) ->
    (exists m, In m (subtree n) /\ nodeId x = nodeId m) \/ In x (subtree new).
Proof.
  intros H1 H2. induction n as [j t a ks IH|d] using Node_forall_ind; intros x Hx.
  2:{ left. exists (TextNode d). destruct Hx as [<-|[]]. split; [now left|reflexivity]. }
  rewrite List.Forall_forall in IH.
  set (n' := Element j t a (List.map (updateNode i f) ks)).
  assert (Hkid : forall k', In k' (childNodes n') -> In x (subtree k') ->
            (exists m, In m (subtree (Element j t a ks)) /\ nodeId x = nodeId m)
            \/ In x (subtree new)).
  { intros k' Hk' Hxk. simpl in Hk'. apply in_map_iff in Hk' as (k & <- & Hk).
    destruct (IH k Hk x Hxk) as [(m & Hm & Hid)|Hn]; [left|now right].
    exists m. split; [|exact Hid]. simpl. right. apply in_flat_map. now exists k. }
  assert (Hroot : forall r, nodeId r = Some j ->
            (forall k', In k' (childNodes r) -> In k' (childNodes n') \/ k' = new) ->
            In x (subtree r) ->
            (exists m, In m (subtree (Element j t a ks)) /\ nodeId x = nodeId m)
            \/ In x (subtree new)).
  { intros r Hr Hc Hxr. rewrite subtree_unfold in Hxr. destruct Hxr as [<-|Hxr].
    - left. exists (Element j t a ks). split; [now left|exact Hr].
    - apply in_flat_map in Hxr as (k' & Hk' & Hxk).
      destruct (Hc k' Hk') as [Hin| ->]; [now apply (Hkid k')|now right]. }
  simpl in Hx. fold n' in Hx. destruct (Nat.eqb i j).
  - apply (Hroot (f n')); [now rewrite H1|apply H2|exact Hx].
  - apply (Hroot n'); [reflexivity|now left|exact Hx].
Qed.

Lemma update_from_doc i f new doc x :
  keepsId f -> addsOnly new f ->
  In x (allNodes (update i f doc)) ->
  (exists m, In m (allNodes doc) /\ nodeId x = nodeId m) \/ In x (subtree new).
Proof.
  intros H1 H2 Hx. apply in_flat_map in Hx as (r' & Hr' & Hx).
  apply in_map_iff in Hr' as (r & <- & Hr).
  destruct (update_from i f new r H1 H2 x Hx) as [(m & Hm & Hid)|Hn]; [left|now right].
  exists m. split; [|exact Hid]. apply in_flat_map. now exists r.
Qed.

Lemma in_insertAt new ref ks k :
  In k (insertAt new ref ks) -> In k ks \/ k = new.
Proof.
  induction ks as [|c ks IH]; simpl; [intros []|].
  destruct (hasId ref c).
  - intros [<-|H]; [now right|now left].
  - intros [<-|H]; [left; now left|]. destruct (IH H) as [H'|H']; [left; now right|now right].
Qed.

Lemma insertAt_keeps new ref ks k : In k ks -> In k (insertAt new ref ks).
Proof.
  induction ks as [|c ks IH]; simpl; [intros []|].
  destruct (hasId ref c); [now right|]. intros [<-|H]; [now left|right; now apply IH].
Qed.

Lemma insertAt_new new ref ks :
  existsb (hasId ref) ks = true -> In new (insertAt new ref ks).
Proof.
  induction ks as [|c ks IH]; simpl; [discriminate|].
  destruct (hasId ref c); [now left|]. simpl. intros H. right. now apply IH.
Qed.

Lemma appendTo_keepsId new : keepsId (appendTo new).
Proof. intros [j t a ks|d]; reflexivity. Qed.

Lemma appendTo_keepsChildren new : keepsChildren (appendTo new).
Proof. intros [j t a ks|d] k; simpl; [|intros []]. intros H. apply in_or_app. now left. Qed.

Lemma appendTo_addsOnly new : addsOnly new (appendTo new).
Proof.
  intros [j t a ks|d] k; simpl; [|intros []].
  intros [H|[<-|[]]]%in_app_or; [now left|now right].
Qed.

Lemma insertIn_keepsId new ref : keepsId (insertIn new ref).
Proof. intros [j t a ks|d]; reflexivity. Qed.

Lemma insertIn_keepsChildren new ref : keepsChildren (insertIn new ref).
Proof. intros [j t a ks|d] k; simpl; [apply insertAt_keeps|intros []]. Qed.

Lemma insertIn_addsOnly new ref : addsOnly new (insertIn new ref).
Proof. intros [j t a ks|d] k; simpl; [apply in_insertAt|intros []]. Qed.

Lemma existsb_hasId_update e i f ks :
  keepsId f ->
  existsb (hasId e) (List.map (updateNode i f) ks) = existsb (hasId e) ks.
Proof.
  intros Hf. induction ks as [|k ks IH]; simpl; [reflexivity|].
  now rewrite hasId_updateNode, IH.
Qed.

(** The new element is in the document after [appendChild] on an element
    of the document, and after an [insertBefore] that did not raise. *)
Lemma appendChild_in parent new doc :
  attached parent doc = true -> In new (allNodes (appendChild parent new doc)).
Proof.
  rewrite attached_iff. intros (m & Hm & Hid). unfold appendChild.
  apply (forest_children _ (updateNode parent (appendTo new) m)).
  - apply update_in; [apply appendTo_keepsChildren|exact Hm].
  - destruct m as [j t a ks|d]; [|discriminate]. injection Hid as ->. simpl.
    rewrite Nat.eqb_refl. simpl. apply in_or_app. right. now left.
Qed.

Lemma insertBefore_in parent new ref doc doc' :
  insertBefore parent new ref doc = Some doc' -> In new (allNodes doc').
Proof.
  unfold insertBefore. destruct (getNode parent doc) as [p|] eqn:E; [|discriminate].
  destruct (existsb _ _) eqn:Ec; [|discriminate]. intros [= <-].
  apply getNode_some in E as [Hp Hid].
  apply (forest_children _ (updateNode parent (insertIn new ref) p)).
  - apply update_in; [apply insertIn_keepsChildren|exact Hp].
  - destruct p as [j t a ks|d]; [|discriminate]. injection Hid as ->. simpl in *.
    rewrite Nat.eqb_refl. simpl. apply insertAt_new.
    rewrite existsb_hasId_update; [exact Ec|apply insertIn_keepsId].
Qed.

End DomInsert.

(** ** The flag and the shimmer in the document *)

Section Insertion.

Lemma handleSection_below container name doc hs :
  handleSectionOf container name doc = Normal (Some hs) ->
  exists cn div,
    getNode container doc = Some cn /\ In div (descendants cn) /\ nodeId div = Some hs.
Proof.
  unfold handleSectionOf. destruct (getNode container doc) as [cn|]; [|discriminate].
  destruct (findHandleSection cn name) as [[div|]|] eqn:F; try discriminate.
  intros [= H]. exists cn, div. split; [reflexivity|]. split; [|exact H].
  unfold findHandleSection in F.
  destruct (querySelectorAll (tagIs "div") cn) as [|d ds] eqn:Q; [discriminate|].
  destruct (selProfileLink name) as [sel|]; [|discriminate].
  injection F as F.
  change (List.find (isHandleSection sel name) (d :: ds) = Some div) in F.
  apply find_some in F as [F _]. rewrite <- Q in F.
  unfold querySelectorAll in F. now apply filter_In in F as [F _].
Qed.

(** The selector is refused for a handle that is not of plain characters,
    in a container that has a [div] below it, and nowhere else. *)
Lemma handleSection_raises container name doc :
  handleSectionOf container name doc = Throw
  <-> quotable name = false
      /\ exists cn, getNode container doc = Some cn
                    /\ querySelectorAll (tagIs "div") cn <> [].
Proof.
  unfold handleSectionOf, findHandleSection, selProfileLink.
  destruct (getNode container doc) as [cn|].
  - destruct (querySelectorAll (tagIs "div") cn) as [|d ds] eqn:Q.
    + split; [discriminate|]. intros [_ (cn' & [= <-] & H)]. now rewrite Q in H.
    + destruct (quotable name).
      * split; [|intros [H _]; discriminate].
        now destruct (List.find _ _).
      * split; [|reflexivity]. intros _. split; [reflexivity|].
        exists cn. split; [reflexivity|]. now rewrite Q.
  - split; [discriminate|]. now intros [_ (cn & H & _)].
Qed.

(** The parent of a handle section that is not the container lies below
    the container, so it has a parent. *)
Lemma grandparent_exists doc container name hs parent :
  distinctIds doc ->
  handleSectionOf container name doc = Normal (Some hs) ->
  parentNode hs doc = Some parent -> parent <> container ->
  exists gp, parentNode parent doc = Some gp.
Proof.
  intros Hd Hh Hp Hne.
  apply handleSection_below in Hh as (cn & div & Hc & Hdiv & Hid).
  apply getNode_some in Hc as [Hcn Hcid].
  destruct (parent_below cn div Hdiv) as (q & Hq & Hdq).
  apply parentNode_some in Hp as (p & Hpin & Hpid & Hpc).
  apply has_child in Hpc as (k & Hk & Hkid).
  assert (Hqin : In q (allNodes doc)) by now apply (forest_trans doc cn).
  assert (E : p = q) by now apply (one_parent doc Hd p q k div hs).
  subst q. rewrite subtree_unfold in Hq. destruct Hq as [<-|Hq]; [congruence|].
  destruct (parent_below cn p Hq) as (g & Hg & Hpg).
  apply (parentNode_is_some parent doc g); [now apply (forest_trans doc cn)|].
  apply has_child. now exists p.
Qed.

Lemma insertFlag_never_raises doc container name flagSpan :
  distinctIds doc ->
  handleSectionOf container name doc <> Throw ->
  exists i f,
    insertFlag container name flagSpan doc = Some (update i f doc)
    /\ keepsId f /\ keepsChildren f /\ addsOnly flagSpan f
    /\ (attached container doc = true -> In flagSpan (allNodes (update i f doc))).
Proof.
  intros Hd Hsel. unfold insertFlag.
  assert (Happend : exists i f,
    Some (appendChild container flagSpan doc) = Some (update i f doc)
    /\ keepsId f /\ keepsChildren f /\ addsOnly flagSpan f
    /\ (attached container doc = true -> In flagSpan (allNodes (update i f doc)))).
  { exists container, (appendTo flagSpan). split; [reflexivity|].
    split; [apply appendTo_keepsId|]. split; [apply appendTo_keepsChildren|].
    split; [apply appendTo_addsOnly|]. apply appendChild_in. }
  assert (Hbefore : forall p ref, parentNode ref doc = Some p -> exists i f,
    insertBefore p flagSpan ref doc = Some (update i f doc)
    /\ keepsId f /\ keepsChildren f /\ addsOnly flagSpan f
    /\ (attached container doc = true -> In flagSpan (allNodes (update i f doc)))).
  { intros p ref Hp. exists p, (insertIn flagSpan ref).
    pose proof (insertBefore_parent doc ref p flagSpan Hd Hp) as E.
    split; [exact E|].
    split; [apply insertIn_keepsId|]. split; [apply insertIn_keepsChildren|].
    split; [apply insertIn_addsOnly|]. intros _. exact (insertBefore_in _ _ _ _ _ E). }
  destruct (handleSectionOf container name doc) as [[hs|]|] eqn:Eh;
    [|exact Happend|congruence].
  destruct (parentNode hs doc) as [parent|] eqn:Ep; [|exact Happend].
  destruct (Nat.eqb_spec parent container) as [->|Hne]; [now apply Hbefore|].
  destruct (grandparent_exists doc container name hs parent Hd Eh Ep Hne) as (gp & Eg).
  rewrite Eg. now apply Hbefore.
Qed.

Lemma attached_mapAttrs e h doc : attached e (mapAttrs h doc) = attached e doc.
Proof.
  unfold attached, getNode.
  rewrite allNodes_mapAttrs, find_mapAttrs. now destruct (List.find _ _).
Qed.

Lemma attached_setFlagAdded e el v s :
  attached e (document (setFlagAdded el v s)) = attached e (document s).
Proof. apply attached_mapAttrs. Qed.

Lemma nextNode_removeShimmer w s : nextNode (removeShimmer w s) = nextNode s.
Proof. unfold removeShimmer. now destruct (_ && _). Qed.

Lemma names_removeShimmer w s :
  processingUsernames (removeShimmer w s) = processingUsernames s.
Proof. unfold removeShimmer. now destruct (_ && _). Qed.

(** After [shimmerSpan.remove()] the shimmer is not in the document. *)
Lemma removed_is_detached i doc : attached i (remove i doc) = false.
Proof.
  apply not_true_is_false. rewrite attached_iff. intros (m & Hm & Hid).
  apply (in_allNodes_prune (hasId i)) in Hm as [Hm _]; [|apply shallow_hasId].
  apply hasId_nodeId in Hid. congruence.
Qed.

Lemma removeShimmer_detaches w s :
  shimmerInserted w = true \/ attached (shimmerSpan w) (document s) = false ->
  attached (shimmerSpan w) (document (removeShimmer w s)) = false.
Proof.
  intros H. unfold removeShimmer.
  destruct (shimmerInserted w) eqn:Ei; simpl.
  - destruct (attached (shimmerSpan w) (document s)) eqn:Ea; [|exact Ea].
    apply removed_is_detached.
  - destruct H as [H|H]; [discriminate|exact H].
Qed.

Lemma flagNode_subtree i flag x :
  In x (subtree (flagNode i flag)) -> nodeId x = Some i \/ nodeId x = None.
Proof. simpl. intros [<-|[<-|[]]]; [now left|now right]. Qed.

(** An insertion of the flag brings no other identity into the document. *)
Lemma detached_after_insert e i f j flag doc :
  keepsId f -> addsOnly (flagNode j flag) f -> e <> j ->
  attached e doc = false -> attached e (update i f doc) = false.
Proof.
  intros H1 H2 Hne Ha. apply not_true_is_false. rewrite attached_iff.
  intros (x & Hx & Hid).
  destruct (update_from_doc i f _ doc x H1 H2 Hx) as [(m & Hm & E)|Hn].
  - assert (attached e doc = true); [|congruence].
    apply attached_iff. exists m. split; [exact Hm|congruence].
  - apply flagNode_subtree in Hn as [Hn|Hn]; congruence.
Qed.

Lemma insertFlag_shape container name new doc doc' :
  insertFlag container name new doc = Some doc' ->
  exists i f, doc' = update i f doc /\ keepsId f /\ keepsChildren f /\ addsOnly new f.
Proof.
  unfold insertFlag.
  assert (Happend : Some (appendChild container new doc) = Some doc' ->
    exists i f, doc' = update i f doc /\ keepsId f /\ keepsChildren f /\ addsOnly new f).
  { intros [= <-]. exists container, (appendTo new). split; [reflexivity|].
    split; [apply appendTo_keepsId|].
    split; [apply appendTo_keepsChildren|apply appendTo_addsOnly]. }
  assert (Hbefore : forall p ref, insertBefore p new ref doc = Some doc' ->
    exists i f, doc' = update i f doc /\ keepsId f /\ keepsChildren f /\ addsOnly new f).
  { intros p ref. unfold insertBefore. destruct (getNode p doc); [|discriminate].
    destruct (existsb _ _); [|discriminate]. intros [= <-].
    exists p, (insertIn new ref). split; [reflexivity|].
    split; [apply insertIn_keepsId|].
    split; [apply insertIn_keepsChildren|apply insertIn_addsOnly]. }
  destruct (handleSectionOf container name doc) as [[hs|]|];
    [|exact Happend|discriminate].
  destruct (parentNode hs doc) as [parent|]; [|exact Happend].
  destruct (Nat.eqb parent container); [apply Hbefore|].
  destruct (parentNode parent doc); [apply Hbefore|discriminate].
Qed.

Lemma redrive_in_flight name s :
  name ∈ processingUsernames s ->
  document (redriveWaiting name s) = document s
  /\ processingUsernames (redriveWaiting name s) = processingUsernames s
  /\ nextNode (redriveWaiting name s) = nextNode s.
Proof.
  intros Hn. destruct (redrive_only_waits name s Hn) as (added & -> & _).
  now repeat split.
Qed.

Lemma flagNode_kept el j flag k v doc :
  el <> j -> In (flagNode j flag) (allNodes doc) ->
  In (flagNode j flag) (allNodes (setAttribute el k v doc)).
Proof.
  intros Hne Hin. unfold setAttribute. rewrite allNodes_mapAttrs.
  apply in_map_iff. exists (flagNode j flag). split; [|exact Hin].
  simpl. unfold onElement. apply Nat.eqb_neq in Hne. now rewrite Hne.
Qed.

Lemma append_empty (s : string) : (s ++ "")%string = s.
Proof.
  induction s as [|c s IH]; [reflexivity|].
  change (String c (s ++ "") = String c s). now f_equal.
Qed.

Lemma textContent_flagNode i flag : textContent (flagNode i flag) = " " ++ flag.
Proof.
  change (textContent (flagNode i flag)) with ((" " ++ flag) ++ "")%string.
  apply append_empty.
Qed.

End Insertion.

(** With distinct identities in the document, the one raise where the
    flag or the shimmer is put in is that of the selector in
    [findHandleSection]: [insertBefore] is called on the parent of its
    reference node, and a handle section whose parent is not the container
    has a grandparent.  So for a handle of plain characters neither
    insertion raises; the flag is in the document then, when the container
    is, and the shimmer goes before the handle section without the [catch]
    of line 326. *)
Theorem insertion_raises_by_the_selector_only (s : State) (container : nat)
    (name : string) (flagSpan : Node) (shimmer : nat) :
  distinctIds (document s) ->
  (insertFlag container name flagSpan (document s) = None
   <-> handleSectionOf container name (document s) = Throw)
  /\ (insertShimmer container name shimmer s = Throw
      <-> handleSectionOf container name (document s) = Throw)
  /\ (quotable name = true -> handleSectionOf container name (document s) <> Throw)
  /\ (forall doc',
        insertFlag container name flagSpan (document s) = Some doc' ->
        attached container (document s) = true -> In flagSpan (allNodes doc'))
  /\ (forall hs parent,
        handleSectionOf container name (document s) = Normal (Some hs) ->
        parentNode hs (document s) = Some parent ->
        insertShimmer container name shimmer s
        = Normal (with_document
                    (update parent (insertIn (shimmerNode shimmer) hs) (document s)) s)).
Proof.
  intros Hd. split; [|split; [|split; [|split]]].
  - split.
    + intros Hnone.
      destruct (handleSectionOf container name (document s)) as [o|] eqn:E; [|reflexivity].
      destruct (insertFlag_never_raises (document s) container name flagSpan Hd)
        as (i & f & E' & _); [now rewrite E|congruence].
    + intros E. unfold insertFlag. now rewrite E.
  - unfold insertShimmer.
    destruct (handleSectionOf container name (document s)) as [[hs|]|];
      [|split; discriminate|split; reflexivity].
    destruct (parentNode hs (document s)); [|split; discriminate].
    destruct (insertBefore _ _ _ _); split; discriminate.
  - intros Hq E. apply handleSection_raises in E as [E _]. congruence.
  - intros doc' E Ha.
    destruct (insertFlag_never_raises (document s) container name flagSpan Hd)
      as (i & f & E' & _ & _ & _ & Hin).
    + unfold insertFlag in E. now destruct (handleSectionOf _ _ _).
    + rewrite E in E'. injection E' as ->. now apply Hin.
  - intros hs parent Hh Hp. unfold insertShimmer. rewrite Hh, Hp.
    now rewrite (insertBefore_parent _ hs parent _ Hd Hp).
Qed.

Section Annotation.

Variable getCountryFlag : string -> Completion (option string).

Lemma tryBlock_detaches (w : Annotation) (loc : option string) (s : State) :
  screenName w ∈ processingUsernames s ->
  (shimmerSpan w < nextNode s)%nat ->
  shimmerInserted w = true \/ attached (shimmerSpan w) (document s) = false ->
  attached (shimmerSpan w) (document (snd (tryBlock getCountryFlag w loc s))) = false.
Proof.
  intros Hn Hlt Hsh.
  pose proof (removeShimmer_detaches w s Hsh) as H1.
  assert (Hf : forall v, attached (shimmerSpan w)
                 (document (setFlagAdded (usernameElement w) v (removeShimmer w s))) = false)
    by (intros v; now rewrite attached_setFlagAdded).
  unfold tryBlock.
  destruct (Str.orNull loc) as [l|]; cbn [snd]; [|apply Hf].
  destruct (getCountryFlag l) as [flag|]; cbn [snd]; [|exact H1].
  destruct (Str.orNull flag) as [f|]; cbn [snd]; [|apply Hf].
  destruct (getNode _ _ ≫= _); cbn [snd]; [apply Hf|].
  destruct (match userNameContainer w with Some c => Some c | None => _ end) as [c|];
    cbn [snd].
  2:{ rewrite attached_setFlagAdded. exact H1. }
  destruct (insertFlag _ _ _ _) as [doc'|] eqn:Ei; cbn [snd]; [|exact H1].
  match goal with |- context [redriveWaiting _ ?s'] =>
    destruct (redrive_in_flight (screenName w) s') as (-> & _ & _) end.
  { cbn. now rewrite names_removeShimmer. }
  rewrite attached_setFlagAdded. cbn [document with_document].
  apply insertFlag_shape in Ei as (i & g & -> & G1 & _ & G3).
  apply (detached_after_insert _ i g (nextNode (removeShimmer w s)) f);
    [exact G1|exact G3| |exact H1].
  rewrite nextNode_removeShimmer. lia.
Qed.

(** By the time an annotation ends its shimmer is out of the document,
    whatever the lookup gave and whether or not the code after it raised. *)
Theorem shimmer_is_gone_when_the_annotation_ends (w : Annotation) (r : Settlement)
    (s : State) :
  screenName w ∈ processingUsernames s ->
  (shimmerSpan w < nextNode s)%nat ->
  shimmerInserted w = true \/ attached (shimmerSpan w) (document s) = false ->
  attached (shimmerSpan w) (document (resume getCountryFlag w r s)) = false.
Proof.
  intros Hn Hlt Hsh. unfold resume.
  change (document (finallyBlock w ?x)) with (document x).
  assert (Hcatch : forall s0, attached (shimmerSpan w) (document s0) = false ->
            attached (shimmerSpan w) (document (catchBlock w s0)) = false).
  { intros s0 H0. unfold catchBlock. rewrite attached_setFlagAdded.
    apply removeShimmer_detaches. now right. }
  destruct r as [loc|].
  - pose proof (tryBlock_detaches w loc s Hn Hlt Hsh) as HT.
    destruct (tryBlock getCountryFlag w loc s) as [[|] s']; cbn [snd] in HT;
      [exact HT|now apply Hcatch].
  - unfold catchBlock. rewrite attached_setFlagAdded.
    now apply removeShimmer_detaches.
Qed.

(** The way through the [try] block on which the flag is put in. *)
Lemma tryBlock_inserts (w : Annotation) (location flag : string) (c : nat)
    (s : State) (doc' : list Node) :
  getCountryFlag location = Normal (Some flag) ->
  location <> "" -> flag <> "" ->
  userNameContainer w = Some c ->
  getNode (usernameElement w) (document (removeShimmer w s))
    ≫= querySelector (hasAttr FLAG) = None ->
  insertFlag c (screenName w) (flagNode (nextNode s) flag)
    (document (removeShimmer w s)) = Some doc' ->
  tryBlock getCountryFlag w (Some location) s
  = (Returned,
     redriveWaiting (screenName w)
       (setFlagAdded (usernameElement w) "true"
          (with_document doc'
             (with_nextNode (S (nextNode s)) (removeShimmer w s))))).
Proof.
  intros Hflag Hl Hf Hc Hnone E.
  assert (E1 : Str.orNull (Some location) = Some location) by now destruct location.
  assert (E2 : Str.orNull (Some flag) = Some flag) by now destruct flag.
  unfold tryBlock. cbv zeta. rewrite E1. cbv iota beta. rewrite Hflag. cbv iota beta.
  rewrite E2. cbv iota beta. rewrite Hnone. cbv iota beta. rewrite Hc. cbv iota beta.
  rewrite nextNode_removeShimmer.
  change (document (with_nextNode ?n ?x)) with (document x).
  rewrite E. reflexivity.
Qed.

(** The annotation of a handle of plain characters whose location is known
    and has a flag: when the element and its user-name container are in the
    document, with distinct identities, and the element holds no flag yet,
    the annotation
    ends with the element in state 'true', the flag - a span that shows a
    space and the glyph - in the document, and the handle out of the
    in-flight set. *)
Theorem located_handle_gets_its_flag (w : Annotation) (location flag : string)
    (c : nat) (s : State) :
  let s1 := removeShimmer w s in
  let el := usernameElement w in
  getCountryFlag location = Normal (Some flag) ->
  location <> "" -> flag <> "" ->
  userNameContainer w = Some c ->
  quotable (screenName w) = true ->
  distinctIds (document s1) ->
  attached el (document s1) = true ->
  attached c (document s1) = true ->
  getNode el (document s1) ≫= querySelector (hasAttr FLAG) = None ->
  (el < nextNode s)%nat ->
  screenName w ∈ processingUsernames s ->
  let s' := resume getCountryFlag w (Fulfilled (Some location)) s in
  flagAdded el s' = Some "true"
  /\ In (flagNode (nextNode s) flag) (allNodes (document s'))
  /\ textContent (flagNode (nextNode s) flag) = " " ++ flag
  /\ screenName w ∉ processingUsernames s'.
Proof.
  intros s1 el Hflag Hl Hf Hc Hq Hd Hel Hcont Hnone Hlt Hn s'.
  destruct (insertFlag_never_raises (document s1) c (screenName w)
              (flagNode (nextNode s) flag) Hd) as (i & f & E & F1 & F2 & F3 & Hin).
  { intros [Hq' _]%handleSection_raises. congruence. }
  assert (Hdoc : document s'
                 = setAttribute el FLAG_ADDED "true" (update i f (document s1))).
  { unfold s', resume.
    rewrite (tryBlock_inserts w location flag c s _ Hflag Hl Hf Hc Hnone E).
    change (document (finallyBlock w ?x)) with (document x).
    match goal with |- context [redriveWaiting _ ?s0] =>
      destruct (redrive_in_flight (screenName w) s0) as (-> & _ & _) end.
    { cbn. now rewrite names_removeShimmer. }
    reflexivity. }
  split; [|split; [|split]].
  - unfold flagAdded. rewrite Hdoc.
    apply (flagAdded_setFlagAdded el "true" (with_document (update i f (document s1)) s)).
    now apply attached_update.
  - rewrite Hdoc. apply flagNode_kept; [lia|now apply Hin].
  - apply textContent_flagNode.
  - unfold s', resume, finallyBlock. simpl.
    intros [_ H]%elem_of_difference. apply H. now apply elem_of_singleton.
Qed.

End Annotation.

Lemma insertion_raises_by_the_selector_only_witness :
  distinctIds (document Runs.answeredAlice)
  /\ insertFlag 11 "alice" (flagNode 19 "🇫🇷") (document Runs.answeredAlice) <> None
  /\ insertShimmer 11 "alice" 19 Runs.answeredAlice <> Throw.
Proof.
  assert (H : distinctIds (document Runs.answeredAlice)).
  { unfold distinctIds. apply (bool_decide_unpack _). vm_compute. exact I. }
  split; [exact H|].
  destruct (insertion_raises_by_the_selector_only Runs.answeredAlice 11
              "alice" (flagNode 19 "🇫🇷") 19 H) as (H1 & H2 & H3 & _).
  split.
  - intros E. now apply (H3 eq_refl), H1.
  - intros E. now apply (H3 eq_refl), H2.
Defined.

Lemma shimmer_is_gone_when_the_annotation_ends_witness :
  screenName Scenario.someWaiter ∈ processingUsernames Runs.answeredAlice
  /\ (shimmerSpan Scenario.someWaiter < nextNode Runs.answeredAlice)%nat
  /\ attached (shimmerSpan Scenario.someWaiter) (document Runs.answeredAlice) = true
  /\ attached (shimmerSpan Scenario.someWaiter)
       (document (resume Scenario.exampleFlags Scenario.someWaiter
                    (Fulfilled (Some "Paris, France")) Runs.answeredAlice))
     = false.
Proof.
  assert (Hn : screenName Scenario.someWaiter ∈ processingUsernames Runs.answeredAlice)
    by (apply (bool_decide_unpack _); vm_compute; exact I).
  assert (Hlt : (shimmerSpan Scenario.someWaiter < nextNode Runs.answeredAlice)%nat)
    by (apply Nat.ltb_lt; vm_compute; reflexivity).
  split; [exact Hn|]. split; [exact Hlt|]. split; [vm_compute; reflexivity|].
  exact (shimmer_is_gone_when_the_annotation_ends Scenario.exampleFlags
           Scenario.someWaiter (Fulfilled (Some "Paris, France")) Runs.answeredAlice
           Hn Hlt (or_introl eq_refl)).
Defined.

Lemma located_handle_gets_its_flag_witness :
  let w := Scenario.someWaiter in
  let s := Runs.answeredAlice in
  Scenario.exampleFlags "Paris, France" = Normal (Some "🇫🇷")
  /\ distinctIds (document (removeShimmer w s))
  /\ attached (usernameElement w) (document (removeShimmer w s)) = true
  /\ screenName w ∈ processingUsernames s
  /\ flagAdded (usernameElement w)
       (resume Scenario.exampleFlags w (Fulfilled (Some "Paris, France")) s)
     = Some "true"
  /\ In (flagNode (nextNode s) "🇫🇷")
       (allNodes (document
          (resume Scenario.exampleFlags w (Fulfilled (Some "Paris, France")) s))).
Proof.
  intros w s.
  assert (H1 : Scenario.exampleFlags "Paris, France" = Normal (Some "🇫🇷"))
    by (vm_compute; reflexivity).
  assert (H2 : "Paris, France" <> "") by discriminate.
  assert (H3 : "🇫🇷" <> "") by discriminate.
  assert (H4 : userNameContainer w = Some 11%nat) by reflexivity.
  assert (Hq : quotable (screenName w) = true) by reflexivity.
  assert (H5 : distinctIds (document (removeShimmer w s))).
  { unfold distinctIds. apply (bool_decide_unpack _). vm_compute. exact I. }
  assert (H6 : attached (usernameElement w) (document (removeShimmer w s)) = true)
    by (vm_compute; reflexivity).
  assert (H7 : attached 11 (document (removeShimmer w s)) = true)
    by (vm_compute; reflexivity).
  assert (H8 : getNode (usernameElement w) (document (removeShimmer w s))
                 ≫= querySelector (hasAttr FLAG) = None)
    by (vm_compute; reflexivity).
  assert (H9 : (usernameElement w < nextNode s)%nat)
    by (apply Nat.ltb_lt; vm_compute; reflexivity).
  assert (H10 : screenName w ∈ processingUsernames s)
    by (apply (bool_decide_unpack _); vm_compute; exact I).
  split; [exact H1|]. split; [exact H5|]. split; [exact H6|]. split; [exact H10|].
  pose proof (located_handle_gets_its_flag Scenario.exampleFlags w "Paris, France"
                "🇫🇷" 11 s H1 H2 H3 H4 Hq H5 H6 H7 H8 H9 H10) as (Ha & Hb & _).
  split; [exact Ha|exact Hb].
Defined.

(** ** Scanning again *)

Lemma fold_unchanged {B} (f : State -> B -> State) (l : list B) (s : State) :
  (forall b, In b l -> f s b = s) -> fold_left f l s = s.
Proof.
  induction l as [|b l IH]; intros H; simpl; [reflexivity|].
  rewrite (H b (or_introl eq_refl)). apply IH. intros b' Hb'. apply H. now right.
Qed.

(** A scan passes over every container that is marked 'processing',
    'waiting' or 'true': on a page where every container with a handle
    carries a state other than 'failed', [processUsernames] changes
    nothing - it starts no annotation, sets no timer and sends no
    request. *)
Theorem scan_passes_over_marked_containers (s : State) :
  (forall c container name,
      In c (elementIds (documentQuery selContainer (document s))) ->
      getNode c (document s) = Some container ->
      extractUsername container = Some name ->
      exists status,
        getAttribute FLAG_ADDED container = Some status
        /\ status <> "" /\ status <> "failed") ->
  processUsernames s = s.
Proof.
  intros H. unfold processUsernames. destruct (negb _); [reflexivity|].
  apply fold_unchanged. intros c Hc. unfold scanContainer.
  destruct (getNode c (document s)) as [container|] eqn:Eg; [|reflexivity].
  destruct (extractUsername container) as [name|] eqn:Ee; [|reflexivity].
  destruct (H c container name Hc Eg Ee) as (status & -> & Hne & Hnf).
  replace (Str.orNull (Some status)) with (Some status) by now destruct status.
  unfold Str.eqb. now rewrite bool_decide_eq_false_2.
Qed.

Lemma scan_passes_over_marked_containers_witness :
  (forall c container name,
      In c (elementIds (documentQuery selContainer (document Scenario.duplicate))) ->
      getNode c (document Scenario.duplicate) = Some container ->
      extractUsername container = Some name ->
      exists status,
        getAttribute FLAG_ADDED container = Some status
        /\ status <> "" /\ status <> "failed")
  /\ processUsernames Scenario.duplicate = Scenario.duplicate.
Proof.
  assert (H : forall c container name,
      In c (elementIds (documentQuery selContainer (document Scenario.duplicate))) ->
      getNode c (document Scenario.duplicate) = Some container ->
      extractUsername container = Some name ->
      exists status,
        getAttribute FLAG_ADDED container = Some status
        /\ status <> "" /\ status <> "failed").
  { intros c container name Hc Hg He. vm_compute in Hc.
    destruct Hc as [<-|[<-|[<-|[<-|[]]]]]; vm_compute in Hg; injection Hg as <-;
      vm_compute in He; try discriminate.
    - exists "true". vm_compute. repeat split; discriminate.
    - exists "waiting". vm_compute. repeat split; discriminate. }
  split; [exact H|].
  exact (scan_passes_over_marked_containers Scenario.duplicate H).
Defined.

(** ** The style sheet of the shimmer *)

Lemma style_present doc head style :
  attached head doc = true ->
  attrIs "id" "twitter-flag-shimmer-style" style = true ->
  existsb (attrIs "id" "twitter-flag-shimmer-style")
    (allNodes (appendChild head style doc)) = true.
Proof.
  intros Ha Hs. apply existsb_exists. exists style. split; [|exact Hs].
  now apply appendChild_in.
Qed.

(** The [head] of a document is in the document. *)
Lemma documentHead_attached doc head :
  documentHead doc = Some head -> attached head doc = true.
Proof.
  unfold documentHead, documentElement.
  destruct (List.find _ doc) as [html|] eqn:F; [|discriminate].
  apply find_some in F as [Hin _].
  destruct (tagIs "html" html); [|discriminate].
  destruct (List.find (tagIs "head") (childNodes html)) as [h|] eqn:G; [|discriminate].
  apply find_some in G as [Hh _]. simpl. intros Hid.
  apply attached_iff. exists h. split; [|exact Hid].
  apply (forest_trans doc html); [now apply in_allNodes_top|now apply child_in_subtree].
Qed.

(** [createLoadingShimmer] puts the style sheet of the animation into the
    [head] when no element with its [id] is in the document, and raises
    there when the document has no [head]: the call raises exactly when
    the document has neither, and leaves the document as it was then.  A
    call that returns gives a new span, the style sheet is in the document
    after it, and a second call adds nothing to the document. *)
Theorem shimmer_style_is_added_once (s : State) :
  let present :=
    existsb (attrIs "id" "twitter-flag-shimmer-style") (allNodes (document s)) in
  let s1 := snd (createLoadingShimmer s) in
  (fst (createLoadingShimmer s) = Throw
   <-> present = false /\ documentHead (document s) = None)
  /\ (fst (createLoadingShimmer s) = Throw -> document s1 = document s)
  /\ (fst (createLoadingShimmer s) <> Throw ->
      fst (createLoadingShimmer s) = Normal (nextNode s)
      /\ (nextNode s < nextNode s1)%nat
      /\ existsb (attrIs "id" "twitter-flag-shimmer-style") (allNodes (document s1))
         = true
      /\ createLoadingShimmer s1
         = (Normal (nextNode s1), with_nextNode (S (nextNode s1)) s1)).
Proof.
  intros present s1.
  assert (Hsecond : forall s0,
            existsb (attrIs "id" "twitter-flag-shimmer-style") (allNodes (document s0))
            = true ->
            createLoadingShimmer s0
            = (Normal (nextNode s0), with_nextNode (S (nextNode s0)) s0)).
  { intros s0 H0. unfold createLoadingShimmer. cbn [document with_nextNode].
    now rewrite H0. }
  set (style := Element (S (nextNode s)) "style" [("id", "twitter-flag-shimmer-style")]
                  [TextNode shimmerKeyframes]).
  destruct (existsb (attrIs "id" "twitter-flag-shimmer-style")
              (allNodes (document s))) eqn:E.
  - assert (Ec : createLoadingShimmer s
                 = (Normal (nextNode s), with_nextNode (S (nextNode s)) s))
      by now apply Hsecond.
    unfold s1, present. rewrite Ec. cbn [fst snd].
    split; [split; [discriminate|intros [? _]; discriminate]|].
    split; [discriminate|]. intros _. split; [reflexivity|].
    split; [cbn; lia|]. split; [exact E|]. apply Hsecond. exact E.
  - destruct (documentHead (document s)) as [head|] eqn:H.
    + assert (Ec : createLoadingShimmer s
                   = (Normal (nextNode s),
                      with_document (appendChild head style (document s))
                        (with_nextNode (S (S (nextNode s))) s))).
      { unfold createLoadingShimmer. cbn [document with_nextNode nextNode].
        now rewrite E, H. }
      unfold s1, present. rewrite Ec. cbn [fst snd].
      split; [split; [discriminate|intros [_ ?]; discriminate]|].
      split; [discriminate|]. intros _. split; [reflexivity|].
      split; [cbn; lia|].
      assert (Hs : existsb (attrIs "id" "twitter-flag-shimmer-style")
                     (allNodes (appendChild head style (document s))) = true).
      { apply style_present; [now apply documentHead_attached|reflexivity]. }
      split; [exact Hs|]. apply Hsecond. exact Hs.
    + assert (Ec : createLoadingShimmer s
                   = (Throw, with_nextNode (S (S (nextNode s))) s)).
      { unfold createLoadingShimmer. cbn [document with_nextNode nextNode].
        now rewrite E, H. }
      unfold s1, present. rewrite Ec. cbn [fst snd].
      split; [split; [now split|reflexivity]|]. split; [reflexivity|].
      intros Hne. now destruct Hne.
Qed.

(** ** The popup *)

Section PopupFacts.

Import Popup.





End PopupFacts.



(** A click whose calls are answered before anything else happens stores
    the negation of the flag - of [DEFAULT_ENABLED] when nothing is stored
    - and tells the active tab, when there is one, the value it stored.
    That is the value the content script of the tab takes, and the value a
    content script loads that starts later.  A second such click stores the
    first value again. *)
Theorem click_stores_the_negation_and_tells_the_tab (p : Popup.State)
    (tab : nat) :
  Popup.calls p = [] ->
  let newState := negb (Popup.orDefault (Popup.extension_enabled p)) in
  let p1 := Popup.run p (Popup.clickAnswered (Some tab)) in
  Popup.extension_enabled p1 = Some newState
  /\ Popup.sent p1 = (Popup.sent p ++ [(tab, newState)])%list
  /\ Popup.calls p1 = []
  /\ (forall s, extensionEnabled (onExtensionToggle newState s) = newState)
  /\ (forall doc now cached valid,
        extensionEnabled (init doc now (Popup.extension_enabled p1) cached valid)
        = newState)
  /\ loadEnabledState (Normal (Popup.extension_enabled p1)) = newState
  /\ Popup.orDefault
       (Popup.extension_enabled (Popup.run p1 (Popup.clickAnswered (Some tab))))
     = Popup.orDefault (Popup.extension_enabled p).
Proof.
  intros Hc newState p1.
  assert (E1 : p1 = {| Popup.extension_enabled := Some newState;
                       Popup.view := Popup.updateToggle newState (Popup.view p);
                       Popup.calls := [];
                       Popup.sent := (Popup.sent p ++ [(tab, newState)])%list |}).
  { unfold p1, Popup.run, Popup.clickAnswered. simpl. rewrite Hc. reflexivity. }
  rewrite E1. simpl. repeat split.
  - intros s. unfold onExtensionToggle. now destruct newState.
  - intros doc now cached valid. unfold init, loadCache. simpl.
    destruct (negb valid); simpl; [now destruct newState|].
    destruct cached; simpl; now destruct newState.
  - unfold newState. now destruct (Popup.orDefault (Popup.extension_enabled p)).
Qed.

Lemma click_stores_the_negation_and_tells_the_tab_witness :
  let p := Popup.run (Popup.opened
                        {| Popup.enabledClass := false; Popup.statusText := "";
                           Popup.statusColor := "" |} None) [Popup.Answer None] in
  Popup.calls p = []
  /\ Popup.extension_enabled (Popup.run p (Popup.clickAnswered (Some 7%nat)))
     = Some false
  /\ Popup.sent (Popup.run p (Popup.clickAnswered (Some 7%nat))) = [(7%nat, false)].
Proof.
  intros p.
  assert (Hc : Popup.calls p = []) by reflexivity.
  split; [exact Hc|].
  destruct (click_stores_the_negation_and_tells_the_tab p 7 Hc) as (H1 & H2 & _).
  split; [exact H1|exact H2].
Defined.

(** The click handler reads the flag and writes its negation in two calls.
    A second click that comes before the read of the first is answered
    reads the same flag: both clicks store the same value, and the flag is
    negated once. *)
Theorem second_click_before_the_answer_is_lost (p : Popup.State)
    (t1 t2 t3 t4 t5 t6 : option nat) :
  Popup.calls p = [] ->
  let newState := negb (Popup.orDefault (Popup.extension_enabled p)) in
  let p2 := Popup.run p
              [Popup.Click; Popup.Click; Popup.Answer t1; Popup.Answer t2;
               Popup.Answer t3; Popup.Answer t4; Popup.Answer t5; Popup.Answer t6] in
  Popup.extension_enabled p2 = Some newState
  /\ Popup.view p2 = Popup.updateToggle newState (Popup.view p)
  /\ Popup.calls p2 = []
  /\ forall m, In m (Popup.sent p2) -> In m (Popup.sent p) \/ snd m = newState.
Proof.
  intros Hc newState p2.
  assert (E : Popup.extension_enabled p2 = Some newState
              /\ Popup.view p2 = Popup.updateToggle newState (Popup.view p)
              /\ Popup.calls p2 = []
              /\ exists l, Popup.sent p2 = (Popup.sent p ++ l)%list
                           /\ Forall (fun m => snd m = newState) l).
  { unfold p2, Popup.run. simpl. rewrite Hc. simpl.
    destruct t5 as [a|], t6 as [b|]; simpl; repeat split.
    - exists [(a, newState); (b, newState)]. rewrite <- app_assoc. split; [reflexivity|].
      repeat constructor.
    - exists [(a, newState)]. split; [reflexivity|]. repeat constructor.
    - exists [(b, newState)]. split; [reflexivity|]. repeat constructor.
    - exists []. rewrite app_nil_r. split; [reflexivity|]. constructor. }
  destruct E as (E1 & E2 & E3 & l & E4 & Hl).
  split; [exact E1|]. split; [exact E2|]. split; [exact E3|].
  intros m Hm. rewrite E4 in Hm. apply in_app_or in Hm as [Hm|Hm]; [now left|right].
  rewrite List.Forall_forall in Hl. now apply Hl.
Qed.

Lemma second_click_before_the_answer_is_lost_witness :
  let p := Popup.run (Popup.opened
                        {| Popup.enabledClass := false; Popup.statusText := "";
                           Popup.statusColor := "" |} (Some true))
             [Popup.Answer None] in
  Popup.calls p = []
  /\ Popup.extension_enabled
       (Popup.run p
          [Popup.Click; Popup.Click; Popup.Answer None; Popup.Answer None;
           Popup.Answer None; Popup.Answer None; Popup.Answer (Some 7%nat);
           Popup.Answer (Some 7%nat)]) = Some false.
Proof.
  intros p.
  assert (Hc : Popup.calls p = []) by reflexivity.
  split; [exact Hc|].
  exact (proj1 (second_click_before_the_answer_is_lost p None None None None
                  (Some 7%nat) (Some 7%nat) Hc)).
Defined.

(** ** One request for a handle *)

Section Named.

Lemma named_same s s' :
  requestQueue s' = requestQueue s -> listeners s' = listeners s ->
  named s -> named s'.
Proof. unfold named. now intros -> ->. Qed.

Lemma named_quiet s s' : quiet s s' -> named s -> named s'.
Proof. intros []. now apply named_same. Qed.

Lemma dispatch_named r q s :
  q_screenName r = screenName (q_waiter r) ->
  Forall (fun q => q_screenName q = screenName (q_waiter q)) q ->
  named s -> named (dispatch r (with_requestQueue q s)).
Proof.
  intros Hr Hq [_ Hl]. split; simpl; [exact Hq|].
  apply Forall_app. split; [exact Hl|]. now constructor.
Qed.

Lemma dispatchLoop_named q : forall s,
  requestQueue s = q -> named s -> named (dispatchLoop q s).
Proof.
  induction q as [|r q IH]; intros s Hq H; simpl; [now apply (named_same s)|].
  destruct (_ <? MAX_CONCURRENT_REQUESTS); [|now apply (named_same s)].
  destruct (_ <? MIN_REQUEST_INTERVAL); [now apply (named_same s)|].
  apply IH; [reflexivity|]. destruct H as [H1 H2]. rewrite Hq in H1.
  apply List.Forall_cons_iff in H1 as [Hr H1]. apply dispatch_named; [exact Hr|exact H1|].
  split; [now rewrite Hq; constructor|exact H2].
Qed.

Lemma processRequestQueue_named s : named s -> named (processRequestQueue s).
Proof.
  intros H. unfold processRequestQueue. destruct (_ || _); [exact H|].
  destruct (_ && _); [now apply (named_same s)|].
  apply dispatchLoop_named; [reflexivity|].
  destruct (0 <? rateLimitResetTime s); now apply (named_same s).
Qed.

Lemma getUserLocation_named name w s :
  screenName w = name -> named s -> named (snd (getUserLocation name w s)).
Proof.
  intros Hw [H1 H2]. unfold getUserLocation.
  assert (Hpush : forall s0, requestQueue s0 = requestQueue s -> listeners s0 = listeners s ->
    named (processRequestQueue
             (with_requestQueue
                (requestQueue s0 ++ [{| q_screenName := name; q_waiter := w |}]) s0))).
  { intros s0 E1 E2. apply processRequestQueue_named. split; simpl.
    - rewrite E1. apply Forall_app. split; [exact H1|]. constructor; [now simpl|constructor].
    - now rewrite E2. }
  destruct (locationCache s !! name) as [[cached|]|].
  - now split.
  - exact (Hpush (with_locationCache (delete name (locationCache s)) s) eq_refl eq_refl).
  - exact (Hpush s eq_refl eq_refl).
Qed.

Lemma addFlagToUsername_named el name s :
  named s -> named (snd (addFlagToUsername el name s)).
Proof.
  intros H. apply addFlagToUsername_cases.
  - intros _. exact H.
  - intros _. now apply (named_same s).
  - intros s2 s4 _ E Hp.
    assert (H4 : named s4).
    { apply (named_quiet s2); [now apply pageOnly_quiet|].
      rewrite E. now apply (named_same s). }
    split; [exact H4|]. intros w Hw _.
    pose proof (getUserLocation_named name w s4 Hw H4) as HG.
    destruct (getUserLocation name w s4) as [[loc|] s5]; simpl in HG.
    + now apply (named_same s5).
    + exact HG.
Qed.

Lemma redriveWaiting_named name s : named s -> named (redriveWaiting name s).
Proof.
  unfold redriveWaiting. apply fold_left_inv. intros a c Ha.
  destruct (getNode c (document a)); [|exact Ha].
  case_bool_decide; [now apply addFlagToUsername_named|exact Ha].
Qed.

Lemma processUsernames_named s : named s -> named (processUsernames s).
Proof.
  intros H. unfold processUsernames. destruct (negb _); [exact H|].
  revert H. apply fold_left_inv. intros a c Ha. unfold scanContainer.
  assert (Hs : forall name, named (startAnnotation c name a)).
  { intros name. apply startAnnotation_cases.
    - now apply addFlagToUsername_named.
    - intros s'. now apply named_same. }
  destruct (getNode c (document a)) as [container|]; [|exact Ha].
  destruct (extractUsername container) as [name|]; [|exact Ha].
  destruct (Str.orNull _) as [status|]; [|apply Hs].
  destruct (Str.eqb status "failed"); [apply Hs|exact Ha].
Qed.

Lemma removeListener_named rid s : named s -> named (removeListener rid s).
Proof.
  intros [H1 H2]. split; [exact H1|]. simpl.
  rewrite List.Forall_forall in *. intros r [Hr _]%filter_In. now apply H2.
Qed.

Lemma handler_named r data s : named s -> named (handler r data s).
Proof.
  intros H. unfold handler. destruct data as [name rid loc lim| |]; try exact H.
  destruct (_ && _); [|exact H].
  match goal with |- named (enqueueJob _ ?s') => apply (named_same s'); try reflexivity end.
  destruct (negb lim).
  - apply (named_quiet (removeListener (requestId r) s));
      [apply saveCacheEntry_quiet|now apply removeListener_named].
  - now apply removeListener_named.
Qed.

Lemma onWindowMessage_named data s : named s -> named (onWindowMessage data s).
Proof.
  intros H. unfold onWindowMessage.
  apply (fold_left_inv named); [intros a r; apply handler_named|].
  destruct (observing s); [|exact H]. destruct data; exact H.
Qed.

Lemma queueWake_named s : named s -> named (queueWake s).
Proof.
  intros H. unfold queueWake. destruct (requestQueue s) as [|r q] eqn:Eq; [exact H|].
  apply dispatchLoop_named; [reflexivity|].
  destruct H as [H1 H2]. rewrite Eq in H1.
  apply List.Forall_cons_iff in H1 as [Hr H1].
  apply dispatch_named; [exact Hr|exact H1|]. split; [now rewrite Eq; constructor|exact H2].
Qed.

Lemma saveCache_named s : named s -> named (saveCache s).
Proof.
  apply named_same; unfold saveCache; now destruct (negb _).
Qed.

Lemma runTask_named t s : named s -> named (runTask t s).
Proof.
  intros H. destruct t; simpl.
  - now apply processUsernames_named.
  - now apply processRequestQueue_named.
  - now apply queueWake_named.
  - unfold bridgeTimeout. destruct (List.find _ _); [|exact H].
    match goal with |- named (enqueueJob _ ?s') =>
      apply (named_same s'); try reflexivity end.
    now apply removeListener_named.
  - apply (named_quiet s); [apply pageOnly_quiet, waitingWake_page|exact H].
  - apply (named_quiet s); [apply saveCacheCallback_quiet|exact H].
  - now apply (named_same s).
  - apply saveCache_named. now apply (named_same s).
Qed.

Variable getCountryFlag : string -> Completion (option string).

Lemma resume_named w r s : named s -> named (resume getCountryFlag w r s).
Proof.
  intros H. unfold resume, finallyBlock.
  match goal with |- named (with_processingUsernames _ ?s') =>
    apply (named_same s'); try reflexivity end.
  assert (Hpage : forall s', pageOnly s s' -> named s').
  { intros s' Hp. apply (named_quiet s); [now apply pageOnly_quiet|exact H]. }
  destruct r as [loc|]; [|apply Hpage, catchBlock_page].
  assert (HT : named (snd (tryBlock getCountryFlag w loc s))).
  { unfold tryBlock.
    assert (H1 : pageOnly s (removeShimmer w s)) by apply removeShimmer_page.
    assert (Hf : forall v, pageOnly s (setFlagAdded (usernameElement w) v (removeShimmer w s))).
    { intros v. eapply pageOnly_trans; [exact H1|apply setFlagAdded_page]. }
    destruct (Str.orNull loc) as [l|]; simpl; [|apply Hpage, Hf].
    destruct (getCountryFlag l) as [flag|]; [|now apply Hpage].
    destruct (Str.orNull flag) as [f|]; simpl; [|apply Hpage, Hf].
    destruct (getNode _ _ ≫= _); simpl; [apply Hpage, Hf|].
    destruct (match userNameContainer w with Some c => Some c | None => _ end); simpl.
    2:{ apply Hpage. eapply pageOnly_trans; [exact H1|].
        eapply pageOnly_trans; [apply pageOnly_nextNode|apply setFlagAdded_page]. }
    destruct (insertFlag _ _ _ _); simpl.
    - apply redriveWaiting_named. apply Hpage.
      eapply pageOnly_trans; [exact H1|].
      eapply pageOnly_trans; [apply pageOnly_nextNode|].
      eapply pageOnly_trans; [apply pageOnly_document|apply setFlagAdded_page].
    - apply Hpage. eapply pageOnly_trans; [exact H1|apply pageOnly_nextNode]. }
  destruct (tryBlock getCountryFlag w loc s) as [[|] s']; simpl in HT; [exact HT|].
  apply (named_quiet s'); [apply pageOnly_quiet, catchBlock_page|exact HT].
Qed.

Lemma step_named s ev : named s -> named (step getCountryFlag s ev).
Proof.
  intros H. destruct ev as [dt|i| |data|enabled|doc added url|]; simpl.
  - destruct (dt <? 0); [exact H|now apply (named_same s)].
  - destruct (idle s); [|exact H].
    destruct (timers s !! i) as [[due t]|]; [|exact H].
    destruct (due <=? clock s); [|exact H].
    apply runTask_named. now apply (named_same s).
  - destruct (jobs s) as [|j rest]; [exact H|].
    assert (H0 : named (with_jobs rest s)) by now apply (named_same s).
    destruct j as [w v| | |w r|c]; simpl;
      [now apply (named_same s)|now apply (named_same s)|now apply (named_same s)|
       |now apply (named_same s)].
    now apply resume_named.
  - destruct (idle s); [now apply onWindowMessage_named|exact H].
  - destruct (idle s); [|exact H]. unfold onExtensionToggle.
    destruct enabled; now apply (named_same s).
  - destruct (idle s); [|exact H]. unfold onMutation. simpl.
    destruct (observing s); [|now apply (named_same s)].
    destruct (_ && _), url; now apply (named_same s).
  - destruct (idle s); [|exact H]. now apply (named_same s).
Qed.

Lemma run_named trace : forall s, named s -> named (run getCountryFlag s trace).
Proof.
  induction trace as [|ev trace IH]; intros s H; [exact H|].
  simpl. apply IH. now apply step_named.
Qed.

End Named.

Lemma init_named doc now toggle stored valid : named (init doc now toggle stored valid).
Proof.
  unfold named, init, loadCache. simpl.
  destruct (negb valid); simpl.
  - destruct (match toggle with Some b => b | None => DEFAULT_ENABLED end); simpl;
      split; constructor.
  - destruct stored; simpl;
      destruct (match toggle with Some b => b | None => DEFAULT_ENABLED end); simpl;
      split; constructor.
Qed.

Section Requests.

Variable getCountryFlag : string -> Completion (option string).

(** No handle is asked for twice at a time: in every state the script
    reaches, the requests in the queue and the requests that wait for their
    answer are for different handles, and each of these handles is in the
    in-flight set. *)
Theorem one_pending_request_for_a_handle (doc : list Node) (now : Z)
    (toggle : option bool) (stored : option (gmap string CacheEntry))
    (valid : bool) (trace : list Event) :
  let s := run getCountryFlag (init doc now toggle stored valid) trace in
  NoDup (pendingHandles s)
  /\ forall h, In h (pendingHandles s) -> h ∈ processingUsernames s.
Proof.
  intros s.
  assert (H : Inv [] s)
    by exact (run_inv getCountryFlag trace _ (init_inv doc now toggle stored valid)).
  assert (Hn : named s)
    by exact (run_named getCountryFlag trace _ (init_named doc now toggle stored valid)).
  destruct H as (_ & _ & [Hd Hs]). destruct Hn as [H1 H2].
  assert (E : exists rest, inFlight s = (pendingHandles s ++ rest)%list).
  { exists (List.map screenName (flat_map jobWaiters (jobs s))).
    unfold inFlight, waiters, pendingHandles. rewrite !List.map_app, app_assoc.
    f_equal. f_equal.
    - rewrite List.map_map. apply map_ext_in. intros q Hq.
      rewrite List.Forall_forall in H1. symmetry. now apply H1.
    - rewrite List.map_map. apply map_ext_in. intros r Hr.
      rewrite List.Forall_forall in H2. symmetry. now apply H2. }
  destruct E as (rest & E). simpl in Hd. rewrite E in Hd. split.
  - now apply NoDup_app in Hd as (Hd & _ & _).
  - intros h Hh. apply Hs. simpl. rewrite E. apply list_elem_of_In.
    apply in_or_app. now left.
Qed.

(** An answer that comes in time and is not flagged as rate limited is
    cached under the handle of its request, and the next lookup of the
    handle takes the location from the cache: nothing joins the queue and
    nothing is posted.  The 5 s timer of the save is set when
    [saveCache.timeout] was not set, and no timer is set when it was. *)
Theorem answer_in_time_is_cached (s : State) (r : BridgeRequest)
    (loc : option string) :
  idle s = true ->
  In r (listeners s) ->
  NoDup (List.map requestId (listeners s)) ->
  runtimeValid s = true ->
  let s1 := step getCountryFlag s
              (WindowMessage
                 (LocationResponse (b_screenName r) (requestId r) loc false)) in
  locationCache s1 !! b_screenName r = Some (Str.orNull loc)
  /\ timers s1
     = (if saveCacheTimeout s then timers s
        else timers s ++ [(clock s + 5000, T_saveCacheTimeout)])%list
  /\ saveCacheTimeout s1 = true
  /\ forall l w, Str.orNull loc = Some l ->
                 getUserLocation (b_screenName r) w s1 = (Cached l, s1).
Proof.
  intros Hidle Hin Hn Hv s1.
  assert (E : s1 = enqueueJob (J_then (b_waiter r) (Str.orNull loc))
                     (saveCacheEntry (b_screenName r) (Str.orNull loc)
                        (removeListener (requestId r) s))).
  { unfold s1. simpl. rewrite Hidle.
    now rewrite (answer_settles _ _ loc false r s Hn Hin eq_refl eq_refl). }
  assert (Hc : locationCache s1 !! b_screenName r = Some (Str.orNull loc)).
  { rewrite E. unfold saveCacheEntry. simpl. rewrite Hv. simpl.
    destruct (saveCacheTimeout s); simpl; apply lookup_insert_eq. }
  split; [exact Hc|]. split; [|split].
  - rewrite E. unfold saveCacheEntry. simpl. rewrite Hv. simpl.
    now destruct (saveCacheTimeout s).
  - rewrite E. unfold saveCacheEntry. simpl. rewrite Hv. simpl.
    now destruct (saveCacheTimeout s) eqn:Es.
  - intros l w Hl. unfold getUserLocation. now rewrite Hc, Hl.
Qed.

End Requests.

Lemma answer_in_time_is_cached_witness :
  let s := Scenario.wait 800 (Scenario.scanned Scenario.page1) in
  let w := {| usernameElement := 10; screenName := "alice";
              userNameContainer := Some 11%nat; shimmerSpan := 17;
              shimmerInserted := true |} in
  let r := {| requestId := 0; b_screenName := "alice"; b_waiter := w |} in
  let s1 := step Scenario.exampleFlags s
              (WindowMessage (LocationResponse "alice" 0 (Some "Paris, France") false)) in
  In r (listeners s)
  /\ locationCache s1 !! "alice" = Some (Some "Paris, France")
  /\ In (1700000007800, T_saveCacheTimeout) (timers s1)
  /\ getUserLocation "alice" w s1 = (Cached "Paris, France", s1).
Proof.
  intros s w r s1.
  assert (Hi : idle s = true) by (vm_compute; reflexivity).
  assert (Hin : In r (listeners s)) by (vm_compute; left; reflexivity).
  assert (Hn : NoDup (List.map requestId (listeners s)))
    by (vm_compute; constructor; [intros H; inversion H|constructor]).
  assert (Hv : runtimeValid s = true) by (vm_compute; reflexivity).
  pose proof (answer_in_time_is_cached Scenario.exampleFlags s r (Some "Paris, France")
                Hi Hin Hn Hv) as (H1 & H2 & _ & H3).
  split; [exact Hin|]. split; [exact H1|]. split.
  - vm_compute. repeat (first [left; reflexivity|right]).
  - exact (H3 "Paris, France" w eq_refl).
Defined.

(** ** A raise before the [try] *)

(** The call of [addFlagToUsername] that ends by a raise: the handle was
    not in flight and has entered the in-flight set, and but for that only
    the page has changed - no request was queued or posted, no timer set,
    no job left behind.  It is [createLoadingShimmer] that raised, or
    [findHandleSection] in the user-name container. *)
Theorem raise_before_the_try_keeps_the_handle (el : nat) (name : string)
    (s : State) :
  fst (addFlagToUsername el name s) = Raised ->
  let s' := snd (addFlagToUsername el name s) in
  let s2 := with_processingUsernames
              (({[name]} : gset string) ∪ processingUsernames s)
              (setFlagAdded el "processing" s) in
  flagAddedIs el "true" s = false
  /\ (name ∉ processingUsernames s)
  /\ (name ∈ processingUsernames s')
  /\ pageOnly s2 s'
  /\ (fst (createLoadingShimmer s2) = Throw
      \/ exists c,
           userNameContainerOf el (document s2) = Some c
           /\ handleSectionOf c name (document (snd (createLoadingShimmer s2))) = Throw).
Proof.
  intros Hr s' s2. unfold s'. unfold addFlagToUsername in *.
  destruct (flagAddedIs el "true" s); [discriminate|].
  case_bool_decide as Hn; [discriminate|].
  set (t := with_processingUsernames _ (setFlagAdded el "processing" s)) in *.
  subst s2.
  pose proof (shimmer_page name t) as Hp.
  assert (Hin : forall s3, pageOnly t s3 -> name ∈ processingUsernames s3).
  { intros s3 H3. rewrite (pageOnly_names _ _ H3). unfold t. simpl.
    apply elem_of_union. left. now apply elem_of_singleton. }
  destruct (createLoadingShimmer t) as [[sh|] s3]; cbn [fst snd] in *.
  - destruct Hp as [Hp Hins].
    destruct (userNameContainerOf el (document t)) as [c|].
    + destruct (insertShimmer c name sh s3) as [s4|] eqn:E4.
      * now destruct (getUserLocation _ _ s4) as [[loc|] s5].
      * cbn [snd]. split; [reflexivity|]. split; [exact Hn|].
        split; [now apply Hin|]. split; [exact Hp|]. right. exists c.
        split; [reflexivity|]. unfold insertShimmer in E4.
        destruct (handleSectionOf c name (document s3)) as [[hs|]|];
          [|discriminate|reflexivity].
        destruct (parentNode hs (document s3)); [|discriminate].
        now destruct (insertBefore _ _ _ _).
    + now destruct (getUserLocation _ _ s3) as [[loc|] s5].
  - split; [reflexivity|]. split; [exact Hn|]. split; [now apply Hin|].
    split; [exact Hp|]. now left.
Qed.

Lemma raise_before_the_try_keeps_the_handle_witness :
  let s := Scenario.wait 2000 (init Scenario.quotedPage Scenario.t0 None None true) in
  fst (addFlagToUsername 10 Scenario.quoted s) = Raised
  /\ (Scenario.quoted
        ∈ processingUsernames (snd (addFlagToUsername 10 Scenario.quoted s)))
  /\ handleSectionOf 11 Scenario.quoted
       (document (snd (createLoadingShimmer
          (with_processingUsernames
             (({[Scenario.quoted]} : gset string) ∪ processingUsernames s)
             (setFlagAdded 10 "processing" s))))) = Throw.
Proof.
  intros s.
  assert (Hr : fst (addFlagToUsername 10 Scenario.quoted s) = Raised)
    by (vm_compute; reflexivity).
  split; [exact Hr|].
  pose proof (raise_before_the_try_keeps_the_handle 10 Scenario.quoted s Hr)
    as (_ & _ & H3 & _ & _).
  split; [exact H3|]. vm_compute. reflexivity.
Defined.
